(** * LazyDP: the DP-SGD optimizer of [opacus/optimizers/optimizer.py]

    A shallow embedding of [DPOptimizer] and of the module-level helpers of
    [src/opacus/optimizers/optimizer.py], with the configuration globals of
    [src/config.py].

    Conventions of the embedding.
    - Python exceptions are values of [exn]; a method that can raise returns
      a [result].
    - Floating-point tensors are idealised as real numbers ([R]); integer
      tensors ([torch.int], [torch.int64]) and Python [int]s are [Z], with the
      32-bit wrap-around of [torch.int] written out where the code computes
      on such a tensor.
    - A dense tensor is a matrix, given by its rows.  A sparse COO tensor is
      the list of its row indices, the list of its value rows, its size and
      its [is_coalesced] flag.
    - The attribute [_processed] that [_mark_as_processed] attaches to a
      tensor object is a boolean field of the tensor.
    - Profiler calls ([config.profiler.start] ...) only measure time and are
      left out. *)

From Stdlib Require Import String.
From Stdlib Require Import ZArith List Bool Sorted Permutation Reals Lra Lia.
Import ListNotations.
Local Open Scope string_scope.
Local Open Scope list_scope.
Local Open Scope Z_scope.

Set Implicit Arguments.

(** ** Exceptions and the error monad *)

Inductive exn : Type :=
| ValueError (msg : string)
| AssertionError (msg : string)
| IndexError
| TypeError
| AttributeError
| RuntimeError (msg : string).

Inductive result (A : Type) : Type :=
| Ok (a : A)
| Raise (e : exn).

Arguments Ok {A} a.
Arguments Raise {A} e.

Definition bind {A B : Type} (c : result A) (k : A -> result B) : result B :=
  match c with
  | Ok a => k a
  | Raise e => Raise e
  end.

Notation "x <- c ;; k" := (bind c (fun x => k))
  (at level 61, c at next level, right associativity).
Notation "c ;;; k" := (bind c (fun _ => k))
  (at level 61, right associativity).

(** [assert cond, msg] *)
Definition py_assert (cond : bool) (msg : string) : result unit :=
  if cond then Ok tt else Raise (AssertionError msg).

(** [l[i]] on a Python list. *)
Definition py_index {A : Type} (l : list A) (i : nat) : result A :=
  match nth_error l i with
  | Some a => Ok a
  | None => Raise IndexError
  end.

(** [l[i] = v] on a Python list: [IndexError] out of range. *)
Fixpoint py_setitem {A : Type} (l : list A) (i : nat) (v : A) : result (list A) :=
  match l, i with
  | [], _ => Raise IndexError
  | _ :: tl, O => Ok (v :: tl)
  | hd :: tl, S j => tl' <- py_setitem tl j v ;; Ok (hd :: tl')
  end.

(** A loop [for x in l: body] threaded through the error monad. *)
Fixpoint for_each {A S : Type} (l : list A) (body : A -> S -> result S) (s : S)
  : result S :=
  match l with
  | [] => Ok s
  | x :: tl => s' <- body x s ;; for_each tl body s'
  end.

(** ** [config.py] *)

Inductive Mode : Type :=
| MODE_DPSGD_B | MODE_DPSGD_R | MODE_DPSGD_F | MODE_SGD | MODE_LAZYDP | MODE_EANA.

Definition Mode_eqb (a b : Mode) : bool :=
  match a, b with
  | MODE_DPSGD_B, MODE_DPSGD_B | MODE_DPSGD_R, MODE_DPSGD_R
  | MODE_DPSGD_F, MODE_DPSGD_F | MODE_SGD, MODE_SGD
  | MODE_LAZYDP, MODE_LAZYDP | MODE_EANA, MODE_EANA => true
  | _, _ => false
  end.

Inductive Device : Type := Cpu | Cuda.

Definition Device_eqb (a b : Device) : bool :=
  match a, b with
  | Cpu, Cpu | Cuda, Cuda => true
  | _, _ => false
  end.

(** The globals of [config.py] that the optimizer reads.  Thread counts
    ([coalesce_nthreads], [noise_base_nthreads], [noise_final_nthreads])
    select a degree of parallelism only and are left out. *)
Record Config : Type := mkConfig {
  dpsgd_mode : Mode;
  device : Device;
  is_debugging : bool;
  debugging_type : string;
  coalesce_optimize : string;
  noise_base_optimize : string;
  unique_optimize : string;
  cur_batch_size : Z;
  num_gathers_list : option (list Z)
}.

(** [x in [a, b, ...]] on strings. *)
Definition str_in (x : string) (l : list string) : bool :=
  existsb (String.eqb x) l.

(** ** Tensors *)

Definition Vec := list R.
Definition Mat := list Vec.

(** A two-dimensional sparse COO tensor (the gradient of an embedding
    table): entry [k] adds the row [nth k sp_values] at row index
    [nth k sp_indices]. *)
Record SparseCOO : Type := mkSparse {
  sp_indices : list Z;
  sp_values : Mat;
  sp_nrows : Z;
  sp_dim : Z;
  sp_coalesced : bool
}.

Inductive TensorData : Type :=
| Dense (m : Mat)
| Sparse (s : SparseCOO).

Record Tensor : Type := mkTensor {
  t_data : TensorData;
  t_processed : bool          (* hasattr(x, "_processed") *)
}.

(** A freshly created tensor object carries no [_processed] attribute. *)
Definition fresh (d : TensorData) : Tensor := mkTensor d false.

(** Per-sample gradients of one batch: one block (a matrix) per sample. *)
Record GSTensor : Type := mkGS {
  gs_samples : list Mat;
  gs_processed : bool         (* hasattr(x, "_processed") *)
}.

(** [p.grad_sample] is a tensor, or a list of tensors (one per accumulated
    batch), or something else. *)
Inductive GradSample : Type :=
| GS_Tensor (g : GSTensor)
| GS_List (l : list GSTensor)
| GS_Other.

(** An attribute that may be missing ([hasattr] is false), [None], or set. *)
Inductive Attr (A : Type) : Type :=
| Absent
| PyNone
| Has (a : A).

Arguments Absent {A}.
Arguments PyNone {A}.
Arguments Has {A} a.

(** A parameter with the attributes the optimizer and the grad-sample hooks
    attach to it.  [inputs] holds the flattened index tensor of
    [p.inputs = (index, activation, offset)] and is [None] when the
    attribute is missing (a parameter that is not an embedding table). *)
Record Param : Type := mkParam {
  p_rows : Z;
  p_cols : Z;
  p_device : Device;
  grad_sample : Attr GradSample;
  grad_sample_norms : list Vec;
  inputs : option (list Z);
  summed_grad : option Tensor;
  grad : option Tensor
}.

Definition set_grad_sample (v : Attr GradSample) (p : Param) : Param :=
  mkParam (p_rows p) (p_cols p) (p_device p) v (grad_sample_norms p)
          (inputs p) (summed_grad p) (grad p).

Definition set_summed_grad (v : option Tensor) (p : Param) : Param :=
  mkParam (p_rows p) (p_cols p) (p_device p) (grad_sample p)
          (grad_sample_norms p) (inputs p) v (grad p).

Definition set_grad (v : option Tensor) (p : Param) : Param :=
  mkParam (p_rows p) (p_cols p) (p_device p) (grad_sample p)
          (grad_sample_norms p) (inputs p) (summed_grad p) v.

(** ** The optimizer object

    [emb_l] lists the shapes [(rows, dim)] of the embedding tables of
    [self.module.emb_l]; as in [do_delayed_noise_update], [params[i]] is the
    weight of table [i] for [i < len(emb_l)].  [generator] is the source of
    standard normal variates that noise generation consumes. *)
Record DPOptimizer : Type := mkOpt {
  noise_multiplier : R;
  max_grad_norm : R;
  loss_reduction : string;
  expected_batch_size : option Z;
  secure_mode : bool;
  params : list Param;
  emb_l : list (Z * Z);
  step_skip_queue : list bool;          (* self._step_skip_queue *)
  is_last_step_skipped : bool;          (* self._is_last_step_skipped *)
  cnt_iter : Z;
  HT : list (list Z);
  stds_for_delayed_noise : list Vec;
  lS_i_nxt : option (list (list Z));
  generator : nat -> R
}.

Definition set_params (v : list Param) (o : DPOptimizer) : DPOptimizer :=
  mkOpt (noise_multiplier o) (max_grad_norm o) (loss_reduction o)
        (expected_batch_size o) (secure_mode o) v (emb_l o)
        (step_skip_queue o) (is_last_step_skipped o) (cnt_iter o) (HT o)
        (stds_for_delayed_noise o) (lS_i_nxt o) (generator o).

Definition set_step_skip_queue (v : list bool) (o : DPOptimizer) : DPOptimizer :=
  mkOpt (noise_multiplier o) (max_grad_norm o) (loss_reduction o)
        (expected_batch_size o) (secure_mode o) (params o) (emb_l o)
        v (is_last_step_skipped o) (cnt_iter o) (HT o)
        (stds_for_delayed_noise o) (lS_i_nxt o) (generator o).

Definition set_is_last_step_skipped (v : bool) (o : DPOptimizer) : DPOptimizer :=
  mkOpt (noise_multiplier o) (max_grad_norm o) (loss_reduction o)
        (expected_batch_size o) (secure_mode o) (params o) (emb_l o)
        (step_skip_queue o) v (cnt_iter o) (HT o)
        (stds_for_delayed_noise o) (lS_i_nxt o) (generator o).

Definition set_cnt_iter (v : Z) (o : DPOptimizer) : DPOptimizer :=
  mkOpt (noise_multiplier o) (max_grad_norm o) (loss_reduction o)
        (expected_batch_size o) (secure_mode o) (params o) (emb_l o)
        (step_skip_queue o) (is_last_step_skipped o) v (HT o)
        (stds_for_delayed_noise o) (lS_i_nxt o) (generator o).

Definition set_HT (v : list (list Z)) (o : DPOptimizer) : DPOptimizer :=
  mkOpt (noise_multiplier o) (max_grad_norm o) (loss_reduction o)
        (expected_batch_size o) (secure_mode o) (params o) (emb_l o)
        (step_skip_queue o) (is_last_step_skipped o) (cnt_iter o) v
        (stds_for_delayed_noise o) (lS_i_nxt o) (generator o).

Definition set_stds (v : list Vec) (o : DPOptimizer) : DPOptimizer :=
  mkOpt (noise_multiplier o) (max_grad_norm o) (loss_reduction o)
        (expected_batch_size o) (secure_mode o) (params o) (emb_l o)
        (step_skip_queue o) (is_last_step_skipped o) (cnt_iter o) (HT o)
        v (lS_i_nxt o) (generator o).

Definition set_lS_i_nxt (v : option (list (list Z))) (o : DPOptimizer)
  : DPOptimizer :=
  mkOpt (noise_multiplier o) (max_grad_norm o) (loss_reduction o)
        (expected_batch_size o) (secure_mode o) (params o) (emb_l o)
        (step_skip_queue o) (is_last_step_skipped o) (cnt_iter o) (HT o)
        (stds_for_delayed_noise o) v (generator o).

Definition set_generator (v : nat -> R) (o : DPOptimizer) : DPOptimizer :=
  mkOpt (noise_multiplier o) (max_grad_norm o) (loss_reduction o)
        (expected_batch_size o) (secure_mode o) (params o) (emb_l o)
        (step_skip_queue o) (is_last_step_skipped o) (cnt_iter o) (HT o)
        (stds_for_delayed_noise o) (lS_i_nxt o) v.

(** ** Integer tensors: [torch.int] and index tensors *)

Definition INT32_MIN : Z := - 2 ^ 31.
Definition INT32_MAX : Z := 2 ^ 31 - 1.

Definition fits_int32 (z : Z) : bool := (INT32_MIN <=? z) && (z <=? INT32_MAX).

(** Two's-complement wrap-around of arithmetic on a [torch.int] tensor. *)
Definition wrap32 (z : Z) : Z := (z + 2 ^ 31) mod 2 ^ 32 - 2 ^ 31.

(** Position addressed by index [k] in a dimension of size [n]: a negative
    index counts from the end, anything outside [-n, n) is an
    [IndexError]. *)
Definition norm_index (n : nat) (k : Z) : result nat :=
  if (0 <=? k) && (k <? Z.of_nat n) then Ok (Z.to_nat k)
  else if (- Z.of_nat n <=? k) && (k <? 0) then Ok (Z.to_nat (k + Z.of_nat n))
  else Raise IndexError.

(** [t[idx]] for a one-dimensional tensor [t] and an index tensor [idx]. *)
Fixpoint gather (t : list Z) (idx : list Z) : result (list Z) :=
  match idx with
  | [] => Ok []
  | k :: tl =>
      pos <- norm_index (length t) k ;;
      x <- py_index t pos ;;
      rest <- gather t tl ;;
      Ok (x :: rest)
  end.

(** [t[idx] = v] for a [torch.int] tensor [t], an index tensor [idx] and a
    Python [int] [v]: the scalar must fit the element type. *)
Fixpoint index_put_loop (t : list Z) (idx : list Z) (v : Z) : result (list Z) :=
  match idx with
  | [] => Ok t
  | k :: tl =>
      pos <- norm_index (length t) k ;;
      t' <- py_setitem t pos v ;;
      index_put_loop t' tl v
  end.

Definition index_put (t : list Z) (idx : list Z) (v : Z) : result (list Z) :=
  if fits_int32 v then index_put_loop t idx v
  else Raise (RuntimeError "value cannot be converted to type int without overflow").

(** ** Real vectors and matrices *)

Definition eps : R := 1e-6.

Fixpoint vadd (a b : Vec) : Vec :=
  match a, b with
  | x :: a', y :: b' => (x + y)%R :: vadd a' b'
  | _, _ => []
  end.

Definition vscale (c : R) (v : Vec) : Vec := map (Rmult c) v.

Fixpoint madd (a b : Mat) : Mat :=
  match a, b with
  | x :: a', y :: b' => vadd x y :: madd a' b'
  | _, _ => []
  end.

Definition mscale (c : R) (m : Mat) : Mat := map (vscale c) m.

Definition sum_squares (v : Vec) : R :=
  fold_right (fun x acc => (x * x + acc)%R) 0%R v.

(** [v.norm(2)] *)
Definition norm2 (v : Vec) : R := sqrt (sum_squares v).

(** [m.reshape(-1)] of a matrix. *)
Definition flatten (m : Mat) : Vec := concat m.

(** Shape of a dense tensor; a tensor without rows has no elements and its
    second extent is recorded as 0. *)
Definition mat_shape (m : Mat) : nat * nat :=
  (length m, match m with [] => O | r :: _ => length r end).

Definition same_shape (a b : Mat) : bool :=
  (length a =? length b)%nat &&
  forallb (fun rs => (length (fst rs) =? length (snd rs))%nat) (combine a b).

Definition zeros (rows cols : nat) : Mat := repeat (repeat 0%R cols) rows.
Definition ones (rows cols : nat) : Mat := repeat (repeat 1%R cols) rows.

(** ** Sparse gradients and coalescing *)

(** One step of coalescing: add the entry [(k, v)] to an accumulator whose
    keys are strictly increasing.  The first contribution of a row is copied,
    later ones are added to it. *)
Fixpoint insert_entry (k : Z) (v : Vec) (acc : list (Z * Vec)) : list (Z * Vec) :=
  match acc with
  | [] => [(k, v)]
  | (k', v') :: rest =>
      if k <? k' then (k, v) :: acc
      else if k =? k' then (k', vadd v' v) :: rest
      else (k', v') :: insert_entry k v rest
  end.

Definition coalesce_entries (l : list (Z * Vec)) : list (Z * Vec) :=
  fold_left (fun acc kv => insert_entry (fst kv) (snd kv) acc) l [].

(** [s.coalesce()] on the data of an uncoalesced sparse tensor: indices
    sorted and unique, duplicate rows summed. *)
Definition coalesce_sparse (s : SparseCOO) : SparseCOO :=
  let es := coalesce_entries (combine (sp_indices s) (sp_values s)) in
  mkSparse (map fst es) (map snd es) (sp_nrows s) (sp_dim s) true.

(** [t.coalesce()]: a tensor that is already coalesced is returned itself
    (the same object); otherwise the result is a new tensor. A dense tensor
    has no [coalesce]. *)
Definition coalesce (t : Tensor) : result Tensor :=
  match t_data t with
  | Sparse s =>
      if sp_coalesced s then Ok t else Ok (fresh (Sparse (coalesce_sparse s)))
  | Dense _ => Raise (RuntimeError "coalesce expected sparse coordinate tensor layout")
  end.

(** [x.coalesce()] where [x] may be [None]. *)
Definition coalesce_method (x : option Tensor) : result Tensor :=
  match x with
  | Some t => coalesce t
  | None => Raise AttributeError
  end.

(** Modelled from the spec: [custom_api_cpp.coalesce_multi_thread_openmp] is
    a C++ kernel of the repository's extension whose source is absent; the
    execution strategies "must produce identical results" to the baseline
    sort-and-sum, so it is the baseline coalescing.  The extension function
    takes a tensor; [None] is a [TypeError]. *)
Definition coalesce_multi_thread_openmp (x : option Tensor) : result Tensor :=
  match x with
  | Some t => coalesce t
  | None => Raise TypeError
  end.

(** Modelled from the spec: [custom_api_cpp.coalesce_multi_thread_embeddingbag],
    as [coalesce_multi_thread_openmp]. *)
Definition coalesce_multi_thread_embeddingbag (x : option Tensor) : result Tensor :=
  match x with
  | Some t => coalesce t
  | None => Raise TypeError
  end.

(** The dispatch on [config.coalesce_optimize] used by [clip_and_accumulate]
    (materialized branch) and [do_delayed_noise_update]; an unknown strategy
    is [assert False]. *)
Definition coalesce_by_config (cfg : Config) (x : option Tensor) : result Tensor :=
  if (coalesce_optimize cfg =? "baseline")%string then coalesce_method x
  else if (coalesce_optimize cfg =? "multi_thread_openmp")%string
       then coalesce_multi_thread_openmp x
  else if (coalesce_optimize cfg =? "multi_thread_embeddingbag")%string
       then coalesce_multi_thread_embeddingbag x
  else Raise (AssertionError "").

(** [torch.sparse_coo_tensor(indices, values, (nrows, dim))]: the
    constructor validates its arguments; the new tensor is not coalesced. *)
Definition sparse_coo_tensor (indices : list Z) (values : Mat) (nrows dim : Z)
  : result Tensor :=
  if negb (length indices =? length values)%nat
  then Raise (RuntimeError "indices and values must have same nnz")
  else if negb (forallb (fun row => Z.of_nat (length row) =? dim) values)
  then Raise (RuntimeError "values has incorrect size")
  else if negb (forallb (fun k => (0 <=? k) && (k <? nrows)) indices)
  then Raise (RuntimeError "size is inconsistent with indices")
  else Ok (fresh (Sparse (mkSparse indices values nrows dim false))).

(** The value stored for row [r] in a list of entries (first match). *)
Fixpoint lookup_entry (r : Z) (l : list (Z * Vec)) : option Vec :=
  match l with
  | [] => None
  | (k, v) :: tl => if k =? r then Some v else lookup_entry r tl
  end.

(** The row of a sparse tensor at index [r], read off its first entry for
    [r]; on a coalesced tensor that entry is the only one. *)
Definition sparse_row (r : Z) (s : SparseCOO) : option Vec :=
  lookup_entry r (combine (sp_indices s) (sp_values s)).

(** One step of summing the contributions to row [r]: an entry for [r] is
    added to what has been summed so far, any other entry is passed over. *)
Definition total_step (r : Z) (acc : option Vec) (kv : Z * Vec) : option Vec :=
  if fst kv =? r
  then Some (match acc with None => snd kv | Some a => vadd a (snd kv) end)
  else acc.

(** Sum of all contributions to row [r] in a list of entries, in the order
    they occur; [None] when the row has no entry. *)
Definition row_total (r : Z) (l : list (Z * Vec)) : option Vec :=
  fold_left (total_step r) l None.

(** [m[k] += v] for a dense matrix. *)
Fixpoint row_add (m : Mat) (k : nat) (v : Vec) : Mat :=
  match m, k with
  | [], _ => []
  | row :: tl, O => vadd row v :: tl
  | row :: tl, S j => row :: row_add tl j v
  end.

(** [dense.add_(sparse)]: every entry is added to its row. *)
Definition dense_add_sparse (m : Mat) (s : SparseCOO) : Mat :=
  fold_left (fun acc kv => row_add acc (Z.to_nat (fst kv)) (snd kv))
            (combine (sp_indices s) (sp_values s)) m.

(** [m[idx] = rows] for a dense matrix and a list of row positions. *)
Fixpoint row_set (m : Mat) (k : nat) (v : Vec) : Mat :=
  match m, k with
  | [], _ => []
  | _ :: tl, O => v :: tl
  | row :: tl, S j => row :: row_set tl j v
  end.

(** [a + b] on tensor data, as the in-place [+=] and the gradient
    accumulation of the backward pass compute it. *)
Definition tensor_add (a b : TensorData) : result TensorData :=
  match a, b with
  | Dense x, Dense y =>
      if same_shape x y then Ok (Dense (madd x y))
      else Raise (RuntimeError "The size of tensor a must match the size of tensor b")
  | Dense x, Sparse s => Ok (Dense (dense_add_sparse x s))
  | Sparse s, Sparse s' =>
      if (sp_nrows s =? sp_nrows s') && (sp_dim s =? sp_dim s')
      then Ok (Sparse (mkSparse (sp_indices s ++ sp_indices s')
                                (sp_values s ++ sp_values s')
                                (sp_nrows s) (sp_dim s) false))
      else Raise (RuntimeError "The size of tensor a must match the size of tensor b")
  | Sparse _, Dense _ => Raise (RuntimeError "add(sparse, dense) is not supported")
  end.

(** ** The Gaussian source

    [generator] is a stream of independent standard normal variates; a draw
    with standard deviation [std] scales the next variate and advances the
    stream. *)

Definition advance (n : nat) (g : nat -> R) : nat -> R := fun j => g (j + n)%nat.

Definition normal_row (std : R) (cols : nat) (g : nat -> R) : Vec :=
  map (fun j => (std * g j)%R) (seq 0 cols).

(** [torch.normal(mean=0, std=std, size=(rows, cols))] *)
Fixpoint torch_normal (std : R) (rows cols : nat) (g : nat -> R)
  : Mat * (nat -> R) :=
  match rows with
  | O => ([], g)
  | S n =>
      let '(rest, g') := torch_normal std n cols (advance cols g) in
      (normal_row std cols g :: rest, g')
  end.

(** Modelled from the spec: [custom_api_cpp.normal_multi_thread(std, rows,
    cols, nthreads)] is a C++ kernel whose source is absent; it is the
    "host-memory multi-threaded fast path" of the noise generator and
    produces "i.i.d. zero-mean Gaussian noise with given std", as
    [torch.normal] does. *)
Definition normal_multi_thread (std : R) (rows cols : nat) (g : nat -> R)
  : Mat * (nat -> R) :=
  torch_normal std rows cols g.

(** One Gaussian row per entry of [stds], each with its own deviation. *)
Fixpoint normal_rows (stds : Vec) (dim : nat) (g : nat -> R) : Mat * (nat -> R) :=
  match stds with
  | [] => ([], g)
  | s :: tl =>
      let '(rest, g') := normal_rows tl dim (advance dim g) in
      (normal_row s dim g :: rest, g')
  end.

(** Modelled from the spec: [custom_api_cpp.normal_multi_thread_with_extra
    (std, dim, extra, nthreads)] is a C++ kernel whose source is absent.  It
    "draw[s] one Gaussian vector of dimension embed_dim per row in
    lS_i_nxt[table], with the row's own std", followed by [extra] rows that
    the caller overwrites with the values of the real gradient; those rows
    are zero here. *)
Definition normal_multi_thread_with_extra
  (stds : Vec) (dim : nat) (extra : nat) (g : nat -> R) : Mat * (nat -> R) :=
  let '(rows, g') := normal_rows stds dim g in
  (rows ++ zeros extra dim, g').

(** ** Processed flags: [_mark_as_processed], [_check_processed_flag] *)

Definition gradients_not_cleared : string :=
  "Gradients haven't been cleared since the last optimizer step. In order to obtain privacy guarantees you must call optimizer.zero_grad()on each step".

(** [_check_processed_flag_tensor(x)]: [hasattr(x, "_processed")] raises. *)
Definition _check_processed_flag_tensor (processed : bool) : result unit :=
  if processed then Raise (ValueError gradients_not_cleared) else Ok tt.

(** [_check_processed_flag(obj)] on [p.grad_sample]: a tensor is checked, a
    list is checked element by element, anything else passes. *)
Definition _check_processed_flag (obj : Attr GradSample) : result unit :=
  match obj with
  | Has (GS_Tensor g) => _check_processed_flag_tensor (gs_processed g)
  | Has (GS_List l) =>
      for_each l (fun x _ => _check_processed_flag_tensor (gs_processed x)) tt
  | _ => Ok tt
  end.

(** [_check_processed_flag(obj)] on [p.summed_grad] (a tensor or [None]). *)
Definition _check_processed_flag_grad (obj : option Tensor) : result unit :=
  match obj with
  | Some t => _check_processed_flag_tensor (t_processed t)
  | None => Ok tt
  end.

Definition mark_gs (g : GSTensor) : GSTensor := mkGS (gs_samples g) true.

(** [_mark_as_processed(obj)] on [p.grad_sample]. *)
Definition _mark_as_processed (obj : Attr GradSample) : Attr GradSample :=
  match obj with
  | Has (GS_Tensor g) => Has (GS_Tensor (mark_gs g))
  | Has (GS_List l) => Has (GS_List (map mark_gs l))
  | other => other
  end.

(** [_mark_as_processed(obj)] on [p.summed_grad]. *)
Definition _mark_as_processed_grad (obj : option Tensor) : option Tensor :=
  match obj with
  | Some t => Some (mkTensor (t_data t) true)
  | None => None
  end.

(** ** [_generate_noise]

    The result records, next to the noise tensor and the advanced generator,
    which statement of [_generate_noise] produced it. *)

Inductive NoiseKind : Type :=
| NoiseZeros             (* torch.zeros(reference.shape) *)
| NoiseOnes              (* torch.ones(reference.shape) *)
| NoiseNormalMultiThread (* custom_api_cpp.normal_multi_thread *)
| NoiseTorchNormal.      (* torch.normal *)

Definition _generate_noise (cfg : Config) (std : R)
  (rows cols : nat) (ref_device : Device) (g : nat -> R) (secure : bool)
  : result (NoiseKind * Mat * (nat -> R)) :=
  if Req_dec_T std 0 then Raise (AssertionError "")
  else if secure then Raise (AssertionError "Do not consider secure_mode")
  else if is_debugging cfg
          && str_in (debugging_type cfg) ["without_noise"; "without_noise_clipping"]
  then Ok (NoiseZeros, zeros rows cols, g)
  else if is_debugging cfg && (debugging_type cfg =? "one_as_noise")%string
  then Ok (NoiseOnes, ones rows cols, g)
  else if is_debugging cfg then Raise (AssertionError "")
  else if Device_eqb ref_device Cpu
          && negb (noise_base_optimize cfg =? "baseline")%string
  then if (noise_base_optimize cfg =? "multi_thread")%string
       then let '(m, g') := normal_multi_thread std rows cols g in
            Ok (NoiseNormalMultiThread, m, g')
       else Raise (AssertionError "")
  else let '(m, g') := torch_normal std rows cols g in
       Ok (NoiseTorchNormal, m, g').

(** ** Per-sample gradients *)

(** [torch.cat(l, dim=0)] of per-sample gradient tensors. *)
Definition torch_cat (l : list GSTensor) : result (list Mat) :=
  match l with
  | [] => Raise (RuntimeError "torch.cat(): expected a non-empty list of Tensors")
  | _ => Ok (concat (map gs_samples l))
  end.

Definition _get_flat_grad_sample (p : Param) : result (list Mat) :=
  match grad_sample p with
  | Absent =>
      Raise (ValueError "Per sample gradient not found. Are you using GradSampleModule?")
  | PyNone =>
      Raise (ValueError "Per sample gradient is not initialized. Not updated in backward pass?")
  | Has (GS_Tensor g) => Ok (gs_samples g)
  | Has (GS_List l) => torch_cat l
  | Has GS_Other => Raise (ValueError "Unexpected grad_sample type")
  end.

(** [for x in l: ret.append(f(x))] *)
Fixpoint map_result {A B : Type} (f : A -> result B) (l : list A) : result (list B) :=
  match l with
  | [] => Ok []
  | x :: tl => y <- f x ;; ys <- map_result f tl ;; Ok (y :: ys)
  end.

(** The property [grad_samples]. *)
Definition grad_samples (o : DPOptimizer) : result (list (list Mat)) :=
  map_result _get_flat_grad_sample (params o).

(** ** Skipped steps *)

Definition signal_skip_step (do_skip : bool) (o : DPOptimizer) : DPOptimizer :=
  set_step_skip_queue (step_skip_queue o ++ [do_skip]) o.

Definition _check_skip_next_step (pop_next : bool) (o : DPOptimizer)
  : bool * DPOptimizer :=
  match step_skip_queue o with
  | b :: tl => if pop_next then (b, set_step_skip_queue tl o) else (b, o)
  | [] => (false, o)
  end.

(** ** [accumulated_iterations]

    The property returns on its first statement,
    [return 1 # No exceptions in this research]. *)
Definition accumulated_iterations (o : DPOptimizer) : result Z := Ok 1.

(** The statements that follow the [return 1] in the source of
    [accumulated_iterations].  They are never executed; the definition
    records what they would compute. *)
Definition accumulated_iterations_unreachable (o : DPOptimizer) : result Z :=
  vals <- map_result
            (fun p =>
               match grad_sample p with
               | Absent =>
                   Raise (ValueError "Per sample gradient not found. Are you using GradSampleModule?")
               | Has (GS_Tensor _) => Ok 1
               | Has (GS_List l) => Ok (Z.of_nat (length l))
               | _ => Raise (ValueError "Unexpected grad_sample type")
               end)
            (params o) ;;
  match vals with
  | [] => Raise IndexError
  | v :: tl =>
      if forallb (Z.eqb v) tl then Ok v
      else Raise (ValueError "Number of accumulated steps is inconsistent across parameters")
  end.

(** ** Clipping *)

(** [torch.stack(per_param_norms, dim=1).norm(2, dim=1)]: entry [i] is the
    norm, over the parameters, of the norms of sample [i]. *)
Definition per_sample_norms_of (per_param_norms : list Vec) : result Vec :=
  match per_param_norms with
  | [] => Raise (RuntimeError "stack expects a non-empty TensorList")
  | c :: cs =>
      if forallb (fun c' => (length c' =? length c)%nat) cs
      then Ok (map (fun i => norm2 (map (fun col => nth i col 0%R) per_param_norms))
                   (seq 0 (length c)))
      else Raise (RuntimeError "stack expects each tensor to be equal size")
  end.

(** [(self.max_grad_norm / (per_sample_norms + 1e-6)).clamp(max=1.0)],
    followed by the override
    [if config.is_debugging and config.debugging_type == "without_noise_clipping":
       per_sample_clip_factor = torch.ones_like(per_sample_clip_factor)]. *)
Definition per_sample_clip_factor (cfg : Config) (mgn : R) (per_sample_norms : Vec)
  : Vec :=
  let factor := map (fun n => Rmin (mgn / (n + eps)) 1) per_sample_norms in
  if is_debugging cfg && (debugging_type cfg =? "without_noise_clipping")%string
  then map (fun _ => 1%R) factor
  else factor.

(** [contract("i,i...", factor, grad_sample)]: the sum over the samples of
    the gradients weighted by their factors. *)
Definition contract (factor : Vec) (gs : list Mat) : result Tensor :=
  if negb (length factor =? length gs)%nat
  then Raise (RuntimeError "Size of label 'i' does not match")
  else
    match map (fun fm => mscale (fst fm) (snd fm)) (combine factor gs) with
    | [] => Ok (fresh (Dense []))
    | m :: ms => Ok (fresh (Dense (fold_left madd ms m)))
    end.

(** [torch.einsum('i, ijk -> ijk', factor, grad_sample)] *)
Definition einsum_scale (factor : Vec) (gs : list Mat) : result (list Mat) :=
  if negb (length factor =? length gs)%nat
  then Raise (RuntimeError "Size of label 'i' does not match")
  else Ok (map (fun fm => mscale (fst fm) (snd fm)) (combine factor gs)).

(** [[g.reshape(len(g), -1).norm(2, dim=-1) for g in self.grad_samples]] *)
Definition per_param_norms_of (gss : list (list Mat)) : list Vec :=
  map (fun g => map (fun sample => norm2 (flatten sample)) g) gss.

(** Body of the loop [for p in self.params] of the materialized branch
    ([MODE_DPSGD_B]) of [clip_and_accumulate]. *)
Definition clip_and_reduce_param (cfg : Config) (factor : Vec) (p : Param)
  : result Param :=
  _check_processed_flag (grad_sample p) ;;;
  gs <- _get_flat_grad_sample p ;;
  g <- match inputs p with
       | None => contract factor gs
       | Some index =>
           scaled <- einsum_scale factor gs ;;
           t <- sparse_coo_tensor index (concat scaled) (p_rows p) (p_cols p) ;;
           coalesce_by_config cfg (Some t)
       end ;;
  match summed_grad p with
  | Some sg =>
      tensor_add (t_data sg) (t_data g) ;;;
      Raise (AssertionError "Exclude RNNs")
  | None =>
      Ok (set_grad_sample (_mark_as_processed (grad_sample p))
                          (set_summed_grad (Some g) p))
  end.

(** The branch [config.dpsgd_mode == MODE_DPSGD_B]. *)
Definition clip_and_accumulate_materialized
  (cfg : Config) (losses : option Vec) (o : DPOptimizer) : result DPOptimizer :=
  py_assert (match losses with None => true | Some _ => false end) "" ;;;
  gss <- grad_samples o ;;
  g0 <- py_index gss 0 ;;
  norms <- (if (length g0 =? 0)%nat
            then Raise (AssertionError "Exclude this exception")
            else per_sample_norms_of (per_param_norms_of gss)) ;;
  let factor := per_sample_clip_factor cfg (max_grad_norm o) norms in
  ps <- map_result (clip_and_reduce_param cfg factor) (params o) ;;
  Ok (set_params ps o).

(** The loop that gathers [per_param_norms] in the re-backward branch. *)
Fixpoint collect_per_param_norms (cfg : Config) (ps : list Param)
  : result (list Vec) :=
  match ps with
  | [] => Ok []
  | p :: tl =>
      here <- (if negb (Device_eqb (p_device p) (device cfg))
               then py_assert (length (grad_sample_norms p) =? 1)%nat "" ;;;
                    n0 <- py_index (grad_sample_norms p) 0 ;;
                    Ok [n0]
               else Ok (grad_sample_norms p)) ;;
      rest <- collect_per_param_norms cfg tl ;;
      Ok (here ++ rest)
  end.

(** [loss.backward()]: the backward pass is the automatic-differentiation
    collaborator.  It is given by the gradient it computes for each
    parameter ([None]: the parameter receives none); the gradient is
    accumulated into [p.grad], in place when [p.grad] is already set. *)
Definition accumulate_grad (p : Param) (g : option TensorData) : result Param :=
  match g with
  | None => Ok p
  | Some d =>
      match grad p with
      | None => Ok (set_grad (Some (fresh d)) p)
      | Some old =>
          d' <- tensor_add (t_data old) d ;;
          Ok (set_grad (Some (mkTensor d' (t_processed old))) p)
      end
  end.

Fixpoint loss_backward (ps : list Param) (gs : list (option TensorData))
  : result (list Param) :=
  match ps with
  | [] => Ok []
  | p :: tl =>
      p' <- accumulate_grad p (hd None gs) ;;
      tl' <- loss_backward tl (List.tl gs) ;;
      Ok (p' :: tl')
  end.

(** [for param in self.module.emb_l.parameters(): param.grad = coalesce(param.grad)]
    over the first [n_emb] parameters. *)
Fixpoint coalesce_emb_grads (f : option Tensor -> result Tensor) (n_emb : nat)
  (ps : list Param) : result (list Param) :=
  match n_emb, ps with
  | S n, p :: tl =>
      t' <- f (grad p) ;;
      tl' <- coalesce_emb_grads f n tl ;;
      Ok (set_grad (Some t') p :: tl')
  | _, _ => Ok ps
  end.

(** The branch [config.dpsgd_mode in [MODE_DPSGD_R, MODE_DPSGD_F,
    MODE_LAZYDP, MODE_EANA]].  [backward factor] is what the second
    backward pass of the loss weighted by [factor] computes. *)
Definition clip_and_accumulate_rebackward
  (cfg : Config) (backward : Vec -> list (option TensorData))
  (losses : option Vec) (o : DPOptimizer) : result DPOptimizer :=
  match losses with
  | None => Raise (AssertionError "")
  | Some ls =>
      per_param_norms <- collect_per_param_norms cfg (params o) ;;
      norms <- per_sample_norms_of per_param_norms ;;
      let factor := per_sample_clip_factor cfg (max_grad_norm o) norms in
      (* loss = (losses.reshape(1, -1) * per_sample_clip_factor).sum() *)
      (if (length ls =? length factor)%nat || (length ls =? 1)%nat
          || (length factor =? 1)%nat
       then Ok tt
       else Raise (RuntimeError "The size of tensor a must match the size of tensor b")) ;;;
      ps1 <- loss_backward (params o) (backward factor) ;;
      ps2 <- (if negb (Mode_eqb (dpsgd_mode cfg) MODE_LAZYDP)
              then
                if (coalesce_optimize cfg =? "baseline")%string
                then coalesce_emb_grads coalesce_method (length (emb_l o)) ps1
                else if (coalesce_optimize cfg =? "multi_thread_openmp")%string
                then coalesce_emb_grads coalesce_multi_thread_openmp
                                        (length (emb_l o)) ps1
                else if (coalesce_optimize cfg =? "multi_thread_embeddingbag")%string
                then coalesce_emb_grads coalesce_multi_thread_embeddingbag
                                        (length (emb_l o)) ps1
                else Ok ps1
              else Ok ps1) ;;
      Ok (set_params (map (fun p => set_grad None (set_summed_grad (grad p) p)) ps2) o)
  end.

Definition clip_and_accumulate
  (cfg : Config) (backward : Vec -> list (option TensorData))
  (losses : option Vec) (o : DPOptimizer) : result DPOptimizer :=
  match dpsgd_mode cfg with
  | MODE_DPSGD_B => clip_and_accumulate_materialized cfg losses o
  | MODE_DPSGD_R | MODE_DPSGD_F | MODE_LAZYDP | MODE_EANA =>
      clip_and_accumulate_rebackward cfg backward losses o
  | MODE_SGD => Raise (AssertionError "Invalid mode of DP-SGD")
  end.

(** ** [add_noise] *)

Definition tensor_shape (t : Tensor) : nat * nat :=
  match t_data t with
  | Dense m => mat_shape m
  | Sparse s => (Z.to_nat (sp_nrows s), Z.to_nat (sp_dim s))
  end.

(** [noise[indices] += values]: every listed row of [noise] is replaced by
    its original content plus the value row. *)
Definition index_add_assign (noise : Mat) (s : SparseCOO) : Mat :=
  fold_left
    (fun acc kv =>
       row_set acc (Z.to_nat (fst kv))
               (vadd (nth (Z.to_nat (fst kv)) noise []) (snd kv)))
    (combine (sp_indices s) (sp_values s)) noise.

(** [t.values()] and [t.indices()] need a coalesced sparse tensor. *)
Definition coalesced_data (t : Tensor) : result SparseCOO :=
  match t_data t with
  | Sparse s =>
      if sp_coalesced s then Ok s
      else Raise (RuntimeError "Cannot get values on an uncoalesced tensor, please call .coalesce() first")
  | Dense _ => Raise (RuntimeError "values expected sparse tensor layout")
  end.

(** Body of the loop [for p in self.params] of [add_noise]; the generator
    is threaded through.  Where the source binds [p.grad = p.summed_grad]
    (one object under two names) and then marks [p.summed_grad], both fields
    hold the marked tensor. *)
Definition add_noise_param (cfg : Config) (o : DPOptimizer)
  (p : Param) (g : nat -> R) : result (Param * (nat -> R)) :=
  _check_processed_flag_grad (summed_grad p) ;;;
  let std := (noise_multiplier o * max_grad_norm o)%R in
  let mode := dpsgd_mode cfg in
  if Device_eqb (p_device p) Cpu
     && (Mode_eqb mode MODE_LAZYDP || Mode_eqb mode MODE_EANA)
  then
    if Mode_eqb mode MODE_EANA then
      match summed_grad p with
      | None => Raise AttributeError
      | Some sg =>
          s <- coalesced_data sg ;;
          r <- _generate_noise cfg std (length (sp_values s)) (Z.to_nat (sp_dim s))
                               Cpu g (secure_mode o) ;;
          let '(_, noise, g') := r in
          let s' := mkSparse (sp_indices s) (madd (sp_values s) noise)
                             (sp_nrows s) (sp_dim s) (sp_coalesced s) in
          let sg' := mkTensor (Sparse s') true in
          Ok (set_grad (Some sg') (set_summed_grad (Some sg') p), g')
      end
    else
      let sg' := _mark_as_processed_grad (summed_grad p) in
      Ok (set_grad sg' (set_summed_grad sg' p), g)
  else
    match summed_grad p with
    | None =>
        _generate_noise cfg std 0 0 (p_device p) g (secure_mode o) ;;;
        Raise AttributeError
    | Some sg =>
        let '(rows, cols) := tensor_shape sg in
        r <- _generate_noise cfg std rows cols (p_device p) g (secure_mode o) ;;
        let '(_, noise, g') := r in
        new_grad <-
          (if Device_eqb (p_device p) Cpu
              && (Mode_eqb mode MODE_DPSGD_B || Mode_eqb mode MODE_DPSGD_R
                  || Mode_eqb mode MODE_DPSGD_F)
           then s <- coalesced_data sg ;;
                Ok (fresh (Dense (index_add_assign noise s)))
           else d <- tensor_add (Dense noise) (t_data sg) ;;
                Ok (fresh d)) ;;
        Ok (set_grad (Some new_grad)
                     (set_summed_grad (_mark_as_processed_grad (Some sg)) p), g')
    end.

Fixpoint add_noise_loop (cfg : Config) (o : DPOptimizer) (ps : list Param)
  (g : nat -> R) : result (list Param * (nat -> R)) :=
  match ps with
  | [] => Ok ([], g)
  | p :: tl =>
      r <- add_noise_param cfg o p g ;;
      r' <- add_noise_loop cfg o tl (snd r) ;;
      Ok (fst r :: fst r', snd r')
  end.

Definition add_noise (cfg : Config) (o : DPOptimizer) : result DPOptimizer :=
  r <- add_noise_loop cfg o (params o) (generator o) ;;
  Ok (set_generator (snd r) (set_params (fst r) o)).

(** ** [scale_grad] *)

Definition tensor_div (t : Tensor) (n : R) : Tensor :=
  match t_data t with
  | Dense m => mkTensor (Dense (map (map (fun x => (x / n)%R)) m)) (t_processed t)
  | Sparse s =>
      mkTensor (Sparse (mkSparse (sp_indices s)
                                 (map (map (fun x => (x / n)%R)) (sp_values s))
                                 (sp_nrows s) (sp_dim s) (sp_coalesced s)))
               (t_processed t)
  end.

(** Equality of tensors is decidable, the reals being a classical field. *)
Definition Tensor_eq_dec (a b : Tensor) : {a = b} + {a <> b}.
Proof.
  assert (HV : forall x y : Vec, {x = y} + {x <> y})
    by (apply list_eq_dec, Req_dec_T).
  assert (HM : forall x y : Mat, {x = y} + {x <> y})
    by (apply list_eq_dec, HV).
  assert (HI : forall x y : list Z, {x = y} + {x <> y})
    by (apply list_eq_dec, Z.eq_dec).
  assert (HS : forall x y : SparseCOO, {x = y} + {x <> y})
    by (decide equality; solve [apply Bool.bool_dec | apply Z.eq_dec
                               | apply HM | apply HI]).
  assert (HD : forall x y : TensorData, {x = y} + {x <> y})
    by (decide equality; solve [apply HM | apply HS]).
  decide equality; solve [apply Bool.bool_dec | apply HD].
Defined.

(** [p.grad is p.summed_grad] for the tensor [t] held by [p.grad].  The two
    attributes name one object only after [add_noise] has executed
    [p.grad = p.summed_grad], and that object is marked [_processed] before
    [add_noise] returns; no other tensor that [p.grad] can hold is ever
    marked ([_mark_as_processed] is applied to [p.grad_sample] and
    [p.summed_grad] only).  So the two fields stand for one object exactly
    when they hold the same tensor and it carries the mark; two fields with
    equal contents and no mark stand for two objects. *)
Definition grad_is_summed_grad (p : Param) (t : Tensor) : bool :=
  match summed_grad p with
  | Some sg =>
      if t_processed t then (if Tensor_eq_dec t sg then true else false)
      else false
  | None => false
  end.

(** [p.grad /= n] divides the tensor in place: where [p.summed_grad] is the
    same object, it is divided as well. *)
Definition scale_grad (o : DPOptimizer) : result DPOptimizer :=
  if (loss_reduction o =? "mean")%string then
    ps <- map_result
            (fun p =>
               match expected_batch_size o with
               | None => Raise TypeError
               | Some b =>
                   k <- accumulated_iterations o ;;
                   match grad p with
                   | None => Raise TypeError
                   | Some t =>
                       let t' := tensor_div t (IZR (b * k)) in
                       Ok (set_grad (Some t')
                             (if grad_is_summed_grad p t
                              then set_summed_grad (Some t') p else p))
                   end
               end)
            (params o) ;;
    Ok (set_params ps o)
  else Ok o.

(** ** [zero_grad] *)

(** [t.zero_()] *)
Definition tensor_zero_ (t : Tensor) : Tensor :=
  match t_data t with
  | Dense m => mkTensor (Dense (map (map (fun _ => 0%R)) m)) (t_processed t)
  | Sparse s =>
      mkTensor (Sparse (mkSparse [] [] (sp_nrows s) (sp_dim s) true)) (t_processed t)
  end.

(** [self.original_optimizer.zero_grad(set_to_none)], the method of
    [torch.optim.Optimizer], on one parameter. *)
Definition original_optimizer_zero_grad (set_to_none : bool) (p : Param) : Param :=
  match grad p with
  | None => p
  | Some t => if set_to_none then set_grad None p
              else set_grad (Some (tensor_zero_ t)) p
  end.

Definition zero_grad (cfg : Config) (set_to_none : bool) (o : DPOptimizer)
  : DPOptimizer :=
  let set_to_none := true in  (* Always set to none *)
  let clear (p : Param) :=
    let p1 := if Mode_eqb (dpsgd_mode cfg) MODE_DPSGD_B
              then set_grad_sample PyNone p else p in
    if negb (is_last_step_skipped o) then set_summed_grad None p1 else p1 in
  set_params
    (map (original_optimizer_zero_grad set_to_none) (map clear (params o))) o.

(** ** The delayed-noise scheduler *)

(** [((cnt_iter - h) ** (1/2)) * noise_multiplier * max_grad_norm] for one
    entry [h] of the history table.  The difference is computed on a
    [torch.int] tensor.  (Where the difference is negative the source
    yields NaN; [sqrt] is 0 there.) *)
Definition delayed_std (nm mgn : R) (cnt h : Z) : R :=
  (sqrt (IZR (wrap32 (cnt - h))) * nm * mgn)%R.

Fixpoint set_emb_to_noise_update_loop (i : nat) (lS : list (list Z))
  (o : DPOptimizer) : result DPOptimizer :=
  match lS with
  | [] => Ok o
  | idx :: tl =>
      table <- py_index (HT o) i ;;
      h <- gather table idx ;;
      stds <- py_setitem (stds_for_delayed_noise o) i
                (map (delayed_std (noise_multiplier o) (max_grad_norm o) (cnt_iter o)) h) ;;
      set_emb_to_noise_update_loop (S i) tl (set_stds stds o)
  end.

Definition set_emb_to_noise_update (o : DPOptimizer) : result DPOptimizer :=
  match lS_i_nxt o with
  | None => Ok o
  | Some lS => set_emb_to_noise_update_loop 0 lS o
  end.

(** [dst[a:b] = src] with [n] the length of the slice: equal lengths, or a
    single element that is broadcast. *)
Definition assign_slice {A : Type} (n : nat) (src : list A) : result (list A) :=
  if (length src =? n)%nat then Ok src
  else match src with
       | [x] => Ok (repeat x n)
       | _ => Raise (RuntimeError "shape mismatch in slice assignment")
       end.

(** [config.cur_batch_size * config.num_gathers_list[i]] *)
Definition batch_gathers (cfg : Config) (i : nat) : result Z :=
  match num_gathers_list cfg with
  | Some l => gathers <- py_index l i ;; Ok (cur_batch_size cfg * gathers)
  | None => Raise TypeError
  end.

(** The same number as the row count of a new tensor. *)
Definition extra_rows (cfg : Config) (i : nat) : result nat :=
  extra <- batch_gathers cfg i ;;
  if extra <? 0
  then Raise (RuntimeError "Trying to create tensor with negative dimension")
  else Ok (Z.to_nat extra).

(** The rows [v] of the delayed noise for one table, followed by the rows
    reserved for the real gradient; [extra] is their number, evaluated in
    the branch that is taken. *)
Definition delayed_noise_rows (cfg : Config) (o : DPOptimizer)
  (std : Vec) (dim : nat) (extra : result nat) : result (Mat * (nat -> R)) :=
  let delays :=
    map (fun s => ((s / noise_multiplier o / max_grad_norm o) ^ 2)%R) std in
  if is_debugging cfg
     && str_in (debugging_type cfg) ["without_noise"; "without_nosie_clipping"]
  then n <- extra ;;
       Ok (map (fun d => map (fun z => (z * d)%R) (repeat 0%R dim)) delays
             ++ zeros n dim, generator o)
  else if is_debugging cfg && (debugging_type cfg =? "one_as_noise")%string
  then n <- extra ;;
       Ok (map (fun d => map (fun z => (z * d)%R) (repeat 1%R dim)) delays
             ++ zeros n dim, generator o)
  else if is_debugging cfg then Raise (AssertionError "")
  else n <- extra ;;
       Ok (normal_multi_thread_with_extra std dim n (generator o)).

(** Body of the loop [for i in range(len(self.module.emb_l))] of
    [do_delayed_noise_update]. *)
Definition delayed_noise_table (cfg : Config) (dim : Z) (i : nat)
  (o : DPOptimizer) : result DPOptimizer :=
  r <- match lS_i_nxt o with
       | Some lS =>
           std <- py_index (stds_for_delayed_noise o) i ;;
           vg <- delayed_noise_rows cfg o std (Z.to_nat dim) (extra_rows cfg i) ;;
           let '(v, g') := vg in
           p <- py_index (params o) i ;;
           sparse_grad <- (match grad p with
                           | Some t =>
                               match t_data t with
                               | Sparse s => Ok s
                               | Dense _ => Raise (RuntimeError "_values expected sparse tensor layout")
                               end
                           | None => Raise AttributeError
                           end) ;;
           let n_rows_noise := length std in
           (* v[n_rows_noise:] = sparse_grad._values() *)
           (if forallb (fun row => Z.of_nat (length row) =? dim) (sp_values sparse_grad)
            then Ok tt
            else Raise (RuntimeError "shape mismatch in slice assignment")) ;;;
           vals <- assign_slice (length v - n_rows_noise) (sp_values sparse_grad) ;;
           let v := firstn n_rows_noise v ++ vals in
           (* every row of v has dim entries, so that the source's
              [assert v.shape[1] == dim] holds by construction *)
           (* new_indices[0][:n_rows_noise] = self.lS_i_nxt[i] *)
           next <- py_index lS i ;;
           head <- assign_slice n_rows_noise next ;;
           (* new_indices[0][n_rows_noise:] = sparse_grad._indices()[0] *)
           tail <- assign_slice (length v - n_rows_noise) (sp_indices sparse_grad) ;;
           noisy_grad <- sparse_coo_tensor (head ++ tail) v (p_rows p) dim ;;
           extra <- batch_gathers cfg i ;;
           py_assert (extra =? Z.of_nat (length (sp_indices sparse_grad))) "" ;;;
           extra <- batch_gathers cfg i ;;
           py_assert (Z.of_nat (length v) =? extra + Z.of_nat n_rows_noise) "" ;;;
           Ok (Some noisy_grad, p, g')
       | None =>
           p <- py_index (params o) i ;;
           Ok (grad p, p, generator o)
       end ;;
  let '(noisy_grad, p, g') := r in
  t <- coalesce_by_config cfg noisy_grad ;;
  ps <- py_setitem (params o) i (set_grad (Some t) p) ;;
  Ok (set_generator g' (set_params ps o)).

Definition do_delayed_noise_update (cfg : Config) (o : DPOptimizer)
  : result DPOptimizer :=
  shape0 <- py_index (emb_l o) 0 ;;
  let dim := snd shape0 in
  for_each (seq 0 (length (emb_l o))) (delayed_noise_table cfg dim) o.

Fixpoint set_HT_loop (i : nat) (lS : list (list Z)) (cnt : Z)
  (ht : list (list Z)) : result (list (list Z)) :=
  match lS with
  | [] => Ok ht
  | idx :: tl =>
      table <- py_index ht i ;;
      table' <- index_put table idx cnt ;;
      ht' <- py_setitem ht i table' ;;
      set_HT_loop (S i) tl cnt ht'
  end.

Definition set_HT_increase_cnt_iter (o : DPOptimizer) : result DPOptimizer :=
  match lS_i_nxt o with
  | None => Raise TypeError
  | Some lS =>
      py_assert (length lS =? length (emb_l o))%nat "" ;;;
      ht <- set_HT_loop 0 lS (cnt_iter o) (HT o) ;;
      Ok (set_cnt_iter (cnt_iter o + 1) (set_HT ht o))
  end.

(** [t.unique()]: the sorted distinct elements. *)
Fixpoint insert_unique (k : Z) (l : list Z) : list Z :=
  match l with
  | [] => [k]
  | x :: tl => if k <? x then k :: l
               else if k =? x then l
               else x :: insert_unique k tl
  end.

Definition unique (l : list Z) : list Z := fold_right insert_unique [] l.

(** Modelled from the spec: [custom_api_cpp.unique_multi_thread] is a C++
    kernel whose source is absent; the "multi-threaded unique-extraction
    strategy" and the baseline "must yield the same set, any order".  The
    order in which the kernel returns the distinct elements is not known:
    it is some rearrangement [kernel_order] of the sorted list, sealed so
    that nothing can be derived about it but that it rearranges. *)
Definition kernel_order : {f : list Z -> list Z | forall l, Permutation l (f l)}.
Proof. exists (fun l => l). intro l. apply Permutation_refl. Qed.

Definition unique_multi_thread (l : list Z) : list Z :=
  proj1_sig kernel_order (unique l).

(** The dispatch on [config.unique_optimize] in the loop of [set_lS_i]; an
    unknown strategy is [assert False]. *)
Definition unique_by_config (cfg : Config) (x : list Z) : result (list Z) :=
  if (unique_optimize cfg =? "baseline")%string then Ok (unique x)
  else if (unique_optimize cfg =? "multi_thread")%string
       then Ok (unique_multi_thread x)
  else Raise (AssertionError "").

Fixpoint set_lS_i_loop (cfg : Config) (i : nat) (l : list (list Z))
  (cur : list (list Z)) : result (list (list Z)) :=
  match l with
  | [] => Ok cur
  | x :: tl =>
      u <- unique_by_config cfg x ;;
      cur' <- py_setitem cur i u ;;
      set_lS_i_loop cfg (S i) tl cur'
  end.

(** [set_lS_i(lS_i_nxt)].  When the stored list is [None], the first
    iteration of the loop evaluates its right-hand side (or reaches
    [assert False]) before the item assignment fails on [None]. *)
Definition set_lS_i (cfg : Config) (l : option (list (list Z))) (o : DPOptimizer)
  : result DPOptimizer :=
  match l with
  | None => Ok (set_lS_i_nxt None o)
  | Some l' =>
      match l', lS_i_nxt o with
      | [], _ => Ok o
      | x :: _, None => unique_by_config cfg x ;;; Raise TypeError
      | _, Some cur =>
          cur' <- set_lS_i_loop cfg 0 l' cur ;;
          Ok (set_lS_i_nxt (Some cur') o)
      end
  end.

(** ** [pre_step] and [step]

    [self.step_hook] is the privacy accountant's callback and is not set.
    The update rule [self.original_optimizer.step()] reads [p.grad] and
    changes the parameter values, which are not part of the state. *)
Definition pre_step (cfg : Config) (backward : Vec -> list (option TensorData))
  (losses : option Vec) (o : DPOptimizer) : result (bool * DPOptimizer) :=
  o1 <- clip_and_accumulate cfg backward losses o ;;
  let '(skip, o2) := _check_skip_next_step true o1 in
  if skip then Ok (false, set_is_last_step_skipped true o2)
  else
    o3 <- add_noise cfg o2 ;;
    o4 <- (if Mode_eqb (dpsgd_mode cfg) MODE_LAZYDP
           then o' <- set_emb_to_noise_update o3 ;; do_delayed_noise_update cfg o'
           else Ok o3) ;;
    o5 <- (if is_debugging cfg then scale_grad o4 else Ok o4) ;;
    Ok (true, set_is_last_step_skipped false o5).

Definition step (cfg : Config) (backward : Vec -> list (option TensorData))
  (losses : option Vec) (o : DPOptimizer) : result DPOptimizer :=
  r <- pre_step cfg backward losses o ;;
  Ok (snd r).

(** ** Runs of the optimizer

    [__init__] sets [cnt_iter = 0] and fills every history table with zeros,
    one entry per row of the embedding table. *)
Definition initial_HT (emb : list (Z * Z)) : list (list Z) :=
  map (fun shape => repeat 0 (Z.to_nat (fst shape))) emb.

Definition is_initial (o : DPOptimizer) : Prop :=
  cnt_iter o = 0 /\ HT o = initial_HT (emb_l o).

(** One call of a method of the optimizer that returns normally. *)
Inductive method_call : DPOptimizer -> DPOptimizer -> Prop :=
| call_step cfg backward losses o o' :
    step cfg backward losses o = Ok o' -> method_call o o'
| call_zero_grad cfg set_to_none o :
    method_call o (zero_grad cfg set_to_none o)
| call_signal_skip_step do_skip o :
    method_call o (signal_skip_step do_skip o)
| call_set_lS_i cfg l o o' :
    set_lS_i cfg l o = Ok o' -> method_call o o'
| call_set_HT_increase_cnt_iter o o' :
    set_HT_increase_cnt_iter o = Ok o' -> method_call o o'
| call_backward o ps :
    (* the forward and backward passes of the training loop attach fresh
       per-sample gradients, norms and gradients to the parameters *)
    method_call o (set_params ps o).

Inductive run : DPOptimizer -> DPOptimizer -> Prop :=
| run_refl o : run o o
| run_call o1 o2 o3 : run o1 o2 -> method_call o2 o3 -> run o1 o3.

Definition reachable (o : DPOptimizer) : Prop :=
  exists o0, is_initial o0 /\ run o0 o.

(** Pointwise order on history tables of the same shape. *)
Definition HT_le (a b : list (list Z)) : Prop := Forall2 (Forall2 Z.le) a b.

(** Every row id listed for the next iteration is a row number, not a
    negative (wrapping) index. *)
Definition row_ids (lS : list (list Z)) : Prop :=
  Forall (Forall (fun k => 0 <= k)) lS.

(** ** Concrete configurations and optimizer states

    A model with one embedding table of four rows and two columns, kept in
    host memory, trained in LazyDP mode. *)

Definition lazydp_config : Config :=
  mkConfig MODE_LAZYDP Cuda false "without_noise" "baseline" "multi_thread"
           "baseline" 1 (Some [2]).

Definition table_param : Param :=
  mkParam 4 2 Cpu Absent [] None None None.

(** The optimizer as [__init__] leaves it, with rows 1 and 3 announced for
    the next iteration. *)
Definition opt_iter0 : DPOptimizer :=
  mkOpt 2 1 "mean" (Some 1) false [table_param] [(4, 2)] [] false
        0 [[0; 0; 0; 0]] [[]] (Some [[1; 3]]) (fun _ => 1%R).

(** After the first [set_HT_increase_cnt_iter]. *)
Definition opt_iter1 : DPOptimizer :=
  mkOpt 2 1 "mean" (Some 1) false [table_param] [(4, 2)] [] false
        1 [[0; 0; 0; 0]] [[]] (Some [[1; 3]]) (fun _ => 1%R).

(** After the second one. *)
Definition opt_iter2 : DPOptimizer :=
  mkOpt 2 1 "mean" (Some 1) false [table_param] [(4, 2)] [] false
        2 [[0; 1; 0; 1]] [[]] (Some [[1; 3]]) (fun _ => 1%R).

(** Rows 0 and 1 are announced next. *)
Definition opt_iter2_next : DPOptimizer :=
  set_lS_i_nxt (Some [[0; 1]]) opt_iter2.

(** The merge scenario: a table of ten rows; row 7 is due for delayed noise
    with deviation 2 and also carries the real gradient [[1, 1]]. *)
Definition merge_config : Config :=
  mkConfig MODE_LAZYDP Cuda false "without_noise" "baseline" "multi_thread"
           "baseline" 1 (Some [1]).

Definition merge_grad : Tensor :=
  fresh (Sparse (mkSparse [7] [[1%R; 1%R]] 10 2 false)).

Definition merge_param : Param :=
  mkParam 10 2 Cpu Absent [] None (Some merge_grad) (Some merge_grad).

Definition merge_opt : DPOptimizer :=
  mkOpt 2 1 "mean" (Some 1) false [merge_param] [(10, 2)] [] false
        1 [repeat 0 10] [[2%R]] (Some [[7]]) (fun _ => 1%R).

(** No rows announced for the next iteration ([lS_i_nxt] is [None]); the
    raw gradient of the table has two entries for row 3. *)
Definition raw_grad : Tensor :=
  fresh (Sparse (mkSparse [3; 3] [[1%R; 0%R]; [2%R; 0%R]] 4 2 false)).

Definition no_next_param : Param :=
  mkParam 4 2 Cpu Absent [] None (Some raw_grad) (Some raw_grad).

Definition no_next_opt : DPOptimizer :=
  mkOpt 2 1 "mean" (Some 1) false [no_next_param] [(4, 2)] [] false
        1 [[0; 0; 0; 0]] [[]] None (fun _ => 1%R).

(** Two parameters whose [grad_sample] lists hold one and two accumulated
    batches. *)
Definition one_batch : GradSample := GS_List [mkGS [[[1%R]]] false].
Definition two_batches : GradSample :=
  GS_List [mkGS [[[1%R]]] false; mkGS [[[2%R]]] false].

Definition inconsistent_opt : DPOptimizer :=
  mkOpt 1 1 "mean" (Some 1) false
        [mkParam 1 1 Cuda (Has one_batch) [] None None None;
         mkParam 1 1 Cuda (Has two_batches) [] None None None]
        [] [] false 0 [] [] None (fun _ => 1%R).

(** A model with one dense parameter of shape 1 x 2 trained in the
    materialized mode; the batch has two samples, with per-sample gradients
    [[3, 4]] and [[0, 0]]. *)
Definition materialized_config : Config :=
  mkConfig MODE_DPSGD_B Cuda false "without_noise" "baseline" "baseline"
           "baseline" 2 None.

Definition batch_one : GSTensor :=
  mkGS [[[3%R; 4%R]]; [[0%R; 0%R]]] false.

Definition dense_param : Param :=
  mkParam 1 2 Cuda (Has (GS_Tensor batch_one)) [] None None None.

Definition materialized_opt : DPOptimizer :=
  mkOpt 1 1 "sum" None false [dense_param] [] [] false 0 [] [] None
        (fun _ => 1%R).

(** No second backward pass takes place in the materialized mode. *)
Definition no_backward : Vec -> list (option TensorData) := fun _ => [].

(** The same model in the re-backward mode [MODE_DPSGD_R]: the hooks left
    the per-sample norm 5 of the only sample, and the second backward pass
    yields the gradient [[1, 1]]. *)
Definition rebackward_config : Config :=
  mkConfig MODE_DPSGD_R Cuda false "without_noise" "baseline" "baseline"
           "baseline" 1 None.

Definition rebackward_param : Param :=
  mkParam 1 2 Cuda Absent [[5%R]] None None None.

Definition rebackward_opt : DPOptimizer :=
  mkOpt 1 1 "sum" None false [rebackward_param] [] [] false 0 [] [] None
        (fun _ => 1%R).

Definition second_backward : Vec -> list (option TensorData) :=
  fun _ => [Some (Dense [[1%R; 1%R]])].

(** The state of [rebackward_opt] after one [step]: [summed_grad] was
    consumed (it is marked processed) and [grad] holds it with noise added. *)
Definition rebackward_after_step : DPOptimizer :=
  mkOpt 1 1 "sum" None false
        [mkParam 1 2 Cuda Absent [[5%R]] None
                 (Some (mkTensor (Dense [[1%R; 1%R]]) true))
                 (Some (fresh (Dense [[(1 * 1 * 1 + 1)%R; (1 * 1 * 1 + 1)%R]])))]
        [] [] false 0 [] [] None (advance 2 (fun _ => 1%R)).

(** The debugging configuration that switches clipping off. *)
Definition no_clipping_config : Config :=
  mkConfig MODE_DPSGD_B Cuda true "without_noise_clipping" "baseline" "baseline"
           "baseline" 2 None.

(** The post-clip per-sample gradient of one parameter for sample [i]: the
    per-sample gradient weighted by the sample's factor, as [contract] and
    [einsum] weight it. *)
Definition clipped_sample (factor : Vec) (gs : list Mat) (i : nat) : Mat :=
  mscale (nth i factor 0%R) (nth i gs []).

(** Its L2 norm over all parameters, combined as [clip_and_accumulate]
    combines the per-parameter norms. *)
Definition clipped_sample_norm (factor : Vec) (gss : list (list Mat)) (i : nat)
  : R :=
  norm2 (map (fun gs => norm2 (flatten (clipped_sample factor gs i))) gss).



(** ** Predicates of the statements *)

(** Two states with the same iteration counter and history tables. *)
Definition same_history (o o' : DPOptimizer) : Prop :=
  cnt_iter o' = cnt_iter o /\ HT o' = HT o.

(** An entry after a write is the written value or the entry before. *)
Definition written_or_kept (v : Z) (h h' : Z) : Prop := h' = v \/ h' = h.

(** The rows that [lS] lists for table [j], when the loop starts at table [i]. *)
Definition listed (lS : list (list Z)) (i j r : nat) : Prop :=
  exists idx, (i <= j)%nat /\ nth_error lS (j - i) = Some idx /\ In (Z.of_nat r) idx.

(** The invariant of a run: the counter is not negative and no history
    entry is ahead of it. *)
Definition history_bounded (o : DPOptimizer) : Prop :=
  0 <= cnt_iter o /\
  Forall (Forall (fun h => 0 <= h <= cnt_iter o)) (HT o).

(** What an iteration of the loop of [do_delayed_noise_update] leaves
    alone: the schedule of the step, and the parameters of the other
    tables. *)
Definition same_schedule (o o' : DPOptimizer) : Prop :=
  lS_i_nxt o' = lS_i_nxt o /\
  stds_for_delayed_noise o' = stds_for_delayed_noise o /\
  noise_multiplier o' = noise_multiplier o /\
  max_grad_norm o' = max_grad_norm o /\
  emb_l o' = emb_l o.

(** No statement of the re-backward branch raises a [ValueError]. *)
Definition is_value_error (e : exn) : Prop :=
  match e with ValueError _ => True | _ => False end.

(** ** Sequences of calls used in the statements *)

(** [n] successive calls of [_check_skip_next_step()], with the flags they
    return. *)
Fixpoint check_skips (n : nat) (o : DPOptimizer) : list bool * DPOptimizer :=
  match n with
  | O => ([], o)
  | S n' =>
      let '(b, o1) := _check_skip_next_step true o in
      let '(bs, o2) := check_skips n' o1 in
      (b :: bs, o2)
  end.

(** [for b in flags: optimizer.signal_skip_step(b)] *)
Definition signal_skip_steps (flags : list bool) (o : DPOptimizer) : DPOptimizer :=
  fold_left (fun o' b => signal_skip_step b o') flags o.

(** The part of the state that only the constructor and the scheduler
    methods [set_lS_i] and [set_HT_increase_cnt_iter] write. *)
Definition same_settings (o o' : DPOptimizer) : Prop :=
  noise_multiplier o' = noise_multiplier o /\
  max_grad_norm o' = max_grad_norm o /\
  loss_reduction o' = loss_reduction o /\
  expected_batch_size o' = expected_batch_size o /\
  secure_mode o' = secure_mode o /\
  emb_l o' = emb_l o /\
  lS_i_nxt o' = lS_i_nxt o /\
  cnt_iter o' = cnt_iter o /\
  HT o' = HT o.

(** What the gradient pipeline of a step ([clip_and_accumulate],
    [add_noise], the delayed noise, [scale_grad]) leaves alone: the settings,
    the skip queue and flag, and the number of parameters. *)
Definition same_outside_gradients (o o' : DPOptimizer) : Prop :=
  same_settings o o' /\
  step_skip_queue o' = step_skip_queue o /\
  is_last_step_skipped o' = is_last_step_skipped o /\
  length (params o') = length (params o).

(** A host-memory embedding table of four rows whose summed gradient is
    coalesced and touches rows 1 and 3, for the modes that add noise when
    the step is taken. *)
Definition eana_config : Config :=
  mkConfig MODE_EANA Cuda true "one_as_noise" "baseline" "baseline"
           "baseline" 1 (Some [2]).

Definition eager_config : Config :=
  mkConfig MODE_DPSGD_F Cuda true "one_as_noise" "baseline" "baseline"
           "baseline" 1 (Some [2]).

Definition touched_grad : Tensor :=
  fresh (Sparse (mkSparse [1; 3] [[1%R; 1%R]; [2%R; 2%R]] 4 2 true)).

Definition touched_param : Param :=
  mkParam 4 2 Cpu Absent [] None (Some touched_grad) None.

Definition touched_opt : DPOptimizer :=
  mkOpt 2 1 "sum" None false [touched_param] [(4, 2)] [] false
        0 [[0; 0; 0; 0]] [[]] None (fun _ => 1%R).

(** LazyDP in the debugging type that replaces every noise entry by 1. *)
Definition one_as_noise_config : Config :=
  mkConfig MODE_LAZYDP Cuda true "one_as_noise" "baseline" "multi_thread"
           "baseline" 1 (Some [1]).

(** LazyDP in the debugging type that switches noise and clipping off. *)
Definition without_noise_clipping_config : Config :=
  mkConfig MODE_LAZYDP Cuda true "without_noise_clipping" "baseline" "multi_thread"
           "baseline" 1 (Some [1]).

(** The re-backward mode [MODE_DPSGD_R] on a model with one host-memory
    embedding table of four rows: the second backward pass leaves a sparse
    gradient with two entries for row 3. *)
Definition eager_table_param : Param :=
  mkParam 4 2 Cpu Absent [[5%R]] None None None.

Definition eager_table_opt : DPOptimizer :=
  mkOpt 1 1 "sum" None false [eager_table_param] [(4, 2)] [] false
        0 [[0; 0; 0; 0]] [[]] None (fun _ => 1%R).

Definition sparse_backward : Vec -> list (option TensorData) :=
  fun _ => [Some (Sparse (mkSparse [3; 3] [[1%R; 0%R]; [2%R; 0%R]] 4 2 false))].

(** [config.coalesce_optimize] names one of the three coalescing
    strategies that the re-backward branch of [clip_and_accumulate] tests
    for. *)
Definition known_coalesce_strategy (cfg : Config) : bool :=
  str_in (coalesce_optimize cfg)
         ["baseline"; "multi_thread_openmp"; "multi_thread_embeddingbag"].

(** ** The grad sampler of [nn.EmbeddingBag]

    [compute_embeddingbag_gradsampler(layer, inputs, backprops)] of
    [opacus/grad_sample/embedding.py], with [inputs = (index, activation,
    offset)].  [backprops] has one row per sample; the number of gathers is
    read off the first two offsets.  The function returns the per-sample
    gradients [gsm] of [layer.weight] and attaches [inputs] to the weight.
    [repeat] refuses a negative count, and [reshape(B, -1, D)] cannot infer
    the middle extent when [B * D] is 0. *)
Definition set_inputs (v : option (list Z)) (p : Param) : Param :=
  mkParam (p_rows p) (p_cols p) (p_device p) (grad_sample p)
          (grad_sample_norms p) v (summed_grad p) (grad p).

Definition compute_embeddingbag_gradsampler
  (weight : Param) (index offset : list Z) (backprops : Mat)
  : result (list Mat * Param) :=
  o1 <- py_index offset 1 ;;
  o0 <- py_index offset 0 ;;
  let n := o1 - o0 in
  if n <? 0
  then Raise (RuntimeError "Trying to create tensor with negative dimension")
  else if (fst (mat_shape backprops) =? 0)%nat || (snd (mat_shape backprops) =? 0)%nat
  then Raise (RuntimeError "cannot reshape tensor of 0 elements: the unspecified dimension size -1 can be any value and is ambiguous")
  else Ok (map (fun bp => repeat bp (Z.to_nat n)) backprops,
           set_inputs (Some index) weight).

(** A host-memory embedding table in the materialized mode: two samples,
    two gathers each, with the per-sample gradients that the sampler
    produced from the backprops [[1, 0]] and [[0, 2]]. *)
Definition bag_param : Param :=
  mkParam 4 2 Cpu
          (Has (GS_Tensor (mkGS [[[1%R; 0%R]; [1%R; 0%R]]; [[0%R; 2%R]; [0%R; 2%R]]]
                                false)))
          [] (Some [3; 1; 3; 3]) None None.

Definition bag_opt : DPOptimizer :=
  mkOpt 1 1 "sum" None false [bag_param] [(4, 2)] [] false
        0 [[0; 0; 0; 0]] [[]] None (fun _ => 1%R).

(** ** [custom_utils.py]: the latency meter

    [config.profiler] is a [LatencyMeter]; the optimizer brackets its
    phases with [start]/[end] (level 1) and [start_l2]/[end_l2] (level 2).
    [time.time()] is an input of the calls: [now] is the clock reading at
    the call.  [torch.cuda.synchronize()] only waits.  The records, a
    [float32] tensor, hold reals.  The names and paths of the result files
    are used by [save] only and are left out. *)
Module LatencyMeter.

Record t : Type := mk {
  mode : string;
  columns : list string;
  iters : Z;
  cur_iter : nat;
  records : list (list R);         (* columns_num x iters *)
  start_time : option R;
  current_column : option string;
  start_time_l2 : option R;
  current_column_l2 : option string
}.

Definition set_records (v : list (list R)) (m : t) : t :=
  mk (mode m) (columns m) (iters m) (cur_iter m) v (start_time m)
     (current_column m) (start_time_l2 m) (current_column_l2 m).

Definition set_level1 (time : option R) (column : option string) (m : t) : t :=
  mk (mode m) (columns m) (iters m) (cur_iter m) (records m) time column
     (start_time_l2 m) (current_column_l2 m).

Definition set_level2 (time : option R) (column : option string) (m : t) : t :=
  mk (mode m) (columns m) (iters m) (cur_iter m) (records m) (start_time m)
     (current_column m) time column.

Definition is_none {A : Type} (x : option A) : bool :=
  match x with None => true | Some _ => false end.

(** [self.current_column == column] *)
Definition column_is (current : option string) (column : string) : bool :=
  match current with
  | Some c => (c =? column)%string
  | None => false
  end.

(** [self.columns.index(column)]: the first position of [column]. *)
Fixpoint index (column : string) (l : list string) : result nat :=
  match l with
  | [] => Raise (ValueError ("'" ++ column ++ "' is not in list"))
  | c :: tl => if (c =? column)%string then Ok O
               else i <- index column tl ;; Ok (S i)
  end.

Definition base_columns : list string :=
  ["FW_input_to_gpu"; "FW_add_mlp_bias"; "FW_bottom_mlp"; "FW_emb";
   "FW_emb_cpu_to_gpu"; "FW_interact"; "FW_top_mlp"; "FW_loss"; "BW_zero_grad";
   "BW_grad"].

(** [LatencyMeter(mode, result_name, iters, description, result_path)] *)
Definition init (mode_ : string) (iters_ : Z) : result t :=
  py_assert (str_in mode_ ["sgd"; "dpsgd_b"; "dpsgd_r"; "dpsgd_f"; "lazydp"; "eana"])
            "" ;;;
  cols <- (if (mode_ =? "sgd")%string then
             let c := base_columns ++ ["Update_original"; "backward"; "coalesce"] in
             py_assert (length c =? 13)%nat "" ;;; Ok c
           else if (mode_ =? "dpsgd_b")%string then
             let c := base_columns ++
               ["Update_per_sample_clip_factor"; "Update_clip_and_reduce";
                "Update_noise"; "Update_original"; "clip"; "coalesce";
                "grad_to_summedgrad"; "generate_noise_mlp"; "add_noise_mlp";
                "generate_noise_emb"; "add_noise_emb"] in
             py_assert (length c =? 21)%nat "" ;;; Ok c
           else if str_in mode_ ["dpsgd_r"; "dpsgd_f"; "eana"] then
             let c := base_columns ++
               ["clipping_factor"; "loss_clipping"; "2nd_backprop";
                "summedgrad_to_grad"; "Update_noise"; "Update_original";
                "backward"; "coalesce"; "generate_noise_mlp"; "add_noise_mlp";
                "generate_noise_emb"; "add_noise_emb"] in
             py_assert (length c =? 22)%nat "" ;;; Ok c
           else if (mode_ =? "lazydp")%string then
             let c := base_columns ++
               ["set_lS_i"; "clipping_factor"; "loss_clipping"; "2nd_backprop";
                "summedgrad_to_grad"; "Update_noise";
                "Update_set_emb_to_noise_update"; "Update_delayed_noise_update";
                "Update_original"; "set_HT_increase"; "backward";
                "generate_noise_mlp"; "add_noise_mlp"; "bypass_emb";
                "generate_noise_emb"; "add_noise_emb"; "coalesce"] in
             py_assert (length c =? 27)%nat "" ;;; Ok c
           else Raise (AssertionError "")) ;;
  let cols := cols ++ ["test"] in
  if iters_ <? 0
  then Raise (RuntimeError "Trying to create tensor with negative dimension")
  else Ok (mk mode_ cols iters_ 0 (zeros (length cols) (Z.to_nat iters_))
              None None None None).

Definition start (column : string) (now : R) (m : t) : result t :=
  py_assert (is_none (start_time m)) "invalid start-end pair (start)" ;;;
  py_assert (is_none (current_column m)) "invalid start-end pair (start), column" ;;;
  Ok (set_level1 (Some now) (Some column) m).

(** [self.records[self.columns.index(column)]]: the position and the row of
    a column. *)
Definition record_row (column : string) (m : t) : result (nat * list R) :=
  idx <- index column (columns m) ;;
  row <- py_index (records m) idx ;;
  Ok (idx, row).

(** [end(column)]; the elapsed time is computed before the assertions, so
    a missing start time is a [TypeError]. *)
Definition end_ (column : string) (now : R) (m : t) : result t :=
  elapsed <- (match start_time m with
              | Some t0 => Ok (now - t0)%R
              | None => Raise TypeError
              end) ;;
  py_assert (negb (is_none (start_time m))) "invalid start-end pair (end), time" ;;;
  py_assert (column_is (current_column m) column) "invalid start-end pair (end)" ;;;
  ir <- record_row column m ;;
  row' <- py_setitem (snd ir) (cur_iter m) elapsed ;;
  recs <- py_setitem (records m) (fst ir) row' ;;
  Ok (set_level1 None None (set_records recs m)).

Definition start_l2 (column : string) (now : R) (m : t) : result t :=
  py_assert (is_none (start_time_l2 m)) "invalid start-end pair (start)" ;;;
  py_assert (is_none (current_column_l2 m)) "invalid start-end pair (start), column" ;;;
  Ok (set_level2 (Some now) (Some column) m).

Definition end_l2 (column : string) (now : R) (m : t) : result t :=
  elapsed <- (match start_time_l2 m with
              | Some t0 => Ok (now - t0)%R
              | None => Raise TypeError
              end) ;;
  py_assert (negb (is_none (start_time_l2 m))) "invalid start-end pair (end), time" ;;;
  py_assert (column_is (current_column_l2 m) column) "invalid start-end pair (end)" ;;;
  ir <- record_row column m ;;
  old <- py_index (snd ir) (cur_iter m) ;;
  row' <- py_setitem (snd ir) (cur_iter m) (old + elapsed)%R ;;
  recs <- py_setitem (records m) (fst ir) row' ;;
  Ok (set_level2 None None (set_records recs m)).

Definition increase_iter (m : t) : t :=
  mk (mode m) (columns m) (iters m) (S (cur_iter m)) (records m) (start_time m)
     (current_column m) (start_time_l2 m) (current_column_l2 m).

(** [records[columns.index(column)][cur_iter]], the entry the two [end]
    methods write. *)
Definition recorded (column : string) (m : t) : result R :=
  ir <- record_row column m ;;
  py_index (snd ir) (cur_iter m).

End LatencyMeter.

(** The meter that [LatencyMeter("lazydp", ..., iters=3, ...)] builds. *)
Definition lazydp_meter : LatencyMeter.t :=
  Eval vm_compute in
    match LatencyMeter.init "lazydp" 3 with
    | Ok m => m
    | Raise _ => LatencyMeter.mk "" [] 0 0 [] None None None None
    end.

(** A meter whose records have a row for every column and room for the
    current iteration in every row. *)
Definition meter_ready (m : LatencyMeter.t) : Prop :=
  length (LatencyMeter.records m) = length (LatencyMeter.columns m) /\
  Forall (fun row => (LatencyMeter.cur_iter m < length row)%nat)
         (LatencyMeter.records m).

(** The state that [add_noise] leaves from [merge_opt] in LazyDP mode:
    [p.grad] is [p.summed_grad], one marked object under both names. *)
Definition noised_grad : Tensor := mkTensor (t_data merge_grad) true.

Definition noised_param : Param :=
  set_grad (Some noised_grad) (set_summed_grad (Some noised_grad) merge_param).

Definition noised_opt : DPOptimizer := set_params [noised_param] merge_opt.

(** ** The materialized branch when it raises

    An exception does not undo what was assigned before it:
    [p.summed_grad += grad] has changed the tensor in place when
    [assert False, "Exclude RNNs"] raises, and the parameters of the
    iterations before keep what the loop gave them.  The definitions below
    follow the branch statement by statement, as
    [clip_and_accumulate_materialized] does, and give the parameters as the
    branch leaves them, whether it returns or raises. *)

(** The tensor [grad] of one iteration of the loop: the statements before
    the test of [p.summed_grad].  They assign to no attribute. *)
Definition clipped_grad (cfg : Config) (factor : Vec) (p : Param)
  : result Tensor :=
  _check_processed_flag (grad_sample p) ;;;
  gs <- _get_flat_grad_sample p ;;
  match inputs p with
  | None => contract factor gs
  | Some index =>
      scaled <- einsum_scale factor gs ;;
      t <- sparse_coo_tensor index (concat scaled) (p_rows p) (p_cols p) ;;
      coalesce_by_config cfg (Some t)
  end.

(** The tensor of [p.summed_grad] has become [sg'] in place: [p.grad]
    follows where it is the same object. *)
Definition set_summed_grad_in_place (sg' : Tensor) (p : Param) : Param :=
  match grad p with
  | Some t =>
      if grad_is_summed_grad p t
      then set_grad (Some sg') (set_summed_grad (Some sg') p)
      else set_summed_grad (Some sg') p
  | None => set_summed_grad (Some sg') p
  end.

(** The parameter as one iteration of the loop leaves it. *)
Definition clip_and_reduce_param_state (cfg : Config) (factor : Vec) (p : Param)
  : Param :=
  match clipped_grad cfg factor p with
  | Ok g =>
      match summed_grad p with
      | Some sg =>
          (* p.summed_grad += grad; assert False, "Exclude RNNs" *)
          match tensor_add (t_data sg) (t_data g) with
          | Ok d => set_summed_grad_in_place (mkTensor d (t_processed sg)) p
          | Raise _ => p
          end
      | None =>
          set_grad_sample (_mark_as_processed (grad_sample p))
                          (set_summed_grad (Some g) p)
      end
  | Raise _ => p
  end.

(** The parameters as the loop leaves them: it stops at the first
    iteration that raises. *)
Fixpoint clip_and_reduce_loop_state (cfg : Config) (factor : Vec)
  (ps : list Param) : list Param :=
  match ps with
  | [] => []
  | p :: tl =>
      clip_and_reduce_param_state cfg factor p ::
      match clip_and_reduce_param cfg factor p with
      | Ok _ => clip_and_reduce_loop_state cfg factor tl
      | Raise _ => tl
      end
  end.

(** The clip factor of the materialized branch: the statements before the
    loop. *)
Definition materialized_clip_factor (cfg : Config) (losses : option Vec)
  (o : DPOptimizer) : result Vec :=
  py_assert (match losses with None => true | Some _ => false end) "" ;;;
  gss <- grad_samples o ;;
  g0 <- py_index gss 0 ;;
  norms <- (if (length g0 =? 0)%nat
            then Raise (AssertionError "Exclude this exception")
            else per_sample_norms_of (per_param_norms_of gss)) ;;
  Ok (per_sample_clip_factor cfg (max_grad_norm o) norms).

(** The optimizer as the materialized branch leaves it. *)
Definition clip_and_accumulate_materialized_state
  (cfg : Config) (losses : option Vec) (o : DPOptimizer) : DPOptimizer :=
  match materialized_clip_factor cfg losses o with
  | Ok factor => set_params (clip_and_reduce_loop_state cfg factor (params o)) o
  | Raise _ => o
  end.

(** The optimizer before the second of two steps: [zero_grad] has run
    after the first step, [ps] are the parameters with what the next
    forward and backward pass attached to them, and
    [signal_skip_step(do_skip)] was called. *)
Definition before_second_step (cfg : Config) (set_to_none do_skip : bool)
  (ps : list Param) (o1 : DPOptimizer) : DPOptimizer :=
  signal_skip_step do_skip (set_params ps (zero_grad cfg set_to_none o1)).

(** A second backward pass that yields the gradient [[2, 0]]. *)
Definition third_backward : Vec -> list (option TensorData) :=
  fun _ => [Some (Dense [[2%R; 0%R]])].

(* ================================================================== *)
(** * Properties *)

Unset Implicit Arguments.

(** ** The error monad and Python lists *)

Lemma bind_Ok {A B : Type} (c : result A) (k : A -> result B) (b : B) :
  bind c k = Ok b -> exists a, c = Ok a /\ k a = Ok b.
Proof.
  destruct c as [a|e]; simpl; intro H; [exists a; auto | discriminate].
Qed.

(** Split a hypothesis [x <- c ;; k = Ok b] into its two steps. *)
Ltac bind_inv H :=
  let a := fresh "a" in
  let Ha := fresh "E" in
  apply bind_Ok in H; destruct H as [a [Ha H]].

Lemma py_assert_Ok (c : bool) (msg : string) (u : unit) :
  py_assert c msg = Ok u -> c = true.
Proof. destruct c; simpl; congruence. Qed.

Lemma py_index_Ok {A : Type} (l : list A) (i : nat) (a : A) :
  py_index l i = Ok a <-> nth_error l i = Some a.
Proof.
  unfold py_index; destruct (nth_error l i); split; congruence.
Qed.

Lemma py_setitem_length {A : Type} (l : list A) :
  forall i v l', py_setitem l i v = Ok l' -> length l' = length l.
Proof.
  induction l as [|x l IH]; intros [|i] v l' H; simpl in H; try discriminate.
  - inversion H; reflexivity.
  - bind_inv H. inversion H; subst; simpl. f_equal; eauto.
Qed.

Lemma py_setitem_nth {A : Type} (l : list A) :
  forall i v l', py_setitem l i v = Ok l' ->
  forall j, nth_error l' j = if (j =? i)%nat then Some v else nth_error l j.
Proof.
  induction l as [|x l IH]; intros [|i] v l' H; simpl in H; try discriminate.
  - inversion H; subst. intros [|j]; reflexivity.
  - bind_inv H. inversion H; subst. intros [|j]; simpl; [reflexivity|].
    eapply IH; eassumption.
Qed.

Lemma py_setitem_total {A : Type} (l : list A) :
  forall i v, (i < length l)%nat -> exists l', py_setitem l i v = Ok l'.
Proof.
  induction l as [|x l IH]; intros [|i] v Hi; simpl in *; try lia.
  - eexists; reflexivity.
  - destruct (IH i v) as [l' E]; [lia|]. rewrite E; simpl. eexists; reflexivity.
Qed.

(** ** Index tensors *)

Lemma norm_index_row (n : nat) (k : Z) (pos : nat) :
  0 <= k -> norm_index n k = Ok pos -> pos = Z.to_nat k /\ (pos < n)%nat.
Proof.
  unfold norm_index; intros Hk H.
  destruct ((0 <=? k) && (k <? Z.of_nat n)) eqn:E.
  - inversion H; subst. apply andb_true_iff in E as [_ E].
    apply Z.ltb_lt in E. split; [reflexivity | lia].
  - destruct ((- Z.of_nat n <=? k) && (k <? 0)) eqn:E'; [|discriminate].
    apply andb_true_iff in E' as [_ E']. apply Z.ltb_lt in E'. lia.
Qed.

Lemma norm_index_total (n : nat) (k : Z) :
  0 <= k < Z.of_nat n -> norm_index n k = Ok (Z.to_nat k).
Proof.
  intros [H1 H2]. unfold norm_index.
  apply Z.leb_le in H1. apply Z.ltb_lt in H2. now rewrite H1, H2.
Qed.

Lemma gather_nth (t : list Z) :
  forall idx h, gather t idx = Ok h -> Forall (fun k => 0 <= k) idx ->
  length h = length idx /\
  forall j r, nth_error idx j = Some r ->
              exists x, nth_error t (Z.to_nat r) = Some x /\ nth_error h j = Some x.
Proof.
  induction idx as [|k idx IH]; intros h H Hpos; simpl in H.
  - inversion H; subst. split; [reflexivity|]. intros [|j] r; discriminate.
  - bind_inv H. bind_inv H. bind_inv H. inversion H; subst; clear H.
    inversion Hpos as [|? ? Hk Hrest]; subst.
    destruct (IH _ E1 Hrest) as [Hlen Hnth].
    apply norm_index_row in E; [|assumption]. destruct E as [-> _].
    apply py_index_Ok in E0.
    split; [simpl; congruence|].
    intros [|j] r Hr; simpl in Hr.
    + inversion Hr; subst. exists a0. auto.
    + apply (Hnth _ _ Hr).
Qed.

Lemma index_put_loop_spec (idx : list Z) :
  forall t v t', index_put_loop t idx v = Ok t' -> Forall (fun k => 0 <= k) idx ->
  length t' = length t /\
  forall r, nth_error t' r =
            if existsb (Z.eqb (Z.of_nat r)) idx then Some v else nth_error t r.
Proof.
  induction idx as [|k idx IH]; intros t v t' H Hpos; simpl in H.
  - inversion H; subst. split; [reflexivity|]. intro r; reflexivity.
  - bind_inv H. bind_inv H.
    inversion Hpos as [|? ? Hk Hrest]; subst.
    destruct (IH _ _ _ H Hrest) as [Hlen Hnth].
    apply norm_index_row in E; [|assumption]. destruct E as [-> Hlt].
    pose proof (py_setitem_length _ _ _ _ E0) as Hlen0.
    pose proof (py_setitem_nth _ _ _ _ E0) as Hnth0.
    split; [congruence|].
    intro r. rewrite Hnth. simpl.
    destruct (existsb (Z.eqb (Z.of_nat r)) idx) eqn:Ex.
    + now rewrite orb_true_r.
    + rewrite orb_false_r. rewrite Hnth0.
      destruct (Nat.eqb_spec r (Z.to_nat k)) as [->|Hne].
      * rewrite Z2Nat.id by assumption. now rewrite Z.eqb_refl.
      * destruct (Z.eqb_spec (Z.of_nat r) k) as [<-|_]; [|reflexivity].
        rewrite Nat2Z.id in Hne. congruence.
Qed.

Lemma existsb_eqb_In (r : Z) (idx : list Z) :
  existsb (Z.eqb r) idx = true <-> In r idx.
Proof.
  rewrite existsb_exists. split.
  - intros [x [Hin Hx]]. apply Z.eqb_eq in Hx. now subst.
  - intro Hin. exists r. split; [assumption | apply Z.eqb_refl].
Qed.

Lemma index_put_spec (idx : list Z) (t : list Z) (v : Z) (t' : list Z) :
  index_put t idx v = Ok t' -> Forall (fun k => 0 <= k) idx ->
  fits_int32 v = true /\ length t' = length t /\
  forall r h, nth_error t r = Some h ->
    exists h', nth_error t' r = Some h' /\
               (In (Z.of_nat r) idx -> h' = v) /\
               (~ In (Z.of_nat r) idx -> h' = h).
Proof.
  unfold index_put. destruct (fits_int32 v) eqn:Hfit; [|discriminate].
  intros H Hpos. destruct (index_put_loop_spec _ _ _ _ H Hpos) as [Hlen Hnth].
  repeat split; [assumption|].
  intros r h Hr. rewrite Hnth.
  destruct (existsb (Z.eqb (Z.of_nat r)) idx) eqn:Ex.
  - exists v. split; [reflexivity|]. split; [intros _; reflexivity|].
    intro Hn; exfalso; apply Hn, existsb_eqb_In, Ex.
  - exists h. split; [assumption|]. split; [|intros _; reflexivity].
    intro Hin. apply existsb_eqb_In in Hin. congruence.
Qed.

Lemma index_put_total (idx : list Z) :
  forall t v, fits_int32 v = true ->
  Forall (fun k => 0 <= k < Z.of_nat (length t)) idx ->
  exists t', index_put t idx v = Ok t'.
Proof.
  intros t v Hfit. unfold index_put. rewrite Hfit. revert t.
  induction idx as [|k idx IH]; intros t Hall; simpl.
  - eexists; reflexivity.
  - inversion Hall as [|? ? Hk Hrest]; subst.
    rewrite norm_index_total by assumption. simpl.
    destruct (py_setitem_total t (Z.to_nat k) v) as [t1 E1]; [lia|].
    rewrite E1; simpl. apply IH.
    rewrite (py_setitem_length _ _ _ _ E1). assumption.
Qed.

(** ** Frame: only [set_HT_increase_cnt_iter] writes the history *)

Lemma same_history_refl (o : DPOptimizer) : same_history o o.
Proof. split; reflexivity. Qed.

Lemma same_history_trans (a b c : DPOptimizer) :
  same_history a b -> same_history b c -> same_history a c.
Proof. intros [H1 H2] [H3 H4]; split; congruence. Qed.

Ltac binds H := repeat (apply bind_Ok in H; destruct H as [? [? H]]).

Lemma clip_and_accumulate_history cfg backward losses o o' :
  clip_and_accumulate cfg backward losses o = Ok o' -> same_history o o'.
Proof.
  unfold clip_and_accumulate. intro H.
  destruct (dpsgd_mode cfg);
    try discriminate;
    try (unfold clip_and_accumulate_rebackward in H;
         destruct losses; [|discriminate]; binds H;
         inversion H; subst; split; reflexivity).
  unfold clip_and_accumulate_materialized in H. binds H.
  inversion H; subst; split; reflexivity.
Qed.

Lemma add_noise_history cfg o o' :
  add_noise cfg o = Ok o' -> same_history o o'.
Proof.
  unfold add_noise. intro H. binds H. inversion H; subst; split; reflexivity.
Qed.

Lemma set_emb_to_noise_update_loop_history lS :
  forall i o o', set_emb_to_noise_update_loop i lS o = Ok o' -> same_history o o'.
Proof.
  induction lS as [|idx lS IH]; intros i o o' H; simpl in H.
  - inversion H; subst. apply same_history_refl.
  - binds H. apply IH in H. destruct H as [Hc Hh]. split; simpl in *; congruence.
Qed.

Lemma set_emb_to_noise_update_history o o' :
  set_emb_to_noise_update o = Ok o' -> same_history o o'.
Proof.
  unfold set_emb_to_noise_update. destruct (lS_i_nxt o).
  - apply set_emb_to_noise_update_loop_history.
  - intro H; inversion H; subst. apply same_history_refl.
Qed.

Lemma delayed_noise_table_history cfg dim i o o' :
  delayed_noise_table cfg dim i o = Ok o' -> same_history o o'.
Proof.
  unfold delayed_noise_table. intro H.
  apply bind_Ok in H. destruct H as [[[t p] g] [_ H]].
  binds H. inversion H; subst; split; reflexivity.
Qed.

Lemma for_each_history {A : Type} (body : A -> DPOptimizer -> result DPOptimizer) :
  (forall x o o', body x o = Ok o' -> same_history o o') ->
  forall l o o', for_each l body o = Ok o' -> same_history o o'.
Proof.
  intros Hbody. induction l as [|x l IH]; intros o o' H; simpl in H.
  - inversion H; subst. apply same_history_refl.
  - binds H. eapply same_history_trans; [eapply Hbody | eapply IH]; eassumption.
Qed.

Lemma do_delayed_noise_update_history cfg o o' :
  do_delayed_noise_update cfg o = Ok o' -> same_history o o'.
Proof.
  unfold do_delayed_noise_update. intro H. binds H.
  eapply for_each_history; [|eassumption].
  intros; eapply delayed_noise_table_history; eassumption.
Qed.

Lemma scale_grad_history o o' : scale_grad o = Ok o' -> same_history o o'.
Proof.
  unfold scale_grad. destruct (loss_reduction o =? "mean")%string; intro H.
  - binds H. inversion H; subst; split; reflexivity.
  - inversion H; subst. apply same_history_refl.
Qed.

Lemma check_skip_next_step_history b o :
  same_history o (snd (_check_skip_next_step b o)).
Proof.
  unfold _check_skip_next_step.
  destruct (step_skip_queue o); [|destruct b]; split; reflexivity.
Qed.

Lemma pre_step_history cfg backward losses o r :
  pre_step cfg backward losses o = Ok r -> same_history o (snd r).
Proof.
  unfold pre_step. intro H.
  apply bind_Ok in H. destruct H as [o1 [H1 H]].
  apply clip_and_accumulate_history in H1.
  pose proof (check_skip_next_step_history true o1) as H2.
  destruct (_check_skip_next_step true o1) as [skip o2]; simpl in H2.
  eapply same_history_trans; [eassumption|].
  eapply same_history_trans; [eassumption|]. clear H1 H2.
  destruct skip.
  - inversion H; subst; split; reflexivity.
  - apply bind_Ok in H. destruct H as [o3 [H3 H]].
    apply bind_Ok in H. destruct H as [o4 [H4 H]].
    apply bind_Ok in H. destruct H as [o5 [H5 H]].
    inversion H; subst; simpl.
    apply add_noise_history in H3.
    assert (same_history o3 o4) as H34.
    { destruct (Mode_eqb (dpsgd_mode cfg) MODE_LAZYDP).
      - apply bind_Ok in H4. destruct H4 as [o' [Ha Hb]].
        eapply same_history_trans;
          [eapply set_emb_to_noise_update_history
          |eapply do_delayed_noise_update_history]; eassumption.
      - inversion H4; subst. apply same_history_refl. }
    assert (same_history o4 o5) as H45.
    { destruct (is_debugging cfg).
      - apply scale_grad_history; assumption.
      - inversion H5; subst. apply same_history_refl. }
    destruct H3, H34, H45. split; simpl; congruence.
Qed.

Lemma step_history cfg backward losses o o' :
  step cfg backward losses o = Ok o' -> same_history o o'.
Proof.
  unfold step. intro H. apply bind_Ok in H. destruct H as [r [Hr H]].
  inversion H; subst. eapply pre_step_history; eassumption.
Qed.

Lemma set_lS_i_history cfg l o o' :
  set_lS_i cfg l o = Ok o' -> same_history o o'.
Proof.
  unfold set_lS_i. intro H.
  destruct l as [[|x l]|].
  - inversion H; subst. apply same_history_refl.
  - destruct (lS_i_nxt o); [|binds H; discriminate].
    binds H. inversion H; subst; split; reflexivity.
  - inversion H; subst; split; reflexivity.
Qed.

(** ** The history table under [set_HT_increase_cnt_iter] *)

Lemma Forall2_compose {A : Type} (R1 R2 R3 : A -> A -> Prop) :
  (forall x y z, R1 x y -> R2 y z -> R3 x z) ->
  forall a b c, Forall2 R1 a b -> Forall2 R2 b c -> Forall2 R3 a c.
Proof.
  intros Hc a b c H1. revert c.
  induction H1; intros c H2; inversion H2; subst; constructor; eauto.
Qed.

Lemma Forall2_diag {A : Type} (R : A -> A -> Prop) :
  (forall x, R x x) -> forall l, Forall2 R l l.
Proof. intros HR; induction l; constructor; auto. Qed.

Lemma Forall2_nth {A : Type} (R : A -> A -> Prop) (a b : list A) :
  Forall2 R a b ->
  forall i x, nth_error a i = Some x -> exists y, nth_error b i = Some y /\ R x y.
Proof.
  induction 1 as [|x0 y0 a b Hxy _ IH]; intros [|i] x Hx; simpl in *;
    try discriminate.
  - inversion Hx; subst. eauto.
  - eauto.
Qed.

Lemma py_setitem_written_or_kept (t : list Z) :
  forall pos v t', py_setitem t pos v = Ok t' ->
  Forall2 (written_or_kept v) t t'.
Proof.
  induction t as [|x t IH]; intros [|pos] v t' H; simpl in H; try discriminate.
  - inversion H; subst. constructor; [left; reflexivity|].
    apply Forall2_diag. intro; right; reflexivity.
  - bind_inv H. inversion H; subst.
    constructor; [right; reflexivity | eauto].
Qed.

Lemma index_put_loop_written_or_kept (idx : list Z) :
  forall t v t', index_put_loop t idx v = Ok t' ->
  Forall2 (written_or_kept v) t t'.
Proof.
  induction idx as [|k idx IH]; intros t v t' H; simpl in H.
  - inversion H; subst. apply Forall2_diag. intro; right; reflexivity.
  - bind_inv H. bind_inv H.
    eapply Forall2_compose;
      [|eapply py_setitem_written_or_kept; eassumption | eapply IH; eassumption].
    unfold written_or_kept. intros x y z [->| ->] [->| ->]; auto.
Qed.

Lemma index_put_written_or_kept idx t v t' :
  index_put t idx v = Ok t' -> Forall2 (written_or_kept v) t t'.
Proof.
  unfold index_put. destruct (fits_int32 v); [|discriminate].
  apply index_put_loop_written_or_kept.
Qed.

Lemma py_setitem_Forall2 {A : Type} (R : A -> A -> Prop) (l : list A) :
  (forall x, R x x) ->
  forall i x y l', nth_error l i = Some x -> R x y -> py_setitem l i y = Ok l' ->
  Forall2 R l l'.
Proof.
  intros HR. induction l as [|a l IH]; intros [|i] x y l' Hx Hxy H;
    simpl in *; try discriminate.
  - inversion Hx; inversion H; subst. constructor; [assumption|].
    now apply Forall2_diag.
  - bind_inv H. inversion H; subst. constructor; [apply HR | eauto].
Qed.

Lemma set_HT_loop_written_or_kept (lS : list (list Z)) :
  forall i cnt ht ht', set_HT_loop i lS cnt ht = Ok ht' ->
  Forall2 (Forall2 (written_or_kept cnt)) ht ht'.
Proof.
  induction lS as [|idx lS IH]; intros i cnt ht ht' H; simpl in H.
  - inversion H; subst. apply Forall2_diag. intro l. apply Forall2_diag.
    intro; right; reflexivity.
  - bind_inv H. bind_inv H. bind_inv H.
    apply py_index_Ok in E. apply index_put_written_or_kept in E0.
    eapply Forall2_compose; [| |eapply IH; eassumption].
    2:{ eapply py_setitem_Forall2; [|eassumption|eassumption|eassumption].
        intro l. apply Forall2_diag. intro; right; reflexivity. }
    intros x y z Hxy Hyz.
    eapply Forall2_compose; [|eassumption|eassumption].
    unfold written_or_kept. intros p q r [->| ->] [->| ->]; auto.
Qed.

Lemma set_HT_loop_spec (lS : list (list Z)) :
  forall i cnt ht ht', set_HT_loop i lS cnt ht = Ok ht' -> row_ids lS ->
  forall j tbl r h, nth_error ht j = Some tbl -> nth_error tbl r = Some h ->
  exists tbl' h', nth_error ht' j = Some tbl' /\ nth_error tbl' r = Some h' /\
                  (listed lS i j r -> h' = cnt) /\
                  (~ listed lS i j r -> h' = h).
Proof.
  induction lS as [|idx lS IH]; intros i cnt ht ht' H Hids j tbl r h Hj Hr;
    simpl in H.
  - inversion H; subst. exists tbl, h. repeat split; auto.
    intros [idx [_ [Hn _]]]. destruct (j - i)%nat; discriminate.
  - bind_inv H. bind_inv H. bind_inv H.
    inversion Hids as [|? ? Hidx Hrest]; subst.
    apply py_index_Ok in E.
    pose proof (py_setitem_nth _ _ _ _ E1 j) as Hj1.
    destruct (Nat.eqb_spec j i) as [->|Hne].
    + assert (a = tbl) by congruence; subst a.
      destruct (index_put_spec _ _ _ _ E0 Hidx) as [_ [_ Hput]].
      destruct (Hput _ _ Hr) as [h1 [Hh1 [Hin Hout]]].
      destruct (IH _ _ _ _ H Hrest i a0 r h1 Hj1 Hh1) as [tbl' [h' [Ht' [Hr' [_ Hkeep]]]]].
      assert (h' = h1) as ->.
      { apply Hkeep. intros [idx' [Hle _]]. lia. }
      exists tbl', h1. repeat split; auto.
      * intros [idx' [_ [Hn Hi]]]. rewrite Nat.sub_diag in Hn.
        simpl in Hn. inversion Hn; subst. auto.
      * intros Hnot. apply Hout. intro Hi. apply Hnot.
        exists idx. rewrite Nat.sub_diag. repeat split; auto.
    + rewrite Hj in Hj1.
      destruct (IH _ _ _ _ H Hrest j tbl r h Hj1 Hr) as [tbl' [h' [Ht' [Hr' [Hw Hk]]]]].
      exists tbl', h'. repeat split; auto.
      * intros [idx' [Hle [Hn Hi]]]. apply Hw.
        exists idx'. assert (i < j)%nat by lia.
        replace (j - i)%nat with (S (j - S i)) in Hn by lia.
        repeat split; auto; lia.
      * intros Hnot. apply Hk. intros [idx' [Hle [Hn Hi]]]. apply Hnot.
        exists idx'. replace (j - i)%nat with (S (j - S i)) by lia.
        repeat split; auto; lia.
Qed.

Lemma initial_bounded (o : DPOptimizer) : is_initial o -> history_bounded o.
Proof.
  intros [Hc Hh]. split; [lia|]. rewrite Hh, Hc. unfold initial_HT.
  apply Forall_forall. intros t Ht. apply in_map_iff in Ht as [s [<- _]].
  apply Forall_forall. intros h Hin. apply repeat_spec in Hin. lia.
Qed.

Lemma Forall2_Forall_r {A : Type} (R : A -> A -> Prop) (P Q : A -> Prop) :
  (forall x y, P x -> R x y -> Q y) ->
  forall a b, Forall2 R a b -> Forall P a -> Forall Q b.
Proof.
  intros HPQ a b H. induction H; intros Ha; inversion Ha; subst;
    constructor; eauto.
Qed.

Lemma same_history_bounded o o' :
  same_history o o' -> history_bounded o -> history_bounded o'.
Proof. intros [Hc Hh] [H1 H2]. split; rewrite ?Hc, ?Hh; assumption. Qed.

Lemma set_HT_increase_cnt_iter_Ok o o' :
  set_HT_increase_cnt_iter o = Ok o' ->
  exists lS ht, lS_i_nxt o = Some lS /\
                set_HT_loop 0 lS (cnt_iter o) (HT o) = Ok ht /\
                o' = set_cnt_iter (cnt_iter o + 1) (set_HT ht o).
Proof.
  unfold set_HT_increase_cnt_iter. destruct (lS_i_nxt o) as [lS|]; [|discriminate].
  intro H. bind_inv H. bind_inv H. inversion H; subst. eauto.
Qed.

Lemma set_HT_bounded o o' :
  set_HT_increase_cnt_iter o = Ok o' -> history_bounded o ->
  history_bounded o' /\ HT_le (HT o) (HT o').
Proof.
  intros H [Hc Hb]. apply set_HT_increase_cnt_iter_Ok in H.
  destruct H as [lS [ht [_ [Hloop ->]]]]. simpl.
  apply set_HT_loop_written_or_kept in Hloop.
  split; [split; simpl; [lia|]|].
  - eapply Forall2_Forall_r; [|eassumption|eassumption].
    intros t t' Ht Htt'. eapply Forall2_Forall_r; [|eassumption|eassumption].
    simpl. unfold written_or_kept. intros x y Hx [->| ->]; lia.
  - unfold HT_le. clear - Hloop Hb. induction Hloop as [|t t' a b Htt' _ IH].
    + constructor.
    + inversion Hb; subst. constructor; [|auto].
      match goal with Hf : Forall _ t |- _ => revert Hf end.
      clear - Htt'. induction Htt' as [|x y l l' Hxy _ IH']; intro Hf.
      * constructor.
      * inversion Hf; subst. constructor; [|auto].
        destruct Hxy as [->| ->]; lia.
Qed.

Lemma HT_le_refl (a : list (list Z)) : HT_le a a.
Proof. apply Forall2_diag. intro l. apply Forall2_diag. intro; lia. Qed.

Lemma HT_le_trans (a b c : list (list Z)) : HT_le a b -> HT_le b c -> HT_le a c.
Proof.
  unfold HT_le. apply Forall2_compose. intros x y z.
  apply Forall2_compose. intros; lia.
Qed.

Lemma method_call_bounded o o' :
  method_call o o' -> history_bounded o ->
  history_bounded o' /\ HT_le (HT o) (HT o').
Proof.
  intros Hcall Hb.
  assert (same_history o o' -> history_bounded o' /\ HT_le (HT o) (HT o')) as Hsame.
  { intro Hs. split; [eapply same_history_bounded; eassumption|].
    destruct Hs as [_ ->]. apply HT_le_refl. }
  destruct Hcall.
  - apply Hsame. eapply step_history; eassumption.
  - apply Hsame. split; reflexivity.
  - apply Hsame. split; reflexivity.
  - apply Hsame. eapply set_lS_i_history; eassumption.
  - apply set_HT_bounded; assumption.
  - apply Hsame. split; reflexivity.
Qed.

Lemma run_bounded o o' :
  run o o' -> history_bounded o ->
  history_bounded o' /\ HT_le (HT o) (HT o').
Proof.
  induction 1 as [o|o1 o2 o3 _ IH Hcall]; intro Hb.
  - split; [assumption | apply HT_le_refl].
  - destruct (IH Hb) as [Hb2 Hle]. destruct (method_call_bounded _ _ Hcall Hb2).
    split; [assumption | eapply HT_le_trans; eassumption].
Qed.

Lemma reachable_bounded o : reachable o -> history_bounded o.
Proof.
  intros [o0 [Hinit Hrun]]. apply (run_bounded _ _ Hrun). now apply initial_bounded.
Qed.

Lemma set_HT_loop_total (lS : list (list Z)) :
  forall i cnt ht, fits_int32 cnt = true ->
  Forall2 (fun idx tbl => Forall (fun k => 0 <= k < Z.of_nat (length tbl)) idx)
          lS (firstn (length lS) (skipn i ht)) ->
  exists ht', set_HT_loop i lS cnt ht = Ok ht'.
Proof.
  induction lS as [|idx lS IH]; intros i cnt ht Hfit Hin; simpl.
  - eexists; reflexivity.
  - simpl in Hin. destruct (skipn i ht) as [|tbl rest] eqn:Hskip;
      [inversion Hin|].
    inversion Hin as [|? ? ? ? Hidx Hrest]; subst.
    assert (nth_error ht i = Some tbl) as Hnth.
    { rewrite <- (firstn_skipn i ht) at 1.
      assert (length (firstn i ht) = i) as Hl.
      { apply firstn_length_le.
        destruct (Nat.le_gt_cases i (length ht)) as [|Hgt]; [assumption|].
        rewrite skipn_all2 in Hskip by lia. discriminate. }
      rewrite nth_error_app2 by lia. rewrite Hl, Nat.sub_diag, Hskip.
      reflexivity. }
    unfold py_index. rewrite Hnth. simpl.
    destruct (index_put_total idx tbl cnt Hfit Hidx) as [tbl' E]. rewrite E. simpl.
    destruct (py_setitem_total ht i tbl') as [ht1 E1].
    { apply nth_error_Some. congruence. }
    rewrite E1. simpl. apply IH; [assumption|].
    assert (skipn (S i) ht1 = rest) as ->; [|assumption].
    apply nth_error_ext. intro n. rewrite nth_error_skipn.
    rewrite (py_setitem_nth _ _ _ _ E1).
    destruct (Nat.eqb_spec (S i + n) i); [lia|].
    rewrite <- nth_error_skipn.
    replace (skipn (S i) ht) with (skipn 1 (skipn i ht)) by (rewrite skipn_skipn; f_equal; lia).
    rewrite Hskip. reflexivity.
Qed.

Lemma opt_iter1_reachable : reachable opt_iter1.
Proof.
  exists opt_iter0. split; [split; reflexivity|].
  eapply run_call; [apply run_refl|].
  apply call_set_HT_increase_cnt_iter. reflexivity.
Qed.

Lemma opt_iter2_next_reachable : reachable opt_iter2_next.
Proof.
  destruct opt_iter1_reachable as [o0 [Hinit Hrun]].
  exists o0. split; [assumption|].
  eapply run_call; [eapply run_call; [eassumption|]|].
  - apply call_set_HT_increase_cnt_iter with (o' := opt_iter2). reflexivity.
  - apply call_set_lS_i with (cfg := lazydp_config) (l := Some [[1; 0; 1]]).
    reflexivity.
Qed.

(** C2.  History table.  From any state reached by a run that starts at
    initialisation: (1) over any further run of method calls, no entry of
    the history table decreases; (2) one call of [set_HT_increase_cnt_iter]
    writes the current [cnt_iter] to the entry of row [r] of table [i] when
    [r] is listed in [lS_i_nxt[i]] and leaves it as it was when [r] is not
    listed, and the counter afterwards is the old one plus one, so that the
    value written is the counter before the increment; (3) the call returns
    normally when every table has its list of row ids, all within the
    table, and the counter fits [torch.int]. *)
Theorem history_table_update (o : DPOptimizer) :
  reachable o ->
  (forall o', run o o' -> HT_le (HT o) (HT o')) /\
  (forall lS o',
      lS_i_nxt o = Some lS -> row_ids lS ->
      set_HT_increase_cnt_iter o = Ok o' ->
      cnt_iter o' = cnt_iter o + 1 /\
      forall i tbl r h,
        nth_error (HT o) i = Some tbl -> nth_error tbl r = Some h ->
        exists tbl' h',
          nth_error (HT o') i = Some tbl' /\ nth_error tbl' r = Some h' /\
          h <= h' /\
          ((exists idx, nth_error lS i = Some idx /\ In (Z.of_nat r) idx) ->
           h' = cnt_iter o) /\
          (~ (exists idx, nth_error lS i = Some idx /\ In (Z.of_nat r) idx) ->
           h' = h)) /\
  (forall lS,
      lS_i_nxt o = Some lS -> length lS = length (emb_l o) ->
      cnt_iter o <= INT32_MAX ->
      Forall2 (fun idx tbl => Forall (fun k => 0 <= k < Z.of_nat (length tbl)) idx)
              lS (HT o) ->
      exists o', set_HT_increase_cnt_iter o = Ok o').
Proof.
  intro Hreach. pose proof (reachable_bounded o Hreach) as Hb.
  split; [|split].
  - intros o' Hrun. apply (run_bounded _ _ Hrun Hb).
  - intros lS o' HlS Hids Hset.
    destruct (set_HT_bounded _ _ Hset Hb) as [_ Hle].
    apply set_HT_increase_cnt_iter_Ok in Hset.
    destruct Hset as [lS' [ht [HlS' [Hloop ->]]]].
    assert (lS' = lS) by congruence; subst lS'. simpl in *.
    split; [reflexivity|].
    intros i tbl r h Hi Hr.
    destruct (set_HT_loop_spec _ _ _ _ _ Hloop Hids i tbl r h Hi Hr)
      as [tbl' [h' [Ht' [Hr' [Hw Hk]]]]].
    exists tbl', h'. split; [assumption|]. split; [assumption|].
    assert (listed lS 0 i r <->
            exists idx, nth_error lS i = Some idx /\ In (Z.of_nat r) idx) as Hl.
    { unfold listed. rewrite Nat.sub_0_r. split.
      - intros [idx [_ [H1 H2]]]. eauto.
      - intros [idx [H1 H2]]. exists idx. repeat split; auto; lia. }
    split; [|split].
    + destruct (Forall2_nth _ _ _ Hle _ _ Hi) as [tbl2 [Ht2 Hle2]].
      assert (tbl2 = tbl') by congruence; subst tbl2.
      destruct (Forall2_nth _ _ _ Hle2 _ _ Hr) as [h2 [Hh2 Hle3]].
      congruence.
    + intro Hin. apply Hw, Hl, Hin.
    + intro Hout. apply Hk. intro Hin. apply Hout, Hl, Hin.
  - intros lS HlS Hlen Hfit Hrange.
    unfold set_HT_increase_cnt_iter. rewrite HlS.
    rewrite <- Hlen, Nat.eqb_refl. simpl.
    destruct (set_HT_loop_total lS 0 (cnt_iter o) (HT o)) as [ht E].
    + destruct Hb as [Hc _]. unfold fits_int32, INT32_MIN, INT32_MAX in *.
      apply andb_true_iff. split; apply Z.leb_le; lia.
    + simpl. rewrite (Forall2_length Hrange), firstn_all. assumption.
    + rewrite E. simpl. eexists; reflexivity.
Qed.

Lemma history_table_update_witness :
  reachable opt_iter1 /\
  HT_le (HT opt_iter1) (HT opt_iter2) /\
  cnt_iter opt_iter2 = cnt_iter opt_iter1 + 1 /\
  (exists tbl' h',
      nth_error (HT opt_iter2) 0 = Some tbl' /\ nth_error tbl' 3 = Some h' /\
      0 <= h' /\
      ((exists idx, nth_error [[1; 3]] 0 = Some idx /\ In (Z.of_nat 3) idx) ->
       h' = cnt_iter opt_iter1) /\
      (~ (exists idx, nth_error [[1; 3]] 0 = Some idx /\ In (Z.of_nat 3) idx) ->
       h' = 0)) /\
  (exists o', set_HT_increase_cnt_iter opt_iter1 = Ok o').
Proof.
  pose proof opt_iter1_reachable as Hreach.
  destruct (history_table_update opt_iter1 Hreach) as [Hmono [Hcall Htotal]].
  assert (row_ids [[1; 3]]) as Hids.
  { repeat constructor; lia. }
  assert (set_HT_increase_cnt_iter opt_iter1 = Ok opt_iter2) as Hset
      by reflexivity.
  destruct (Hcall [[1; 3]] opt_iter2 eq_refl Hids Hset) as [Hcnt Hrows].
  split; [assumption|]. split; [|split; [assumption|split]].
  - apply Hmono. eapply run_call; [apply run_refl|].
    apply call_set_HT_increase_cnt_iter. assumption.
  - apply (Hrows 0%nat [0; 0; 0; 0] 3%nat 0); reflexivity.
  - apply (Htotal [[1; 3]]); [reflexivity | reflexivity | |].
    + unfold INT32_MAX. simpl. lia.
    + repeat constructor; simpl; lia.
Defined.

(** ** [set_emb_to_noise_update] *)

Lemma wrap32_small (z : Z) : 0 <= z <= INT32_MAX -> wrap32 z = z.
Proof.
  unfold wrap32, INT32_MAX. intros [H1 H2].
  rewrite Z.mod_small; lia.
Qed.

Lemma gather_total (t : list Z) :
  forall idx, Forall (fun k => 0 <= k < Z.of_nat (length t)) idx ->
  exists h, gather t idx = Ok h.
Proof.
  induction idx as [|k idx IH]; intro Hall; simpl.
  - eexists; reflexivity.
  - inversion Hall as [|? ? Hk Hrest]; subst.
    rewrite norm_index_total by assumption. simpl.
    destruct (nth_error t (Z.to_nat k)) as [x|] eqn:E.
    + unfold py_index. rewrite E. simpl.
      destruct (IH Hrest) as [h Eh]. rewrite Eh. simpl. eexists; reflexivity.
    + apply nth_error_None in E. lia.
Qed.

(** The loop writes [stds_for_delayed_noise] only, at the positions it has
    not passed yet. *)
Lemma set_emb_to_noise_update_loop_frame (lS : list (list Z)) :
  forall i o o', set_emb_to_noise_update_loop i lS o = Ok o' ->
  HT o' = HT o /\ cnt_iter o' = cnt_iter o /\
  noise_multiplier o' = noise_multiplier o /\ max_grad_norm o' = max_grad_norm o /\
  lS_i_nxt o' = lS_i_nxt o /\ params o' = params o /\ generator o' = generator o /\
  forall j, (j < i)%nat ->
            nth_error (stds_for_delayed_noise o') j = nth_error (stds_for_delayed_noise o) j.
Proof.
  induction lS as [|idx lS IH]; intros i o o' H; simpl in H.
  - inversion H; subst. repeat split; reflexivity.
  - bind_inv H. bind_inv H. bind_inv H. apply IH in H. simpl in H.
    destruct H as (H1 & H2 & H3 & H4 & H5 & H6 & H7 & H8).
    repeat split; try assumption.
    intros j Hj. rewrite H8 by lia.
    rewrite (py_setitem_nth _ _ _ _ E1).
    destruct (Nat.eqb_spec j i); [lia | reflexivity].
Qed.

Lemma set_emb_to_noise_update_loop_spec (lS : list (list Z)) :
  forall i o o', set_emb_to_noise_update_loop i lS o = Ok o' ->
  forall j idx, nth_error lS j = Some idx ->
  exists tbl hs,
    nth_error (HT o) (i + j) = Some tbl /\ gather tbl idx = Ok hs /\
    nth_error (stds_for_delayed_noise o') (i + j) =
      Some (map (delayed_std (noise_multiplier o) (max_grad_norm o) (cnt_iter o)) hs).
Proof.
  induction lS as [|idx0 lS IH]; intros i o o' H j idx Hj; simpl in H.
  - destruct j; discriminate.
  - bind_inv H. bind_inv H. bind_inv H.
    destruct j as [|j]; simpl in Hj.
    + inversion Hj; subst idx0. rewrite Nat.add_0_r.
      apply py_index_Ok in E. exists a, a0. repeat split; try assumption.
      destruct (set_emb_to_noise_update_loop_frame _ _ _ _ H)
        as (_ & _ & _ & _ & _ & _ & _ & Hlow).
      rewrite Hlow by lia. simpl.
      rewrite (py_setitem_nth _ _ _ _ E1), Nat.eqb_refl. reflexivity.
    + destruct (IH _ _ _ H j idx Hj) as [tbl [hs [Ht [Hg Hs]]]]. simpl in *.
      replace (i + S j)%nat with (S i + j)%nat by lia. eauto.
Qed.

Lemma set_emb_to_noise_update_loop_total (lS : list (list Z)) :
  forall i o,
  Forall2 (fun idx tbl => Forall (fun k => 0 <= k < Z.of_nat (length tbl)) idx)
          lS (firstn (length lS) (skipn i (HT o))) ->
  (i + length lS <= length (stds_for_delayed_noise o))%nat ->
  exists o', set_emb_to_noise_update_loop i lS o = Ok o'.
Proof.
  induction lS as [|idx lS IH]; intros i o Hin Hlen; simpl.
  - eexists; reflexivity.
  - simpl in Hin, Hlen.
    destruct (skipn i (HT o)) as [|tbl rest] eqn:Hskip; [inversion Hin|].
    inversion Hin as [|? ? ? ? Hidx Hrest]; subst.
    assert (nth_error (HT o) i = Some tbl) as Hnth.
    { rewrite <- (Nat.add_0_r i), <- nth_error_skipn, Hskip. reflexivity. }
    unfold py_index. rewrite Hnth. simpl.
    destruct (gather_total tbl idx Hidx) as [h Eh]. rewrite Eh. simpl.
    destruct (py_setitem_total (stds_for_delayed_noise o) i
                (map (delayed_std (noise_multiplier o) (max_grad_norm o) (cnt_iter o)) h))
      as [stds E]; [lia|].
    rewrite E. simpl bind. apply IH.
    + change (HT (set_stds stds o)) with (HT o).
      replace (skipn (S i) (HT o)) with rest; [assumption|].
      replace (skipn (S i) (HT o)) with (skipn 1 (skipn i (HT o)))
        by (rewrite skipn_skipn; f_equal; lia).
      rewrite Hskip. reflexivity.
    + change (stds_for_delayed_noise (set_stds stds o)) with stds.
      rewrite (py_setitem_length _ _ _ _ E). lia.
Qed.

(** C1.  Delayed-noise standard deviation.  In a state reached by a run
    from initialisation whose counter fits [torch.int], with the row ids of
    the next iteration in [lS_i_nxt]: if [set_emb_to_noise_update] returns,
    then for every table [i] and every row [r] at position [k] of
    [lS_i_nxt[i]], entry [k] of [stds_for_delayed_noise[i]] is
    [sqrt(cnt_iter - HT[i][r]) * noise_multiplier * max_grad_norm], and its
    square, the variance of the noise drawn with it, is
    [(noise_multiplier * max_grad_norm)^2 * (cnt_iter - HT[i][r])].
    The call returns when every listed row id lies in its table and
    [stds_for_delayed_noise] has a slot for every table. *)
Theorem delayed_noise_std (o : DPOptimizer) (lS : list (list Z)) :
  reachable o -> cnt_iter o <= INT32_MAX ->
  lS_i_nxt o = Some lS -> row_ids lS ->
  (forall o' i idx k r,
      set_emb_to_noise_update o = Ok o' ->
      nth_error lS i = Some idx -> nth_error idx k = Some r ->
      exists tbl h stds std,
        nth_error (HT o) i = Some tbl /\ nth_error tbl (Z.to_nat r) = Some h /\
        nth_error (stds_for_delayed_noise o') i = Some stds /\
        nth_error stds k = Some std /\
        std = (sqrt (IZR (cnt_iter o - h)) * noise_multiplier o * max_grad_norm o)%R /\
        (std ^ 2 = (noise_multiplier o * max_grad_norm o) ^ 2 * IZR (cnt_iter o - h))%R) /\
  (Forall2 (fun idx tbl => Forall (fun k => 0 <= k < Z.of_nat (length tbl)) idx)
           lS (firstn (length lS) (HT o)) ->
   (length lS <= length (stds_for_delayed_noise o))%nat ->
   exists o', set_emb_to_noise_update o = Ok o').
Proof.
  intros Hreach Hmax HlS Hids. split.
  - intros o' i idx k r Hset Hi Hk.
    unfold set_emb_to_noise_update in Hset. rewrite HlS in Hset.
    destruct (set_emb_to_noise_update_loop_spec _ _ _ _ Hset i idx Hi)
      as [tbl [hs [Ht [Hg Hs]]]]. simpl in Ht, Hs.
    assert (Forall (fun k => 0 <= k) idx) as Hidx.
    { unfold row_ids in Hids. rewrite Forall_forall in Hids.
      apply Hids. eapply nth_error_In; eassumption. }
    destruct (gather_nth _ _ _ Hg Hidx) as [_ Hnth].
    destruct (Hnth _ _ Hk) as [h [Hh Hhs]].
    exists tbl, h. eexists. eexists.
    split; [exact Ht|]. split; [exact Hh|]. split; [exact Hs|].
    split; [rewrite nth_error_map, Hhs; reflexivity|].
    destruct (reachable_bounded o Hreach) as [Hc Hb].
    assert (0 <= h <= cnt_iter o) as Hbound.
    { rewrite Forall_forall in Hb.
      specialize (Hb tbl (nth_error_In _ _ Ht)). rewrite Forall_forall in Hb.
      apply Hb. eapply nth_error_In; eassumption. }
    unfold delayed_std. rewrite wrap32_small by lia.
    split; [reflexivity|].
    assert (0 <= IZR (cnt_iter o - h))%R as Hpos by (apply IZR_le; lia).
    pose proof (sqrt_sqrt _ Hpos) as Hsq.
    set (s := sqrt (IZR (cnt_iter o - h))) in *.
    replace ((s * noise_multiplier o * max_grad_norm o) ^ 2)%R
      with ((noise_multiplier o * max_grad_norm o) ^ 2 * (s * s))%R by ring.
    rewrite Hsq. reflexivity.
  - intros Hrange Hlen. unfold set_emb_to_noise_update. rewrite HlS.
    apply set_emb_to_noise_update_loop_total; simpl; assumption.
Qed.

Lemma delayed_noise_std_witness :
  (exists tbl h stds std,
      nth_error (HT opt_iter2_next) 0 = Some tbl /\
      nth_error tbl (Z.to_nat 1) = Some h /\
      nth_error
        (stds_for_delayed_noise
           (set_stds [map (delayed_std 2 1 2) [0; 1]] opt_iter2_next)) 0 = Some stds /\
      nth_error stds 1 = Some std /\
      std = (sqrt (IZR (2 - h)) * 2 * 1)%R /\
      (std ^ 2 = (2 * 1) ^ 2 * IZR (2 - h))%R) /\
  (exists o', set_emb_to_noise_update opt_iter2_next = Ok o').
Proof.
  assert (row_ids [[0; 1]]) as Hids by (repeat constructor; lia).
  assert (cnt_iter opt_iter2_next <= INT32_MAX) as Hmax
      by (unfold INT32_MAX; simpl; lia).
  destruct (delayed_noise_std opt_iter2_next [[0; 1]]
              opt_iter2_next_reachable Hmax eq_refl Hids) as [Hstd Htotal].
  split.
  - apply (Hstd (set_stds [map (delayed_std 2 1 2) [0; 1]] opt_iter2_next)
                0%nat [0; 1] 1%nat 1); reflexivity.
  - apply Htotal; [repeat constructor; simpl; lia | simpl; lia].
Defined.

(** ** Coalescing *)

Lemma vadd_assoc (a b c : Vec) : vadd (vadd a b) c = vadd a (vadd b c).
Proof.
  revert b c. induction a as [|x a IH]; intros [|y b] [|z c]; simpl;
    try reflexivity.
  rewrite IH. f_equal. ring.
Qed.

Lemma insert_entry_keys (P : Z -> Prop) (k : Z) (v : Vec) (acc : list (Z * Vec)) :
  P k -> Forall P (map fst acc) -> Forall P (map fst (insert_entry k v acc)).
Proof.
  intros Hk. induction acc as [|[k' v'] acc IH]; simpl; intro Hacc.
  - constructor; [assumption | constructor].
  - inversion Hacc; subst.
    destruct (k <? k'); [|destruct (k =? k')]; simpl;
      repeat (constructor; auto).
Qed.

Lemma insert_entry_sorted (k : Z) (v : Vec) (acc : list (Z * Vec)) :
  StronglySorted Z.lt (map fst acc) ->
  StronglySorted Z.lt (map fst (insert_entry k v acc)).
Proof.
  induction acc as [|[k' v'] acc IH]; simpl; intro Hs.
  - constructor; constructor.
  - inversion Hs as [|? ? Hs' Hall]; subst.
    destruct (Z.ltb_spec k k') as [Hlt|Hge]; simpl.
    + constructor; [assumption|]. constructor; [assumption|].
      eapply Forall_impl; [|eassumption]. simpl. intros; lia.
    + destruct (Z.eqb_spec k k') as [->|Hne]; simpl.
      * constructor; assumption.
      * constructor; [auto|]. apply insert_entry_keys; [lia | assumption].
Qed.

Lemma lookup_entry_above (r : Z) (l : list (Z * Vec)) :
  Forall (Z.lt r) (map fst l) -> lookup_entry r l = None.
Proof.
  induction l as [|[k v] l IH]; simpl; intro H; [reflexivity|].
  inversion H; subst. destruct (Z.eqb_spec k r); [lia | auto].
Qed.

Lemma lookup_insert_entry (r k : Z) (v : Vec) (acc : list (Z * Vec)) :
  StronglySorted Z.lt (map fst acc) ->
  lookup_entry r (insert_entry k v acc) =
    if k =? r
    then Some (match lookup_entry r acc with None => v | Some a => vadd a v end)
    else lookup_entry r acc.
Proof.
  induction acc as [|[k' v'] acc IH]; simpl; intro Hs.
  - reflexivity.
  - inversion Hs as [|? ? Hs' Hall]; subst.
    destruct (Z.ltb_spec k k') as [Hlt|Hge]; simpl.
    + destruct (Z.eqb_spec k r) as [->|Hne]; [|reflexivity].
      destruct (Z.eqb_spec k' r); [lia|].
      rewrite lookup_entry_above; [reflexivity|].
      eapply Forall_impl; [|eassumption]. simpl. intros; lia.
    + destruct (Z.eqb_spec k k') as [->|Hne]; simpl.
      * destruct (Z.eqb_spec k' r); reflexivity.
      * destruct (Z.eqb_spec k' r) as [->|Hne'].
        -- destruct (Z.eqb_spec k r); [lia | reflexivity].
        -- auto.
Qed.

Lemma coalesce_from (r : Z) (l : list (Z * Vec)) :
  forall acc, StronglySorted Z.lt (map fst acc) ->
  let res := fold_left (fun a kv => insert_entry (fst kv) (snd kv) a) l acc in
  StronglySorted Z.lt (map fst res) /\
  lookup_entry r res = fold_left (total_step r) l (lookup_entry r acc).
Proof.
  induction l as [|[k v] l IH]; intros acc Hs; simpl.
  - auto.
  - destruct (IH (insert_entry k v acc) (insert_entry_sorted k v acc Hs))
      as [Hs' Hl].
    split; [assumption|]. rewrite Hl, lookup_insert_entry by assumption.
    reflexivity.
Qed.

Lemma coalesce_entries_sorted (l : list (Z * Vec)) :
  StronglySorted Z.lt (map fst (coalesce_entries l)).
Proof. apply (coalesce_from 0 l []). constructor. Qed.

Lemma lookup_coalesce_entries (r : Z) (l : list (Z * Vec)) :
  lookup_entry r (coalesce_entries l) = row_total r l.
Proof. apply (coalesce_from r l []). constructor. Qed.

Lemma combine_fst_snd {A B : Type} (l : list (A * B)) :
  combine (map fst l) (map snd l) = l.
Proof. induction l as [|[a b] l IH]; simpl; congruence. Qed.

(** Invariant after coalescing: the indices are strictly increasing (hence
    unique), and the row at every index is the sum of the contributions the
    uncoalesced tensor had for it. *)
Lemma coalesce_sparse_spec (s : SparseCOO) :
  StronglySorted Z.lt (sp_indices (coalesce_sparse s)) /\
  forall r, sparse_row r (coalesce_sparse s) =
            row_total r (combine (sp_indices s) (sp_values s)).
Proof.
  unfold coalesce_sparse, sparse_row; simpl. split.
  - apply coalesce_entries_sorted.
  - intro r. rewrite combine_fst_snd. apply lookup_coalesce_entries.
Qed.

Lemma total_step_from (r : Z) (l : list (Z * Vec)) :
  forall a, fold_left (total_step r) l (Some a) =
            match fold_left (total_step r) l None with
            | None => Some a
            | Some b => Some (vadd a b)
            end.
Proof.
  induction l as [|[k v] l IH]; intro a; simpl; [reflexivity|].
  unfold total_step at 2 4; simpl.
  destruct (k =? r).
  - rewrite (IH (vadd a v)), (IH v).
    destruct (fold_left (total_step r) l None); [|reflexivity].
    now rewrite vadd_assoc.
  - apply IH.
Qed.

(** The total of a row over two lists of entries put one after the other
    is the sum of its totals over each. *)
Lemma row_total_app (r : Z) (l1 l2 : list (Z * Vec)) :
  row_total r (l1 ++ l2) =
    match row_total r l1, row_total r l2 with
    | Some a, Some b => Some (vadd a b)
    | Some a, None => Some a
    | None, t => t
    end.
Proof.
  unfold row_total.
  rewrite fold_left_app.
  destruct (fold_left (total_step r) l1 None) as [a|]; [|reflexivity].
  apply total_step_from.
Qed.

(** ** [do_delayed_noise_update] *)

Lemma coalesce_by_config_Ok cfg x t' :
  coalesce_by_config cfg x = Ok t' -> exists t, x = Some t /\ coalesce t = Ok t'.
Proof.
  unfold coalesce_by_config, coalesce_method, coalesce_multi_thread_openmp,
    coalesce_multi_thread_embeddingbag.
  destruct x as [t|].
  - intro H. exists t. split; [reflexivity|].
    destruct (coalesce_optimize cfg =? "baseline")%string; [assumption|].
    destruct (coalesce_optimize cfg =? "multi_thread_openmp")%string; [assumption|].
    destruct (coalesce_optimize cfg =? "multi_thread_embeddingbag")%string;
      [assumption | discriminate].
  - destruct (coalesce_optimize cfg =? "baseline")%string; [discriminate|].
    destruct (coalesce_optimize cfg =? "multi_thread_openmp")%string; [discriminate|].
    destruct (coalesce_optimize cfg =? "multi_thread_embeddingbag")%string;
      discriminate.
Qed.

Lemma assign_slice_same {A : Type} (n : nat) (src : list A) :
  length src = n -> assign_slice n src = Ok src.
Proof. intros <-. unfold assign_slice. now rewrite Nat.eqb_refl. Qed.

Lemma assign_slice_length {A : Type} (n : nat) (src l : list A) :
  assign_slice n src = Ok l -> length l = n.
Proof.
  unfold assign_slice. destruct (Nat.eqb_spec (length src) n) as [<-|_].
  - intro H; inversion H; reflexivity.
  - destruct src as [|x [|y src]]; try discriminate.
    intro H; inversion H. apply repeat_length.
Qed.

Lemma combine_app2 {A B : Type} (a1 a2 : list A) (b1 b2 : list B) :
  length a1 = length b1 ->
  combine (a1 ++ a2) (b1 ++ b2) = combine a1 b1 ++ combine a2 b2.
Proof.
  revert b1. induction a1 as [|x a1 IH]; intros [|y b1] H; simpl in *;
    try discriminate; [reflexivity|].
  f_equal. apply IH. congruence.
Qed.

Lemma normal_rows_length (stds : Vec) (dim : nat) :
  forall g, length (fst (normal_rows stds dim g)) = length stds.
Proof.
  induction stds as [|s stds IH]; intro g; simpl; [reflexivity|].
  specialize (IH (advance dim g)).
  destruct (normal_rows stds dim (advance dim g)). simpl in *. congruence.
Qed.

Lemma delayed_noise_rows_length cfg o std dim extra v g' :
  delayed_noise_rows cfg o std dim extra = Ok (v, g') ->
  exists n, extra = Ok n /\ length v = (length std + n)%nat.
Proof.
  unfold delayed_noise_rows, normal_multi_thread_with_extra, zeros.
  destruct (is_debugging cfg
            && str_in (debugging_type cfg) ["without_noise"; "without_nosie_clipping"]).
  - intro H. bind_inv H. inversion H; subst. exists a. split; [first [assumption | reflexivity]|].
    now rewrite length_app, !length_map, repeat_length.
  - destruct (is_debugging cfg && (debugging_type cfg =? "one_as_noise")%string).
    + intro H. bind_inv H. inversion H; subst. exists a. split; [first [assumption | reflexivity]|].
      now rewrite length_app, !length_map, repeat_length.
    + destruct (is_debugging cfg); [discriminate|].
      intro H. bind_inv H. exists a. split; [first [assumption | reflexivity]|].
      pose proof (normal_rows_length std dim (generator o)) as Hl.
      destruct (normal_rows std dim (generator o)) as [rows g1]. simpl in Hl.
      inversion H; subst.
      now rewrite length_app, repeat_length, Hl.
Qed.

Lemma extra_rows_Ok cfg i n extra :
  extra_rows cfg i = Ok n -> batch_gathers cfg i = Ok extra -> n = Z.to_nat extra.
Proof.
  unfold extra_rows. intros H He. rewrite He in H. simpl in H.
  destruct (extra <? 0); inversion H; reflexivity.
Qed.

Lemma sparse_coo_tensor_Ok indices values nrows dim t :
  sparse_coo_tensor indices values nrows dim = Ok t ->
  t = fresh (Sparse (mkSparse indices values nrows dim false)).
Proof.
  unfold sparse_coo_tensor.
  destruct (negb (length indices =? length values)%nat); [discriminate|].
  destruct (negb (forallb (fun row => Z.of_nat (length row) =? dim) values));
    [discriminate|].
  destruct (negb (forallb (fun k => (0 <=? k) && (k <? nrows)) indices));
    [discriminate|].
  intro H; inversion H; reflexivity.
Qed.

Lemma delayed_noise_table_merge cfg dim i o o' lS next std p t s :
  delayed_noise_table cfg dim i o = Ok o' ->
  lS_i_nxt o = Some lS -> nth_error lS i = Some next ->
  nth_error (stds_for_delayed_noise o) i = Some std ->
  length next = length std ->
  nth_error (params o) i = Some p -> grad p = Some t -> t_data t = Sparse s ->
  length (sp_values s) = length (sp_indices s) ->
  exists v g' t' s',
    delayed_noise_rows cfg o std (Z.to_nat dim) (Ok (length (sp_indices s)))
      = Ok (v, g') /\
    nth_error (params o') i = Some (set_grad (Some t') p) /\
    generator o' = g' /\
    t_data t' = Sparse s' /\
    StronglySorted Z.lt (sp_indices s') /\
    forall r, sparse_row r s' =
              row_total r (combine next (firstn (length std) v)
                             ++ combine (sp_indices s) (sp_values s)).
Proof.
  intros H HlS Hnext Hstd Hlen Hp Hg Ht Hwf.
  unfold delayed_noise_table in H. rewrite HlS in H.
  apply bind_Ok in H. destruct H as [[[noisy p0] g0] [Hr H]].
  unfold py_index in Hr. rewrite Hstd in Hr. cbn [bind] in Hr.
  apply bind_Ok in Hr. destruct Hr as [[v g'] [Hrows Hr]].
  rewrite Hp in Hr. cbn [bind] in Hr. rewrite Hg, Ht in Hr. cbn [bind] in Hr.
  apply bind_Ok in Hr. destruct Hr as [_ [_ Hr]].
  apply bind_Ok in Hr. destruct Hr as [vals [Hvals Hr]].
  rewrite Hnext in Hr. cbn [bind] in Hr.
  apply bind_Ok in Hr. destruct Hr as [head [Hhead Hr]].
  apply bind_Ok in Hr. destruct Hr as [tail [Htail Hr]].
  apply bind_Ok in Hr. destruct Hr as [noisy' [Hnoisy Hr]].
  apply bind_Ok in Hr. destruct Hr as [extra [Hextra Hr]].
  apply bind_Ok in Hr. destruct Hr as [u1 [Ha1 Hr]].
  apply bind_Ok in Hr. destruct Hr as [extra' [_ Hr]].
  apply bind_Ok in Hr. destruct Hr as [_ [_ Hr]].
  inversion Hr; subst noisy p0 g0; clear Hr.
  apply py_assert_Ok, Z.eqb_eq in Ha1.
  destruct (delayed_noise_rows_length _ _ _ _ _ _ _ Hrows) as [n [Hn Hv]].
  rewrite Hn in Hrows.
  assert (n = length (sp_indices s)) as ->
      by (rewrite (extra_rows_Ok _ _ _ _ Hn Hextra), Ha1; apply Nat2Z.id).
  rewrite assign_slice_same in Hvals by lia.
  inversion Hvals; subst vals; clear Hvals.
  rewrite assign_slice_same in Hhead by assumption.
  inversion Hhead; subst head; clear Hhead.
  assert (length (firstn (length std) v) = length std) as Hfirst
      by (rewrite length_firstn; lia).
  rewrite assign_slice_same in Htail by (rewrite length_app, Hfirst; lia).
  inversion Htail; subst tail; clear Htail.
  apply sparse_coo_tensor_Ok in Hnoisy. subst noisy'.
  apply bind_Ok in H. destruct H as [t' [Hco H]].
  apply coalesce_by_config_Ok in Hco. destruct Hco as [t0 [Ht0 Hco]].
  inversion Ht0; subst t0; clear Ht0.
  unfold coalesce in Hco. simpl in Hco.
  inversion Hco; subst t'; clear Hco.
  apply bind_Ok in H. destruct H as [ps [Hps H]].
  inversion H; subst o'; clear H.
  eexists v, g', _, _.
  split; [exact Hrows|].
  split; [simpl; rewrite (py_setitem_nth _ _ _ _ Hps), Nat.eqb_refl; reflexivity|].
  split; [reflexivity|]. split; [reflexivity|].
  match goal with
  | |- context [coalesce_sparse ?s0] =>
      destruct (coalesce_sparse_spec s0) as [Hsorted Hrow]
  end.
  split; [exact Hsorted|].
  intro r. rewrite Hrow. simpl. rewrite combine_app2 by lia. reflexivity.
Qed.

Lemma same_schedule_refl o : same_schedule o o.
Proof. repeat split. Qed.

Lemma same_schedule_trans a b c :
  same_schedule a b -> same_schedule b c -> same_schedule a c.
Proof.
  intros (A1 & A2 & A3 & A4 & A5) (B1 & B2 & B3 & B4 & B5).
  repeat split; congruence.
Qed.

Lemma delayed_noise_table_frame cfg dim j o o' :
  delayed_noise_table cfg dim j o = Ok o' ->
  same_schedule o o' /\
  forall i, i <> j -> nth_error (params o') i = nth_error (params o) i.
Proof.
  unfold delayed_noise_table. intro H.
  apply bind_Ok in H. destruct H as [[[t p] g] [_ H]].
  apply bind_Ok in H. destruct H as [t' [_ H]].
  apply bind_Ok in H. destruct H as [ps [Hps H]].
  inversion H; subst o'; clear H. split; [repeat split|].
  intros i Hi. simpl. rewrite (py_setitem_nth _ _ _ _ Hps).
  destruct (Nat.eqb_spec i j); [contradiction | reflexivity].
Qed.

Lemma for_each_app {A S : Type} (body : A -> S -> result S) (l1 l2 : list A) :
  forall s s', for_each (l1 ++ l2) body s = Ok s' ->
  exists s1, for_each l1 body s = Ok s1 /\ for_each l2 body s1 = Ok s'.
Proof.
  induction l1 as [|x l1 IH]; intros s s' H; simpl in *.
  - eauto.
  - apply bind_Ok in H. destruct H as [s0 [H0 H]].
    destruct (IH _ _ H) as [s1 [H1 H2]]. exists s1. rewrite H0. auto.
Qed.

Lemma delayed_noise_tables_frame cfg dim (l : list nat) :
  forall o o', for_each l (delayed_noise_table cfg dim) o = Ok o' ->
  same_schedule o o' /\
  forall i, ~ In i l -> nth_error (params o') i = nth_error (params o) i.
Proof.
  induction l as [|j l IH]; intros o o' H; simpl in H.
  - inversion H; subst. split; [apply same_schedule_refl | reflexivity].
  - apply bind_Ok in H. destruct H as [o1 [H1 H]].
    destruct (delayed_noise_table_frame _ _ _ _ _ H1) as [Hs1 Hp1].
    destruct (IH _ _ H) as [Hs Hp].
    split; [eapply same_schedule_trans; eassumption|].
    intros i Hi. simpl in Hi. rewrite Hp, Hp1; auto.
Qed.

(** The state in which table [i] is processed, and the effect of the rest
    of the loop on its parameter. *)
Lemma do_delayed_noise_update_at cfg o o' i :
  do_delayed_noise_update cfg o = Ok o' -> (i < length (emb_l o))%nat ->
  exists shape0 o1 o2,
    nth_error (emb_l o) 0 = Some shape0 /\
    for_each (seq 0 i) (delayed_noise_table cfg (snd shape0)) o = Ok o1 /\
    same_schedule o o1 /\
    nth_error (params o1) i = nth_error (params o) i /\
    delayed_noise_table cfg (snd shape0) i o1 = Ok o2 /\
    nth_error (params o') i = nth_error (params o2) i.
Proof.
  unfold do_delayed_noise_update. intros H Hi.
  apply bind_Ok in H. destruct H as [shape0 [H0 H]]. apply py_index_Ok in H0.
  replace (length (emb_l o)) with (i + S (length (emb_l o) - S i))%nat in H by lia.
  rewrite seq_app in H. apply for_each_app in H. destruct H as [o1 [H1 H]].
  simpl in H. apply bind_Ok in H. destruct H as [o2 [H2 H]].
  destruct (delayed_noise_tables_frame _ _ _ _ _ H1) as [Hs1 Hp1].
  destruct (delayed_noise_tables_frame _ _ _ _ _ H) as [_ Hp2].
  exists shape0, o1, o2. repeat split; try assumption; try apply Hs1.
  - apply Hp1. rewrite in_seq. lia.
  - apply Hp2. rewrite in_seq. lia.
Qed.

(** C3.  Merge of delayed noise and real gradient.  Let
    [do_delayed_noise_update] return with [lS_i_nxt] set, and let table [i]
    have the row ids [next], one deviation per row id, and the sparse real
    gradient [s] in [params[i].grad].  Then the new [params[i].grad] is a
    sparse tensor with strictly increasing (unique) row indices, and a row
    [r] that has a delayed-noise contribution [noise_r] (it is listed in
    [lS_i_nxt[i]]) and a real-gradient contribution [grad_r] holds
    [noise_r + grad_r].  The noise rows are those drawn for the table when
    its turn comes in the loop, i.e. in the state [o1] that the iterations
    for the tables before it produce. *)
Theorem delayed_noise_merge cfg o o' lS i next std p t s :
  do_delayed_noise_update cfg o = Ok o' ->
  lS_i_nxt o = Some lS -> (i < length (emb_l o))%nat ->
  nth_error lS i = Some next ->
  nth_error (stds_for_delayed_noise o) i = Some std ->
  length next = length std ->
  nth_error (params o) i = Some p -> grad p = Some t -> t_data t = Sparse s ->
  length (sp_values s) = length (sp_indices s) ->
  exists shape0 o1 v g' t' s',
    nth_error (emb_l o) 0 = Some shape0 /\
    for_each (seq 0 i) (delayed_noise_table cfg (snd shape0)) o = Ok o1 /\
    delayed_noise_rows cfg o1 std (Z.to_nat (snd shape0))
                       (Ok (length (sp_indices s)))
      = Ok (v, g') /\
    nth_error (params o') i = Some (set_grad (Some t') p) /\
    t_data t' = Sparse s' /\
    StronglySorted Z.lt (sp_indices s') /\
    forall r noise_r grad_r,
      row_total r (combine next (firstn (length std) v)) = Some noise_r ->
      row_total r (combine (sp_indices s) (sp_values s)) = Some grad_r ->
      sparse_row r s' = Some (vadd noise_r grad_r).
Proof.
  intros H HlS Hi Hnext Hstd Hlen Hp Hg Ht Hwf.
  destruct (do_delayed_noise_update_at _ _ _ _ H Hi)
    as (shape0 & o1 & o2 & H0 & H1 & Hs & Hp1 & H2 & Hp2).
  destruct Hs as (S1 & S2 & _).
  rewrite <- S1 in HlS. rewrite <- S2 in Hstd. rewrite <- Hp1 in Hp.
  destruct (delayed_noise_table_merge _ _ _ _ _ _ _ _ _ _ _
              H2 HlS Hnext Hstd Hlen Hp Hg Ht Hwf)
    as (v & g' & t' & s' & Hrows & Hp' & _ & Ht' & Hsorted & Hrow).
  exists shape0, o1, v, g', t', s'.
  repeat split; try assumption; [congruence|].
  intros r noise_r grad_r Hn Hgr.
  rewrite Hrow, row_total_app, Hn, Hgr. reflexivity.
Qed.

Lemma delayed_noise_merge_witness :
  exists o' t' s',
    do_delayed_noise_update merge_config merge_opt = Ok o' /\
    nth_error (params o') 0 = Some (set_grad (Some t') merge_param) /\
    t_data t' = Sparse s' /\
    sparse_row 7 s' = Some [3%R; 3%R].
Proof.
  destruct (do_delayed_noise_update merge_config merge_opt) as [o'|e] eqn:E;
    [|vm_compute in E; discriminate E].
  destruct (delayed_noise_merge merge_config merge_opt o' [[7]] 0 [7] [2%R]
              merge_param merge_grad (mkSparse [7] [[1%R; 1%R]] 10 2 false) E)
    as (shape0 & o1 & v & g' & t' & s' & H0 & H1 & Hrows & Hp & Ht & _ & Hsum);
    try reflexivity; [simpl; lia|].
  exists o', t', s'. split; [reflexivity|]. split; [exact Hp|]. split; [exact Ht|].
  inversion H0; subst shape0. inversion H1; subst o1.
  inversion Hrows; subst v.
  rewrite (Hsum 7 [(2 * 1)%R; (2 * 1)%R] [1%R; 1%R]) by reflexivity.
  simpl. repeat f_equal; lra.
Defined.

(** *** No rows announced: [lS_i_nxt] is [None] *)

Lemma delayed_noise_table_None cfg dim i o o' :
  lS_i_nxt o = None -> delayed_noise_table cfg dim i o = Ok o' ->
  generator o' = generator o /\
  exists p t t',
    nth_error (params o) i = Some p /\ grad p = Some t /\
    coalesce t = Ok t' /\
    nth_error (params o') i = Some (set_grad (Some t') p).
Proof.
  intros HlS H. unfold delayed_noise_table in H. rewrite HlS in H.
  apply bind_Ok in H. destruct H as [[[t p] g] [Hr H]].
  apply bind_Ok in Hr. destruct Hr as [p0 [Hp Hr]]. apply py_index_Ok in Hp.
  inversion Hr; subst t p0 g; clear Hr.
  apply bind_Ok in H. destruct H as [t' [Hco H]].
  apply coalesce_by_config_Ok in Hco. destruct Hco as [t [Hg Hco]].
  apply bind_Ok in H. destruct H as [ps [Hps H]].
  inversion H; subst o'; clear H. split; [reflexivity|].
  exists p, t, t'. repeat split; try assumption.
  simpl. rewrite (py_setitem_nth _ _ _ _ Hps), Nat.eqb_refl. reflexivity.
Qed.

Lemma delayed_noise_tables_None cfg dim (l : list nat) :
  forall o o', lS_i_nxt o = None ->
  for_each l (delayed_noise_table cfg dim) o = Ok o' ->
  generator o' = generator o.
Proof.
  induction l as [|j l IH]; intros o o' HlS H; simpl in H.
  - inversion H; reflexivity.
  - apply bind_Ok in H. destruct H as [o1 [H1 H]].
    destruct (delayed_noise_table_None _ _ _ _ _ HlS H1) as [Hg _].
    destruct (delayed_noise_table_frame _ _ _ _ _ H1) as [(S1 & _) _].
    rewrite <- Hg. apply IH; [congruence | assumption].
Qed.

Lemma coalesce_cases (t t' : Tensor) :
  coalesce t = Ok t' ->
  exists s, t_data t = Sparse s /\
            (sp_coalesced s = true -> t' = t) /\
            (sp_coalesced s = false -> t' = fresh (Sparse (coalesce_sparse s))).
Proof.
  unfold coalesce. destruct (t_data t) as [m|s]; [discriminate|].
  destruct (sp_coalesced s) eqn:Ec; intro H; inversion H; subst; exists s;
    (split; [reflexivity|]); rewrite Ec; split; intro Hc;
    first [reflexivity | discriminate Hc].
Qed.

(** C7 (amended).  When [lS_i_nxt] is [None]: [set_emb_to_noise_update]
    returns at once and leaves the optimizer as it is, so no deviation is
    computed; [do_delayed_noise_update] consumes nothing from the Gaussian
    source and leaves [stds_for_delayed_noise] alone, so no noise is
    generated; and the gradient of every embedding table is replaced by its
    coalesced form, with no noise rows merged in: the very same tensor when
    it is already coalesced, otherwise a new tensor with strictly increasing
    row indices whose row at every index is the sum of the raw gradient's
    entries for that index. *)
Theorem no_next_rows_gradient_coalesced cfg o :
  lS_i_nxt o = None ->
  set_emb_to_noise_update o = Ok o /\
  forall o', do_delayed_noise_update cfg o = Ok o' ->
    generator o' = generator o /\
    stds_for_delayed_noise o' = stds_for_delayed_noise o /\
    forall i, (i < length (emb_l o))%nat ->
      exists p t t' s,
        nth_error (params o) i = Some p /\ grad p = Some t /\
        t_data t = Sparse s /\
        nth_error (params o') i = Some (set_grad (Some t') p) /\
        (sp_coalesced s = true -> t' = t) /\
        (sp_coalesced s = false ->
         exists s', t_data t' = Sparse s' /\
                    StronglySorted Z.lt (sp_indices s') /\
                    forall r, sparse_row r s' =
                              row_total r (combine (sp_indices s) (sp_values s))).
Proof.
  intro HlS. split.
  - unfold set_emb_to_noise_update. rewrite HlS. reflexivity.
  - intros o' H.
    assert (generator o' = generator o /\
            stds_for_delayed_noise o' = stds_for_delayed_noise o) as [Hgen Hstd].
    { unfold do_delayed_noise_update in H.
      apply bind_Ok in H. destruct H as [shape0 [_ H]].
      destruct (delayed_noise_tables_frame _ _ _ _ _ H) as [(_ & S2 & _) _].
      split; [|assumption].
      eapply delayed_noise_tables_None; eassumption. }
    split; [assumption|]. split; [assumption|].
    intros i Hi.
    destruct (do_delayed_noise_update_at _ _ _ _ H Hi)
      as (shape0 & o1 & o2 & _ & _ & (S1 & _) & Hp1 & H2 & Hp2).
    assert (lS_i_nxt o1 = None) as HlS1 by congruence.
    destruct (delayed_noise_table_None _ _ _ _ _ HlS1 H2)
      as [_ (p & t & t' & Hp & Hg & Hco & Hp')].
    destruct (coalesce_cases _ _ Hco) as (s & Hs & Hsame & Hnew).
    exists p, t, t', s.
    split; [congruence|]. split; [assumption|]. split; [assumption|].
    split; [congruence|]. split; [assumption|].
    intro Hc. rewrite (Hnew Hc). exists (coalesce_sparse s).
    split; [reflexivity|]. apply coalesce_sparse_spec.
Qed.

Lemma no_next_rows_gradient_coalesced_witness :
  set_emb_to_noise_update no_next_opt = Ok no_next_opt /\
  exists o', do_delayed_noise_update lazydp_config no_next_opt = Ok o' /\
             generator o' = generator no_next_opt.
Proof.
  destruct (no_next_rows_gradient_coalesced lazydp_config no_next_opt eq_refl)
    as [Hset Hdo].
  split; [exact Hset|].
  destruct (do_delayed_noise_update lazydp_config no_next_opt) as [o'|e] eqn:E;
    [|vm_compute in E; discriminate E].
  exists o'. split; [reflexivity|]. apply (Hdo o' eq_refl).
Defined.

(** C7 as stated fails: with [lS_i_nxt] [None], the gradient that
    [do_delayed_noise_update] leaves in [p.grad] is not the raw sparse
    tensor when that tensor has two entries for one row. *)
Lemma raw_gradient_not_kept :
  dpsgd_mode lazydp_config = MODE_LAZYDP /\
  lS_i_nxt no_next_opt = None /\
  nth_error (params no_next_opt) 0 = Some no_next_param /\
  grad no_next_param = Some raw_grad /\
  exists o' p',
    do_delayed_noise_update lazydp_config no_next_opt = Ok o' /\
    nth_error (params o') 0 = Some p' /\
    grad p' <> Some raw_grad.
Proof.
  repeat split.
  eexists. eexists. split; [reflexivity|]. split; [reflexivity|].
  simpl. unfold raw_grad. intro H. inversion H.
Qed.

(** ** [_generate_noise] *)

Lemma str_in_two (x a b : string) :
  str_in x [a; b] = true -> x = a \/ x = b.
Proof.
  unfold str_in. simpl. rewrite orb_false_r. intro H.
  apply orb_true_iff in H as [H|H]; apply String.eqb_eq in H; auto.
Qed.

(** C9.  Degenerate deviation.  A call of [_generate_noise] with [std == 0]
    fails on its assertion, whatever the configuration, and so never
    returns a tensor.  When a call does return, its deviation is not zero;
    the all-zeros tensor comes back only with [config.is_debugging] set and
    [debugging_type] one of "without_noise", "without_noise_clipping", the
    all-ones tensor only with [is_debugging] set and [debugging_type]
    "one_as_noise"; with [is_debugging] off the result is the Gaussian draw
    from the generator. *)
Theorem generate_noise_degenerate cfg rows cols dev g secure :
  _generate_noise cfg 0 rows cols dev g secure = Raise (AssertionError "") /\
  forall std kind m g',
    _generate_noise cfg std rows cols dev g secure = Ok (kind, m, g') ->
    std <> 0%R /\
    (kind = NoiseZeros ->
     is_debugging cfg = true /\ m = zeros rows cols /\
     (debugging_type cfg = "without_noise" \/
      debugging_type cfg = "without_noise_clipping")) /\
    (kind = NoiseOnes ->
     is_debugging cfg = true /\ m = ones rows cols /\
     debugging_type cfg = "one_as_noise") /\
    (is_debugging cfg = false ->
     (kind = NoiseNormalMultiThread \/ kind = NoiseTorchNormal) /\
     (m, g') = torch_normal std rows cols g).
Proof.
  split.
  - unfold _generate_noise. destruct (Req_dec_T 0 0) as [_|Hne];
      [reflexivity | exfalso; apply Hne; reflexivity].
  - intros std kind m g'. unfold _generate_noise, normal_multi_thread.
    destruct (Req_dec_T std 0) as [|Hstd]; [discriminate|].
    destruct secure; [discriminate|].
    destruct (is_debugging cfg) eqn:Hdbg; cbn [andb].
    + destruct (str_in (debugging_type cfg)
                       ["without_noise"; "without_noise_clipping"]) eqn:Hz.
      * intro H; inversion H; subst. apply str_in_two in Hz.
        repeat split; auto; try discriminate.
      * destruct (debugging_type cfg =? "one_as_noise")%string eqn:Ho;
          [|discriminate].
        intro H; inversion H; subst. apply String.eqb_eq in Ho.
        repeat split; auto; try discriminate.
    + destruct (Device_eqb dev Cpu
                && negb (noise_base_optimize cfg =? "baseline")%string).
      * destruct (noise_base_optimize cfg =? "multi_thread")%string;
          [|discriminate].
        destruct (torch_normal std rows cols g) as [m0 g0].
        intro H; inversion H; subst. repeat split; auto; try discriminate.
      * destruct (torch_normal std rows cols g) as [m0 g0].
        intro H; inversion H; subst. repeat split; auto; try discriminate.
Qed.

Lemma generate_noise_degenerate_witness :
  _generate_noise lazydp_config 1 1 1 Cpu (fun _ => 1%R) false
    = Ok (NoiseNormalMultiThread, [[(1 * 1)%R]], advance 1 (fun _ => 1%R)) /\
  (1 <> 0)%R /\
  (NoiseNormalMultiThread = NoiseNormalMultiThread \/
   NoiseNormalMultiThread = NoiseTorchNormal).
Proof.
  assert (_generate_noise lazydp_config 1 1 1 Cpu (fun _ => 1%R) false
          = Ok (NoiseNormalMultiThread, [[(1 * 1)%R]],
                advance 1 (fun _ => 1%R))) as E.
  { unfold _generate_noise. destruct (Req_dec_T 1 0) as [H|_]; [lra|].
    reflexivity. }
  destruct (generate_noise_degenerate lazydp_config 1 1 Cpu (fun _ => 1%R) false)
    as [_ H].
  destruct (H _ _ _ _ E) as (Hstd & _ & _ & Hprod).
  split; [exact E|]. split; [exact Hstd|]. apply Hprod. reflexivity.
Defined.

(** ** [accumulated_iterations] *)

(** C8 (amended).  [accumulated_iterations] returns 1 for every optimizer
    state: it returns before the lengths of the [grad_sample] lists are
    looked at, and raises nothing. *)
Theorem accumulated_iterations_always_one (o : DPOptimizer) :
  accumulated_iterations o = Ok 1 /\
  forall e, accumulated_iterations o <> Raise e.
Proof. split; [reflexivity | discriminate]. Qed.

(** C8 as stated fails: the parameters of [inconsistent_opt] have
    accumulated one and two batches (the statements after the [return]
    would raise on them), and querying [accumulated_iterations] returns 1. *)
Lemma inconsistent_accumulation_not_detected :
  accumulated_iterations_unreachable inconsistent_opt
    = Raise (ValueError "Number of accumulated steps is inconsistent across parameters") /\
  accumulated_iterations inconsistent_opt = Ok 1.
Proof. split; reflexivity. Qed.

(** ** [zero_grad] *)

Lemma original_optimizer_zero_grad_none (p : Param) :
  original_optimizer_zero_grad true p = set_grad None p.
Proof.
  unfold original_optimizer_zero_grad. destruct p as [r c d gs gn inp sg g].
  simpl. destruct g; reflexivity.
Qed.

(** C10.  [zero_grad] does the same whatever [set_to_none] is passed, and
    afterwards [p.grad] is [None] for every parameter.  In a mode other
    than [MODE_DPSGD_B] each parameter keeps every attribute but [grad]
    and [summed_grad] (in particular [grad_sample]), and [summed_grad] is
    set to [None] when the last step was not skipped and kept when it was;
    nothing else in the optimizer changes. *)
Theorem zero_grad_clears cfg (set_to_none : bool) (o : DPOptimizer) :
  zero_grad cfg set_to_none o = zero_grad cfg true o /\
  zero_grad cfg set_to_none o = zero_grad cfg false o /\
  Forall (fun p => grad p = None) (params (zero_grad cfg set_to_none o)) /\
  (dpsgd_mode cfg <> MODE_DPSGD_B ->
   map grad_sample (params (zero_grad cfg set_to_none o))
     = map grad_sample (params o) /\
   zero_grad cfg set_to_none o
     = set_params
         (map (fun p => set_grad None
                          (if is_last_step_skipped o then p
                           else set_summed_grad None p))
              (params o)) o).
Proof.
  split; [reflexivity|]. split; [reflexivity|]. split.
  - unfold zero_grad; simpl. rewrite Forall_map, Forall_map.
    apply Forall_forall. intros p _. rewrite original_optimizer_zero_grad_none.
    reflexivity.
  - intro Hmode.
    assert (Mode_eqb (dpsgd_mode cfg) MODE_DPSGD_B = false) as Hb
        by (destruct (dpsgd_mode cfg); try reflexivity; contradiction).
    unfold zero_grad. rewrite Hb. simpl. rewrite !map_map. split.
    + apply map_ext. intro p. rewrite original_optimizer_zero_grad_none.
      destruct (is_last_step_skipped o); reflexivity.
    + f_equal. apply map_ext. intro p.
      rewrite original_optimizer_zero_grad_none.
      destruct (is_last_step_skipped o); reflexivity.
Qed.

Lemma zero_grad_clears_witness :
  map grad_sample (params (zero_grad lazydp_config false merge_opt))
    = map grad_sample (params merge_opt) /\
  map summed_grad (params (zero_grad lazydp_config false merge_opt)) = [None].
Proof.
  destruct (zero_grad_clears lazydp_config false merge_opt) as (_ & _ & _ & H).
  destruct H as [Hgs Hz]; [discriminate|].
  split; [exact Hgs|]. rewrite Hz. reflexivity.
Defined.

(** ** The double-use guard *)

Lemma map_result_nth {A B : Type} (f : A -> result B) (l : list A) :
  forall l', map_result f l = Ok l' ->
  length l' = length l /\
  forall k x, nth_error l k = Some x ->
              exists y, f x = Ok y /\ nth_error l' k = Some y.
Proof.
  induction l as [|a l IH]; intros l' H; simpl in H.
  - inversion H; subst. split; [reflexivity|]. intros [|k] x; discriminate.
  - bind_inv H. bind_inv H. inversion H; subst; clear H.
    destruct (IH _ E0) as [Hlen Hnth]. split; [simpl; congruence|].
    intros [|k] x Hx; simpl in *.
    + inversion Hx; subst. eauto.
    + eauto.
Qed.

Lemma clip_and_reduce_param_Ok cfg factor p p' :
  clip_and_reduce_param cfg factor p = Ok p' ->
  summed_grad p = None /\
  exists gs g,
    _get_flat_grad_sample p = Ok gs /\
    p' = set_grad_sample (_mark_as_processed (grad_sample p))
                         (set_summed_grad (Some g) p).
Proof.
  unfold clip_and_reduce_param. intro H.
  bind_inv H. bind_inv H. bind_inv H.
  destruct (summed_grad p) as [sg|].
  - bind_inv H. discriminate.
  - inversion H; subst. split; [reflexivity|]. eauto.
Qed.

Lemma torch_cat_mark (l : list GSTensor) :
  torch_cat (map mark_gs l) = torch_cat l.
Proof.
  destruct l as [|x l]; [reflexivity|]. unfold torch_cat.
  simpl map. rewrite map_map. reflexivity.
Qed.

(** Marking does not change the per-sample gradients that are read back. *)
Lemma get_flat_grad_sample_marked (p q : Param) :
  _get_flat_grad_sample
    (set_grad_sample (_mark_as_processed (grad_sample p)) q)
  = _get_flat_grad_sample p.
Proof.
  unfold _get_flat_grad_sample. simpl.
  destruct (grad_sample p) as [| |[g|l|]]; simpl; try reflexivity.
  apply torch_cat_mark.
Qed.

(** Per-sample gradients that could be read and were marked fail the check. *)
Lemma check_processed_flag_marked (p : Param) (gs : list Mat) :
  _get_flat_grad_sample p = Ok gs ->
  _check_processed_flag (_mark_as_processed (grad_sample p))
  = Raise (ValueError gradients_not_cleared).
Proof.
  unfold _get_flat_grad_sample.
  destruct (grad_sample p) as [| |[g|l|]]; simpl; try discriminate.
  - reflexivity.
  - destruct l as [|x l]; [discriminate | reflexivity].
Qed.

Lemma map_result_ext {A B : Type} (f g : A -> result B) (l l' : list A) :
  Forall2 (fun x y => g y = f x) l l' -> map_result g l' = map_result f l.
Proof.
  induction 1 as [|x y l l' Hxy _ IH]; simpl; [reflexivity|].
  now rewrite Hxy, IH.
Qed.

Lemma clip_and_accumulate_materialized_twice cfg o o' :
  clip_and_accumulate_materialized cfg None o = Ok o' ->
  clip_and_accumulate_materialized cfg None o'
  = Raise (ValueError gradients_not_cleared).
Proof.
  unfold clip_and_accumulate_materialized. intro H.
  bind_inv H. clear E a. apply bind_Ok in H. destruct H as [gss [Hgss H]].
  apply bind_Ok in H. destruct H as [g0 [Hg0 H]].
  apply bind_Ok in H. destruct H as [norms [Hnorms H]].
  apply bind_Ok in H. destruct H as [ps [Hps H]].
  inversion H; subst o'; clear H. simpl bind.
  destruct (map_result_nth _ _ _ Hps) as [Hlen Hnth].
  assert (grad_samples (set_params ps o) = Ok gss) as Hgss'.
  { unfold grad_samples in *. simpl. rewrite <- Hgss.
    apply map_result_ext.
    clear - Hps. revert ps Hps.
    induction (params o) as [|p l IH]; intros ps Hps; simpl in Hps.
    - inversion Hps; constructor.
    - bind_inv Hps. bind_inv Hps. inversion Hps; subst; clear Hps.
      constructor; [|auto].
      apply clip_and_reduce_param_Ok in E.
      destruct E as [_ (gs & g & _ & ->)].
      apply get_flat_grad_sample_marked. }
  rewrite Hgss'. simpl bind. rewrite Hg0. simpl bind. rewrite Hnorms.
  simpl bind. simpl max_grad_norm. simpl params.
  (* the first parameter fails the check *)
  unfold grad_samples in Hgss.
  destruct (params o) as [|p l] eqn:Hparams.
  { simpl in Hgss. inversion Hgss; subst. discriminate. }
  destruct (Hnth 0%nat p eq_refl) as [p' [Hp' Hp0]].
  destruct ps as [|q ps]; [discriminate|]. simpl in Hp0.
  inversion Hp0; subst q; clear Hp0.
  apply clip_and_reduce_param_Ok in Hp'.
  destruct Hp' as [_ (gs & g & Hflat & ->)].
  simpl map_result. unfold clip_and_reduce_param at 1. simpl grad_sample.
  rewrite (check_processed_flag_marked _ _ Hflat). reflexivity.
Qed.

Lemma bind_Raise {A B : Type} (c : result A) (k : A -> result B) (e : exn) :
  bind c k = Raise e -> c = Raise e \/ exists a, c = Ok a /\ k a = Raise e.
Proof.
  destruct c as [a|e']; simpl; intro H; [right; eauto|].
  inversion H; subst. left; reflexivity.
Qed.

Lemma py_index_no_value_error {A : Type} (l : list A) i e :
  py_index l i = Raise e -> ~ is_value_error e.
Proof.
  unfold py_index. destruct (nth_error l i); intro H; inversion H; subst. auto.
Qed.

Lemma collect_per_param_norms_no_value_error cfg ps :
  forall e, collect_per_param_norms cfg ps = Raise e -> ~ is_value_error e.
Proof.
  induction ps as [|p ps IH]; intros e H; simpl in H; [discriminate|].
  apply bind_Raise in H. destruct H as [H|[here [_ H]]].
  - destruct (negb (Device_eqb (p_device p) (device cfg))); [|discriminate].
    apply bind_Raise in H. destruct H as [H|[u [_ H]]].
    + unfold py_assert in H.
      destruct (length (grad_sample_norms p) =? 1)%nat; inversion H; subst; auto.
    + apply bind_Raise in H. destruct H as [H|[n0 [_ H]]]; [|discriminate].
      eapply py_index_no_value_error; eassumption.
  - apply bind_Raise in H. destruct H as [H|[rest [_ H]]]; [auto | discriminate].
Qed.

Lemma per_sample_norms_of_no_value_error cols e :
  per_sample_norms_of cols = Raise e -> ~ is_value_error e.
Proof.
  unfold per_sample_norms_of. destruct cols as [|c cs].
  - intro H; inversion H; subst; auto.
  - match goal with
    | |- (if ?c then _ else _) = _ -> _ => destruct c
    end; intro H; inversion H; subst; auto.
Qed.

Lemma tensor_add_no_value_error a b e :
  tensor_add a b = Raise e -> ~ is_value_error e.
Proof.
  unfold tensor_add. destruct a as [x|s], b as [y|s'].
  - destruct (same_shape x y); intro H; inversion H; subst; auto.
  - discriminate.
  - intro H; inversion H; subst; auto.
  - destruct ((sp_nrows s =? sp_nrows s') && (sp_dim s =? sp_dim s'));
      intro H; inversion H; subst; auto.
Qed.

Lemma loss_backward_no_value_error ps :
  forall gs e, loss_backward ps gs = Raise e -> ~ is_value_error e.
Proof.
  induction ps as [|p ps IH]; intros gs e H; simpl in H; [discriminate|].
  apply bind_Raise in H. destruct H as [H|[p' [_ H]]].
  - unfold accumulate_grad in H. destruct (hd None gs); [|discriminate].
    destruct (grad p); [|discriminate].
    apply bind_Raise in H. destruct H as [H|[d [_ H]]]; [|discriminate].
    eapply tensor_add_no_value_error; eassumption.
  - apply bind_Raise in H. destruct H as [H|[tl' [_ H]]]; [eauto | discriminate].
Qed.

Lemma coalesce_no_value_error t e :
  coalesce t = Raise e -> ~ is_value_error e.
Proof.
  unfold coalesce. destruct (t_data t) as [m|s].
  - intro H; inversion H; subst; auto.
  - destruct (sp_coalesced s); discriminate.
Qed.

Lemma coalesce_strategies_no_value_error x e :
  (coalesce_method x = Raise e -> ~ is_value_error e) /\
  (coalesce_multi_thread_openmp x = Raise e -> ~ is_value_error e) /\
  (coalesce_multi_thread_embeddingbag x = Raise e -> ~ is_value_error e).
Proof.
  unfold coalesce_method, coalesce_multi_thread_openmp,
    coalesce_multi_thread_embeddingbag.
  destruct x as [t|]; repeat split;
    first [apply coalesce_no_value_error | intro H; inversion H; subst; auto].
Qed.

Lemma coalesce_emb_grads_no_value_error (f : option Tensor -> result Tensor) :
  (forall t e, f t = Raise e -> ~ is_value_error e) ->
  forall n ps e, coalesce_emb_grads f n ps = Raise e -> ~ is_value_error e.
Proof.
  intros Hf. induction n as [|n IH]; intros ps e H; simpl in H.
  - destruct ps; discriminate.
  - destruct ps as [|p ps]; [discriminate|].
    apply bind_Raise in H. destruct H as [H|[t' [_ H]]]; [eauto|].
    apply bind_Raise in H. destruct H as [H|[tl' [_ H]]]; [eauto | discriminate].
Qed.

Lemma clip_and_accumulate_rebackward_no_value_error cfg backward losses o e :
  clip_and_accumulate_rebackward cfg backward losses o = Raise e ->
  ~ is_value_error e.
Proof.
  unfold clip_and_accumulate_rebackward.
  destruct losses as [ls|]; [|intro H; inversion H; subst; auto].
  intro H.
  apply bind_Raise in H. destruct H as [H|[cols [_ H]]];
    [eapply collect_per_param_norms_no_value_error; eassumption|].
  apply bind_Raise in H. destruct H as [H|[norms [_ H]]];
    [eapply per_sample_norms_of_no_value_error; eassumption|].
  apply bind_Raise in H. destruct H as [H|[u [_ H]]].
  { match type of H with
    | (if ?c then _ else _) = _ => destruct c; inversion H; subst; auto
    end. }
  apply bind_Raise in H. destruct H as [H|[ps1 [_ H]]];
    [eapply loss_backward_no_value_error; eassumption|].
  apply bind_Raise in H. destruct H as [H|[ps2 [_ H]]]; [|discriminate].
  destruct (negb (Mode_eqb (dpsgd_mode cfg) MODE_LAZYDP)); [|discriminate].
  destruct (coalesce_optimize cfg =? "baseline")%string;
    [|destruct (coalesce_optimize cfg =? "multi_thread_openmp")%string;
      [|destruct (coalesce_optimize cfg =? "multi_thread_embeddingbag")%string;
        [|discriminate]]];
    (eapply coalesce_emb_grads_no_value_error; [|eassumption]);
    intros x e'; apply (coalesce_strategies_no_value_error x e').
Qed.

(** C4 (amended).  The double-use guard of [clip_and_accumulate] is that of
    the materialized mode.  In [MODE_DPSGD_B], once [clip_and_accumulate]
    has returned (it marked the per-sample gradients of every parameter as
    processed), a second call without [zero_grad] in between raises the
    [ValueError] "Gradients haven't been cleared ...".  In every other mode
    [clip_and_accumulate] checks no processed flag: whatever the state, it
    never raises a [ValueError]. *)
Theorem double_use_guard cfg backward backward' losses o o' :
  (dpsgd_mode cfg = MODE_DPSGD_B ->
   clip_and_accumulate cfg backward None o = Ok o' ->
   clip_and_accumulate cfg backward' None o'
   = Raise (ValueError gradients_not_cleared)) /\
  (dpsgd_mode cfg <> MODE_DPSGD_B ->
   forall msg, clip_and_accumulate cfg backward losses o <> Raise (ValueError msg)).
Proof.
  split.
  - unfold clip_and_accumulate. intros ->.
    apply clip_and_accumulate_materialized_twice.
  - intros Hmode msg H. unfold clip_and_accumulate in H.
    destruct (dpsgd_mode cfg); try contradiction; try discriminate;
      apply clip_and_accumulate_rebackward_no_value_error in H; apply H; exact I.
Qed.

Lemma double_use_guard_witness :
  exists o1,
    clip_and_accumulate materialized_config no_backward None materialized_opt = Ok o1 /\
    clip_and_accumulate materialized_config no_backward None o1
    = Raise (ValueError gradients_not_cleared).
Proof.
  destruct (clip_and_accumulate materialized_config no_backward None materialized_opt)
    as [o1|e] eqn:E; [|cbn in E; discriminate E].
  destruct (double_use_guard materialized_config no_backward no_backward None
              materialized_opt o1) as [Hguard _].
  exists o1. split; [reflexivity|]. apply Hguard; [reflexivity | exact E].
Defined.

(** C4 as stated fails in a re-backward mode: after a full [step] in
    [MODE_DPSGD_R] the summed gradient of the parameter is marked as
    processed, and calling [clip_and_accumulate] again with no [zero_grad]
    in between returns normally. *)
Lemma second_clip_without_zero_grad_passes :
  dpsgd_mode rebackward_config = MODE_DPSGD_R /\
  step rebackward_config second_backward (Some [1%R]) rebackward_opt
    = Ok rebackward_after_step /\
  map (fun p => option_map t_processed (summed_grad p)) (params rebackward_after_step)
    = [Some true] /\
  exists o2,
    clip_and_accumulate rebackward_config second_backward (Some [1%R])
                        rebackward_after_step = Ok o2.
Proof.
  split; [reflexivity|]. split; [|split; [reflexivity|]].
  - unfold step, pre_step. cbn.
    unfold add_noise. cbn. unfold add_noise_param. cbn. unfold _generate_noise.
    destruct (Req_dec_T (1 * 1) 0) as [H|_]; [lra|]. reflexivity.
  - eexists. reflexivity.
Qed.

(** ** Clipping *)

Lemma eps_pos : (0 < eps)%R.
Proof. unfold eps. lra. Qed.

Lemma sum_squares_nonneg (v : Vec) : (0 <= sum_squares v)%R.
Proof.
  induction v as [|x v IH]; simpl; [lra|]. pose proof (Rle_0_sqr x) as H.
  unfold Rsqr in H. lra.
Qed.

Lemma sum_squares_scale (c : R) (v : Vec) :
  sum_squares (vscale c v) = (c * c * sum_squares v)%R.
Proof.
  unfold vscale. induction v as [|x v IH]; simpl; [ring|]. rewrite IH. ring.
Qed.

Lemma norm2_nonneg (v : Vec) : (0 <= norm2 v)%R.
Proof. apply sqrt_pos. Qed.

Lemma norm2_scale (c : R) (v : Vec) :
  (0 <= c)%R -> norm2 (vscale c v) = (c * norm2 v)%R.
Proof.
  intro Hc. unfold norm2. rewrite sum_squares_scale.
  rewrite sqrt_mult; [|nra|apply sum_squares_nonneg].
  rewrite sqrt_square by assumption. reflexivity.
Qed.

Lemma flatten_mscale (c : R) (m : Mat) :
  flatten (mscale c m) = vscale c (flatten m).
Proof.
  unfold flatten, mscale, vscale.
  induction m as [|row m IH]; simpl; [reflexivity|].
  now rewrite map_app, IH.
Qed.

Lemma norm2_nil : norm2 [] = 0%R.
Proof. unfold norm2. simpl. apply sqrt_0. Qed.

(** The factor of one sample and what it does to the sample's norm. *)
Lemma clamp_factor_bound (mgn n : R) :
  (0 <= mgn)%R -> (0 <= n)%R ->
  (0 <= Rmin (mgn / (n + eps)) 1 <= 1 /\ Rmin (mgn / (n + eps)) 1 * n <= mgn)%R.
Proof.
  intros Hm Hn. pose proof eps_pos as He.
  assert (0 <= mgn / (n + eps))%R as Hx.
  { apply Rmult_le_pos; [assumption|]. left. apply Rinv_0_lt_compat. lra. }
  assert (mgn / (n + eps) * (n + eps) = mgn)%R as Hmul by (field; lra).
  pose proof (Rmin_l (mgn / (n + eps)) 1) as Hl.
  pose proof (Rmin_r (mgn / (n + eps)) 1) as Hr.
  assert (0 <= Rmin (mgn / (n + eps)) 1)%R as H0
      by (apply Rmin_glb; lra).
  repeat split; try assumption.
  set (x := (mgn / (n + eps))%R) in *. set (f := Rmin x 1) in *. nra.
Qed.

Lemma per_sample_norms_of_Ok (cols : list Vec) (norms : Vec) :
  per_sample_norms_of cols = Ok norms ->
  exists c cs,
    cols = c :: cs /\ length norms = length c /\
    norms = map (fun i => norm2 (map (fun col => nth i col 0%R) cols))
                (seq 0 (length c)).
Proof.
  unfold per_sample_norms_of. destruct cols as [|c cs]; [discriminate|].
  match goal with
  | |- (if ?b then _ else _) = _ -> _ => destruct b
  end; [|discriminate].
  intro H; inversion H; subst. exists c, cs.
  repeat split. now rewrite length_map, length_seq.
Qed.

Lemma per_sample_norms_nonneg (cols : list Vec) (norms : Vec) :
  per_sample_norms_of cols = Ok norms -> Forall (fun n => (0 <= n)%R) norms.
Proof.
  intro H. apply per_sample_norms_of_Ok in H.
  destruct H as (c & cs & _ & _ & ->).
  apply Forall_forall. intros n Hn. apply in_map_iff in Hn as [i [<- _]].
  apply norm2_nonneg.
Qed.

Lemma clip_factor_Forall2 (mgn : R) (norms : Vec) :
  (0 <= mgn)%R -> Forall (fun n => (0 <= n)%R) norms ->
  Forall2 (fun n f => (0 <= f <= 1 /\ f * n <= mgn)%R) norms
          (map (fun n => Rmin 1 (mgn / (n + 1e-6))) norms).
Proof.
  intros Hm. induction 1 as [|n norms Hn _ IH]; simpl; constructor;
    [|assumption].
  rewrite Rmin_comm. apply clamp_factor_bound; assumption.
Qed.

Lemma Forall2_nth_default {A B : Type} (R : A -> B -> Prop) (a : list A) (b : list B) :
  Forall2 R a b ->
  forall i d1 d2, (i < length a)%nat -> R (nth i a d1) (nth i b d2).
Proof.
  induction 1 as [|x y a b Hxy _ IH]; intros [|i] d1 d2 Hi; simpl in *;
    try lia; [assumption|]. apply IH. lia.
Qed.

Lemma per_sample_clip_factor_clipping cfg mgn norms :
  is_debugging cfg && (debugging_type cfg =? "without_noise_clipping")%string = false ->
  per_sample_clip_factor cfg mgn norms
  = map (fun n => Rmin 1 (mgn / (n + 1e-6))) norms.
Proof.
  intro H. unfold per_sample_clip_factor. rewrite H.
  apply map_ext. intro n. apply Rmin_comm.
Qed.

(** The norm over all parameters of the clipped per-sample gradients of
    sample [i] is the factor of the sample times its per-sample norm. *)
Lemma clipped_sample_norm_scale (factor : Vec) (gss : list (list Mat)) (i : nat) :
  (0 <= nth i factor 0)%R ->
  clipped_sample_norm factor gss i
  = (nth i factor 0 * norm2 (map (fun col => nth i col 0%R) (per_param_norms_of gss)))%R.
Proof.
  intro Hf. unfold clipped_sample_norm, clipped_sample, per_param_norms_of.
  rewrite map_map. rewrite <- norm2_scale by assumption.
  f_equal. unfold vscale. rewrite map_map. apply map_ext. intro gs.
  rewrite flatten_mscale, norm2_scale by assumption. f_equal.
  rewrite <- norm2_nil at 1.
  change (norm2 []) with ((fun sample => norm2 (flatten sample)) []).
  now rewrite map_nth.
Qed.

Ltac rebackward_case losses H Hdbg Hm :=
  unfold clip_and_accumulate_rebackward in H;
  destruct losses as [ls|]; [|discriminate];
  apply bind_Ok in H; destruct H as [cols [Hcols H]];
  apply bind_Ok in H; destruct H as [norms [Hnorms H]];
  apply bind_Ok in H; destruct H as [_ [_ H]];
  apply bind_Ok in H; destruct H as [ps1 [Hps1 H]];
  rewrite per_sample_clip_factor_clipping in Hps1 by assumption;
  exists cols, norms; split; [assumption|];
  split; [apply (clip_factor_Forall2 _ _ Hm (per_sample_norms_nonneg _ _ Hnorms))|];
  right; split; [discriminate|]; split; [assumption|];
  exists ps1; assumption.

(** C5 (amended).  Clip factor and clip bound.  Unless clipping is switched
    off for debugging ([config.is_debugging] with [debugging_type]
    "without_noise_clipping"), and with [max_grad_norm] not negative: when
    [clip_and_accumulate] returns, the factor it used for a sample with
    per-sample norm [n] is [min(1, max_grad_norm / (n + 1e-6))]; the factor
    lies in [0, 1] and the factor times the norm is at most
    [max_grad_norm].  In the materialized mode this factor is the one the
    per-sample gradients are weighted with, and the norm, over all
    parameters, of the weighted per-sample gradients of every sample is at
    most [max_grad_norm]; in the re-backward modes it is the weight of the
    sample's loss in the second backward pass. *)
Theorem clip_factor_and_bound cfg backward losses o o' :
  clip_and_accumulate cfg backward losses o = Ok o' ->
  is_debugging cfg && (debugging_type cfg =? "without_noise_clipping")%string = false ->
  (0 <= max_grad_norm o)%R ->
  exists cols norms,
    per_sample_norms_of cols = Ok norms /\
    let factor := map (fun n => Rmin 1 (max_grad_norm o / (n + 1e-6))) norms in
    Forall2 (fun n f => (0 <= f <= 1 /\ f * n <= max_grad_norm o)%R) norms factor /\
    ((dpsgd_mode cfg = MODE_DPSGD_B /\
      exists gss,
        grad_samples o = Ok gss /\ cols = per_param_norms_of gss /\
        map_result (clip_and_reduce_param cfg factor) (params o) = Ok (params o') /\
        forall i, (i < length norms)%nat ->
                  (clipped_sample_norm factor gss i <= max_grad_norm o)%R) \/
     (dpsgd_mode cfg <> MODE_DPSGD_B /\
      collect_per_param_norms cfg (params o) = Ok cols /\
      exists ps, loss_backward (params o) (backward factor) = Ok ps)).
Proof.
  intros H Hdbg Hm. unfold clip_and_accumulate in H.
  destruct (dpsgd_mode cfg) eqn:Hmode; try discriminate.
  - (* materialized *)
    unfold clip_and_accumulate_materialized in H.
    apply bind_Ok in H. destruct H as [_ [_ H]].
    apply bind_Ok in H. destruct H as [gss [Hgss H]].
    apply bind_Ok in H. destruct H as [g0 [_ H]].
    apply bind_Ok in H. destruct H as [norms [Hnorms H]].
    destruct (length g0 =? 0)%nat; [discriminate|].
    apply bind_Ok in H. destruct H as [ps [Hps H]].
    inversion H; subst o'; clear H.
    rewrite per_sample_clip_factor_clipping in Hps by assumption.
    pose proof (clip_factor_Forall2 _ _ Hm (per_sample_norms_nonneg _ _ Hnorms))
      as Hall.
    exists (per_param_norms_of gss), norms. split; [assumption|].
    split; [assumption|]. left. split; [reflexivity|].
    exists gss. repeat split; try assumption.
    intros i Hi.
    pose proof (Forall2_nth_default _ _ _ Hall i 0%R 0%R Hi) as [[Hf _] Hb].
    rewrite clipped_sample_norm_scale by assumption.
    destruct (per_sample_norms_of_Ok _ _ Hnorms) as (c & cs & Hcols & Hlen & Hn).
    assert (nth i norms 0%R
            = norm2 (map (fun col => nth i col 0%R) (per_param_norms_of gss)))
      as Hni.
    { rewrite Hn.
      set (F := fun i => norm2 (map (fun col : list R => nth i col 0%R)
                                    (per_param_norms_of gss))).
      rewrite nth_indep with (d' := F (length c))
        by (rewrite length_map, length_seq; lia).
      rewrite map_nth, seq_nth by lia. reflexivity. }
    rewrite <- Hni. assumption.
  - rebackward_case losses H Hdbg Hm.
  - rebackward_case losses H Hdbg Hm.
  - rebackward_case losses H Hdbg Hm.
  - rebackward_case losses H Hdbg Hm.
Qed.

Lemma clip_factor_and_bound_witness :
  exists o1 cols norms,
    clip_and_accumulate materialized_config no_backward None materialized_opt = Ok o1 /\
    per_sample_norms_of cols = Ok norms /\
    Forall2 (fun n f => (0 <= f <= 1 /\ f * n <= 1)%R) norms
            (map (fun n => Rmin 1 (1 / (n + 1e-6))) norms).
Proof.
  destruct (clip_and_accumulate materialized_config no_backward None materialized_opt)
    as [o1|e] eqn:E; [|cbn in E; discriminate E].
  assert (0 <= max_grad_norm materialized_opt)%R as Hm by (simpl; lra).
  destruct (clip_factor_and_bound materialized_config no_backward None
              materialized_opt o1 E eq_refl Hm)
    as (cols & norms & Hnorms & Hall & _).
  exists o1, cols, norms. split; [reflexivity|]. split; [exact Hnorms | exact Hall].
Defined.

Lemma norm2_single (x : R) : (0 <= x)%R -> norm2 [x] = x.
Proof.
  intro Hx. unfold norm2. simpl. rewrite Rplus_0_r. now apply sqrt_square.
Qed.

Lemma norm2_3_4 (a b : R) : a = 3%R -> b = 4%R -> norm2 [a; b] = 5%R.
Proof.
  intros -> ->. unfold norm2. simpl.
  replace (3 * 3 + (4 * 4 + 0))%R with (5 * 5)%R by lra.
  apply sqrt_square. lra.
Qed.

(** C5 as stated fails when clipping is switched off for debugging: the
    first sample of the batch has per-sample norm 5 and [max_grad_norm] is
    1, yet the factor that [clip_and_accumulate] uses is 1, not
    [min(1, 1 / (5 + 1e-6))], and the norm of the weighted per-sample
    gradient is 5. *)
Lemma clipping_switched_off_when_debugging :
  let gss := [gs_samples batch_one] in
  let mgn := max_grad_norm materialized_opt in
  grad_samples materialized_opt = Ok gss /\
  exists norms o1,
    per_sample_norms_of (per_param_norms_of gss) = Ok norms /\
    nth 0 norms 0%R = 5%R /\
    let factor := per_sample_clip_factor no_clipping_config mgn norms in
    clip_and_accumulate no_clipping_config no_backward None materialized_opt = Ok o1 /\
    map_result (clip_and_reduce_param no_clipping_config factor)
               (params materialized_opt) = Ok (params o1) /\
    nth 0 factor 0%R = 1%R /\
    nth 0 factor 0%R <> Rmin 1 (mgn / (nth 0 norms 0%R + 1e-6)) /\
    (clipped_sample_norm factor gss 0 > mgn + 1e-6)%R.
Proof.
  cbv zeta. split; [reflexivity|].
  eexists. eexists. split; [reflexivity|].
  assert (norm2 [norm2 [3; 4]] = 5)%R as H5.
  { rewrite (norm2_3_4 3 4) by reflexivity. apply norm2_single. lra. }
  split; [exact H5|].
  split; [reflexivity|]. split; [reflexivity|]. split; [reflexivity|].
  split.
  - cbn [nth map seq length per_param_norms_of gs_samples batch_one flatten concat app].
    rewrite H5. simpl.
    pose proof (Rmin_r 1 (1 / (5 + 1e-6))) as Hr.
    assert (1 / (5 + 1e-6) < 1)%R.
    { apply Rmult_lt_reg_r with (r := (5 + 1e-6)%R); [lra|].
      unfold Rdiv. rewrite Rmult_assoc, Rinv_l by lra. lra. }
    lra.
  - unfold clipped_sample_norm, clipped_sample. simpl.
    rewrite (norm2_3_4 (1 * 3) (1 * 4)) by lra.
    rewrite norm2_single by lra. lra.
Qed.

(** ** Skipped steps and accumulation *)

Lemma clip_and_accumulate_materialized_needs_cleared cfg losses o o' :
  clip_and_accumulate_materialized cfg losses o = Ok o' ->
  Forall (fun p => summed_grad p = None) (params o) /\
  params o <> [] /\
  Forall (fun p => summed_grad p <> None) (params o') /\
  length (params o') = length (params o).
Proof.
  unfold clip_and_accumulate_materialized. intro H.
  apply bind_Ok in H. destruct H as [_ [_ H]].
  apply bind_Ok in H. destruct H as [gss [Hgss H]].
  apply bind_Ok in H. destruct H as [g0 [Hg0 H]].
  apply bind_Ok in H. destruct H as [norms [_ H]].
  apply bind_Ok in H. destruct H as [ps [Hps H]].
  inversion H; subst o'; clear H. simpl params.
  split; [|split; [|split]].
  - clear - Hps. revert ps Hps.
    induction (params o) as [|p l IH]; intros ps Hps; [constructor|].
    simpl in Hps. bind_inv Hps. bind_inv Hps.
    apply clip_and_reduce_param_Ok in E. destruct E as [Hnone _].
    constructor; eauto.
  - intro Hnil. unfold grad_samples in Hgss. rewrite Hnil in Hgss.
    inversion Hgss; subst. discriminate.
  - clear - Hps. revert ps Hps.
    induction (params o) as [|p l IH]; intros ps Hps; simpl in Hps.
    + inversion Hps; constructor.
    + bind_inv Hps. bind_inv Hps. inversion Hps; subst; clear Hps.
      apply clip_and_reduce_param_Ok in E. destruct E as [_ (gs & g & _ & ->)].
      constructor; [simpl; discriminate | eauto].
  - apply (map_result_nth _ _ _ Hps).
Qed.




Lemma loss_backward_length (ps : list Param) :
  forall gs ps', loss_backward ps gs = Ok ps' -> length ps' = length ps.
Proof.
  induction ps as [|p tl IH]; intros gs ps' H; simpl in H.
  - inversion H; reflexivity.
  - apply bind_Ok in H. destruct H as [p' [_ H]].
    apply bind_Ok in H. destruct H as [tl' [Htl H]].
    inversion H; subst. simpl. f_equal. eapply IH; eassumption.
Qed.

Lemma coalesce_emb_grads_length (f : option Tensor -> result Tensor) (n : nat) :
  forall ps ps', coalesce_emb_grads f n ps = Ok ps' -> length ps' = length ps.
Proof.
  induction n as [|n IH]; intros ps ps' H.
  - destruct ps; inversion H; reflexivity.
  - destruct ps as [|p tl]; [inversion H; reflexivity|]. simpl in H.
    apply bind_Ok in H. destruct H as [t' [_ H]].
    apply bind_Ok in H. destruct H as [tl' [Htl H]].
    inversion H; subst. simpl. f_equal. eapply IH; eassumption.
Qed.

Lemma coalesce_emb_grads_nth (f : option Tensor -> result Tensor) (n : nat) :
  forall ps ps', coalesce_emb_grads f n ps = Ok ps' ->
  (forall k p, (k < n)%nat -> nth_error ps k = Some p ->
     exists t', f (grad p) = Ok t' /\ nth_error ps' k = Some (set_grad (Some t') p)) /\
  (forall k, (n <= k)%nat -> nth_error ps' k = nth_error ps k).
Proof.
  induction n as [|n IH]; intros ps ps' H.
  - assert (ps' = ps) as -> by (destruct ps; inversion H; reflexivity).
    split; [intros k p Hk; lia|reflexivity].
  - destruct ps as [|q tl].
    + inversion H; subst. split; [intros [|k] p _ Hk; discriminate|reflexivity].
    + simpl in H. apply bind_Ok in H. destruct H as [t' [Ht H]].
      apply bind_Ok in H. destruct H as [tl' [Htl H]]. inversion H; subst.
      destruct (IH _ _ Htl) as [IH1 IH2]. split.
      * intros [|k] p Hk Hp; simpl in Hp.
        -- inversion Hp; subst. exists t'. split; [exact Ht|reflexivity].
        -- apply (IH1 k p); [lia|exact Hp].
      * intros [|k] Hk; [lia|]. simpl. apply IH2. lia.
Qed.

(** The state that the re-backward branch returns, in terms of what the
    backward pass and the coalescing left in [p.grad]. *)
Lemma clip_and_accumulate_rebackward_Ok cfg backward losses o o' :
  clip_and_accumulate_rebackward cfg backward losses o = Ok o' ->
  exists ls norms ps1 ps2,
    losses = Some ls /\
    loss_backward (params o)
      (backward (per_sample_clip_factor cfg (max_grad_norm o) norms)) = Ok ps1 /\
    (if negb (Mode_eqb (dpsgd_mode cfg) MODE_LAZYDP)
     then
       if (coalesce_optimize cfg =? "baseline")%string
       then coalesce_emb_grads coalesce_method (length (emb_l o)) ps1
       else if (coalesce_optimize cfg =? "multi_thread_openmp")%string
       then coalesce_emb_grads coalesce_multi_thread_openmp (length (emb_l o)) ps1
       else if (coalesce_optimize cfg =? "multi_thread_embeddingbag")%string
       then coalesce_emb_grads coalesce_multi_thread_embeddingbag
                               (length (emb_l o)) ps1
       else Ok ps1
     else Ok ps1) = Ok ps2 /\
    params o' = map (fun p => set_grad None (set_summed_grad (grad p) p)) ps2.
Proof.
  unfold clip_and_accumulate_rebackward. intro H.
  destruct losses as [ls|]; [|discriminate].
  apply bind_Ok in H. destruct H as [cols [_ H]].
  apply bind_Ok in H. destruct H as [norms [_ H]].
  apply bind_Ok in H. destruct H as [u [_ H]].
  apply bind_Ok in H. destruct H as [ps1 [H1 H]].
  apply bind_Ok in H. destruct H as [ps2 [H2 H]].
  inversion H; subst. exists ls, norms, ps1, ps2. repeat split; assumption.
Qed.

Lemma clip_and_accumulate_not_materialized cfg backward losses o o' :
  dpsgd_mode cfg <> MODE_DPSGD_B ->
  clip_and_accumulate cfg backward losses o = Ok o' ->
  clip_and_accumulate_rebackward cfg backward losses o = Ok o'.
Proof.
  unfold clip_and_accumulate. intros Hm H.
  destruct (dpsgd_mode cfg); try assumption; [contradiction|discriminate].
Qed.





(* ------------------------------------------------------------------ *)
(** ** The row ids announced for the next batch *)










(** X2. After [set_lS_i(None)] the optimizer holds no row ids:
    [set_emb_to_noise_update] returns without a change, while
    [set_HT_increase_cnt_iter] raises a [TypeError] and, with one of the two
    known unique-extraction strategies configured, so does every later
    [set_lS_i] with a non-empty list, since the list that the constructor
    allocated is gone. *)
Theorem set_lS_i_None_is_final cfg o x tl :
  unique_optimize cfg = "baseline" \/ unique_optimize cfg = "multi_thread" ->
  exists o',
    set_lS_i cfg None o = Ok o' /\ lS_i_nxt o' = None /\
    set_emb_to_noise_update o' = Ok o' /\
    set_HT_increase_cnt_iter o' = Raise TypeError /\
    set_lS_i cfg (Some (x :: tl)) o' = Raise TypeError.
Proof.
  intros Hk. exists (set_lS_i_nxt None o).
  split; [reflexivity|]. split; [reflexivity|]. split; [reflexivity|].
  split; [reflexivity|].
  unfold set_lS_i, unique_by_config. simpl.
  destruct Hk as [-> | ->]; reflexivity.
Qed.

Lemma set_lS_i_None_is_final_witness :
  exists o',
    set_lS_i lazydp_config None opt_iter1 = Ok o' /\ lS_i_nxt o' = None /\
    set_emb_to_noise_update o' = Ok o' /\
    set_HT_increase_cnt_iter o' = Raise TypeError /\
    set_lS_i lazydp_config (Some [[1; 3]]) o' = Raise TypeError.
Proof.
  apply (set_lS_i_None_is_final lazydp_config opt_iter1 [1; 3] []).
  left. reflexivity.
Defined.

(* ------------------------------------------------------------------ *)
(** ** The queue of skip signals *)

Lemma signal_skip_steps_queue (flags : list bool) :
  forall o, step_skip_queue (signal_skip_steps flags o) = step_skip_queue o ++ flags.
Proof.
  unfold signal_skip_steps.
  induction flags as [|b tl IH]; intro o; simpl.
  - symmetry. apply app_nil_r.
  - rewrite IH. simpl. rewrite <- app_assoc. reflexivity.
Qed.

Lemma check_skips_queue (n : nat) :
  forall o,
    fst (check_skips n o)
      = firstn n (step_skip_queue o) ++ repeat false (n - length (step_skip_queue o)) /\
    snd (check_skips n o)
      = set_step_skip_queue (skipn n (step_skip_queue o)) o.
Proof.
  induction n as [|n IH]; intro o.
  - simpl. split; [reflexivity|]. destruct o; reflexivity.
  - simpl. unfold _check_skip_next_step.
    destruct (step_skip_queue o) as [|b q] eqn:Eq.
    + specialize (IH o). destruct (check_skips n o) as [bs o2]. simpl in *.
      destruct IH as [IH1 IH2]. rewrite Eq in IH1, IH2.
      rewrite firstn_nil in IH1. rewrite skipn_nil in IH2. simpl in IH1.
      rewrite Nat.sub_0_r in IH1. subst. split; reflexivity.
    + specialize (IH (set_step_skip_queue q o)).
      destruct (check_skips n (set_step_skip_queue q o)) as [bs o2]. simpl in *.
      destruct IH as [IH1 IH2]. subst. split; reflexivity.
Qed.

(** X3. The skip signals form a first-in first-out queue.  After the flags
    [flags] were signalled to an optimizer whose queue was empty, [n] calls
    of [_check_skip_next_step()] return the flags in the order in which they
    were signalled and, once the queue is used up, [False]; the flags not
    yet returned stay queued.  A call with [pop_next=False] returns the
    oldest flag and leaves the queue as it is. *)
Theorem skip_signals_first_in_first_out (flags : list bool) (n : nat) (o : DPOptimizer) :
  step_skip_queue o = [] ->
  let o1 := signal_skip_steps flags o in
  fst (check_skips n o1) = firstn n flags ++ repeat false (n - length flags) /\
  step_skip_queue (snd (check_skips n o1)) = skipn n flags /\
  _check_skip_next_step false o1 = (hd false flags, o1).
Proof.
  intros Hq o1.
  assert (Hq1 : step_skip_queue o1 = flags).
  { unfold o1. rewrite signal_skip_steps_queue, Hq. reflexivity. }
  destruct (check_skips_queue n o1) as [H1 H2]. rewrite Hq1 in H1, H2.
  split; [exact H1|]. split; [rewrite H2; reflexivity|].
  unfold _check_skip_next_step. rewrite Hq1. destruct flags; reflexivity.
Qed.

Lemma skip_signals_first_in_first_out_witness :
  let o1 := signal_skip_steps [true; false] materialized_opt in
  fst (check_skips 3 o1) = [true; false; false] /\
  step_skip_queue (snd (check_skips 3 o1)) = [] /\
  _check_skip_next_step false o1 = (true, o1).
Proof.
  exact (skip_signals_first_in_first_out [true; false] 3 materialized_opt eq_refl).
Defined.

(* ------------------------------------------------------------------ *)
(** ** What a step leaves alone *)

Lemma same_outside_gradients_refl o : same_outside_gradients o o.
Proof. unfold same_outside_gradients, same_settings. repeat split. Qed.

Lemma same_outside_gradients_trans a b c :
  same_outside_gradients a b -> same_outside_gradients b c ->
  same_outside_gradients a c.
Proof.
  unfold same_outside_gradients, same_settings. intros H1 H2.
  destruct H1 as ((?&?&?&?&?&?&?&?&?)&?&?&?), H2 as ((?&?&?&?&?&?&?&?&?)&?&?&?).
  repeat split; congruence.
Qed.

(** A state that differs from [o] in its parameters, generator and noise
    deviations only. *)
Lemma same_outside_gradients_set ps g stds o :
  length ps = length (params o) ->
  same_outside_gradients o (set_generator g (set_stds stds (set_params ps o))).
Proof.
  intro H. unfold same_outside_gradients, same_settings. simpl.
  repeat split; assumption.
Qed.

Lemma same_outside_gradients_params ps o :
  length ps = length (params o) -> same_outside_gradients o (set_params ps o).
Proof.
  intro H. unfold same_outside_gradients, same_settings. simpl.
  repeat split; assumption.
Qed.

Lemma clip_and_accumulate_frame cfg backward losses o o' :
  clip_and_accumulate cfg backward losses o = Ok o' -> same_outside_gradients o o'.
Proof.
  unfold clip_and_accumulate. intro H.
  assert (Hre : clip_and_accumulate_rebackward cfg backward losses o = Ok o' ->
                same_outside_gradients o o').
  { clear H. unfold clip_and_accumulate_rebackward. intro H.
    destruct losses as [ls|]; [|discriminate].
    apply bind_Ok in H. destruct H as [cols [_ H]].
    apply bind_Ok in H. destruct H as [norms [_ H]].
    apply bind_Ok in H. destruct H as [u [_ H]].
    apply bind_Ok in H. destruct H as [ps1 [H1 H]].
    apply bind_Ok in H. destruct H as [ps2 [H2 H]].
    inversion H; subst. apply same_outside_gradients_params.
    rewrite length_map. apply loss_backward_length in H1. rewrite <- H1.
    destruct (negb (Mode_eqb (dpsgd_mode cfg) MODE_LAZYDP));
      [|inversion H2; reflexivity].
    destruct (coalesce_optimize cfg =? "baseline")%string;
      [eapply coalesce_emb_grads_length; eassumption|].
    destruct (coalesce_optimize cfg =? "multi_thread_openmp")%string;
      [eapply coalesce_emb_grads_length; eassumption|].
    destruct (coalesce_optimize cfg =? "multi_thread_embeddingbag")%string;
      [eapply coalesce_emb_grads_length; eassumption|].
    inversion H2; reflexivity. }
  destruct (dpsgd_mode cfg); try discriminate; try (apply Hre; assumption).
  clear Hre. unfold clip_and_accumulate_materialized in H.
  apply bind_Ok in H. destruct H as [u [_ H]].
  apply bind_Ok in H. destruct H as [gss [_ H]].
  apply bind_Ok in H. destruct H as [g0 [_ H]].
  apply bind_Ok in H. destruct H as [norms [_ H]].
  apply bind_Ok in H. destruct H as [ps [Hps H]].
  inversion H; subst. apply same_outside_gradients_params.
  apply (map_result_nth _ _ _ Hps).
Qed.

Lemma add_noise_loop_length cfg o (ps : list Param) :
  forall g r, add_noise_loop cfg o ps g = Ok r -> length (fst r) = length ps.
Proof.
  induction ps as [|p tl IH]; intros g r H; simpl in H.
  - inversion H; reflexivity.
  - apply bind_Ok in H. destruct H as [r1 [_ H]].
    apply bind_Ok in H. destruct H as [r2 [H2 H]].
    inversion H; subst. simpl. f_equal. eapply IH; eassumption.
Qed.

Lemma add_noise_frame cfg o o' :
  add_noise cfg o = Ok o' -> same_outside_gradients o o'.
Proof.
  unfold add_noise. intro H. apply bind_Ok in H. destruct H as [r [Hr H]].
  inversion H; subst. apply add_noise_loop_length in Hr.
  unfold same_outside_gradients, same_settings. simpl. repeat split; assumption.
Qed.

Lemma set_emb_to_noise_update_loop_outside lS :
  forall i o o', set_emb_to_noise_update_loop i lS o = Ok o' ->
                 same_outside_gradients o o'.
Proof.
  induction lS as [|idx lS IH]; intros i o o' H; simpl in H.
  - inversion H; subst. apply same_outside_gradients_refl.
  - apply bind_Ok in H. destruct H as [tbl [_ H]].
    apply bind_Ok in H. destruct H as [h [_ H]].
    apply bind_Ok in H. destruct H as [stds [_ H]].
    apply IH in H. eapply same_outside_gradients_trans; [|exact H].
    unfold same_outside_gradients, same_settings. simpl. repeat split.
Qed.

Lemma set_emb_to_noise_update_frame o o' :
  set_emb_to_noise_update o = Ok o' -> same_outside_gradients o o'.
Proof.
  unfold set_emb_to_noise_update. destruct (lS_i_nxt o).
  - apply set_emb_to_noise_update_loop_outside.
  - intro H; inversion H; subst. apply same_outside_gradients_refl.
Qed.

Lemma delayed_noise_table_outside cfg dim i o o' :
  delayed_noise_table cfg dim i o = Ok o' -> same_outside_gradients o o'.
Proof.
  unfold delayed_noise_table. intro H.
  apply bind_Ok in H. destruct H as [[[t p] g] [_ H]].
  apply bind_Ok in H. destruct H as [t' [_ H]].
  apply bind_Ok in H. destruct H as [ps [Hps H]].
  inversion H; subst. apply py_setitem_length in Hps.
  unfold same_outside_gradients, same_settings. simpl. repeat split; assumption.
Qed.

Lemma do_delayed_noise_update_frame cfg o o' :
  do_delayed_noise_update cfg o = Ok o' -> same_outside_gradients o o'.
Proof.
  unfold do_delayed_noise_update. intro H.
  apply bind_Ok in H. destruct H as [shape0 [_ H]].
  revert H. generalize (seq 0 (length (emb_l o))) as l. revert o o'.
  intros o o' l. revert o o'.
  induction l as [|x l IH]; intros o1 o' H; simpl in H.
  - inversion H; subst. apply same_outside_gradients_refl.
  - apply bind_Ok in H. destruct H as [o2 [H2 H]].
    eapply same_outside_gradients_trans;
      [eapply delayed_noise_table_outside; eassumption|].
    apply IH. exact H.
Qed.

Lemma scale_grad_frame o o' : scale_grad o = Ok o' -> same_outside_gradients o o'.
Proof.
  unfold scale_grad. destruct (loss_reduction o =? "mean")%string; intro H.
  - apply bind_Ok in H. destruct H as [ps [Hps H]]. inversion H; subst.
    apply same_outside_gradients_params. apply (map_result_nth _ _ _ Hps).
  - inversion H; subst. apply same_outside_gradients_refl.
Qed.

(** The statements of [pre_step] after the check of the skip queue. *)
Lemma noise_pipeline_frame cfg o2 o5 :
  (o3 <- add_noise cfg o2 ;;
   o4 <- (if Mode_eqb (dpsgd_mode cfg) MODE_LAZYDP
          then o' <- set_emb_to_noise_update o3 ;; do_delayed_noise_update cfg o'
          else Ok o3) ;;
   if is_debugging cfg then scale_grad o4 else Ok o4) = Ok o5 ->
  same_outside_gradients o2 o5.
Proof.
  intro H.
  apply bind_Ok in H. destruct H as [o3 [H3 H]].
  apply bind_Ok in H. destruct H as [o4 [H4 H]].
  apply add_noise_frame in H3.
  eapply same_outside_gradients_trans; [exact H3|].
  assert (H34 : same_outside_gradients o3 o4).
  { destruct (Mode_eqb (dpsgd_mode cfg) MODE_LAZYDP).
    - apply bind_Ok in H4. destruct H4 as [o' [Ha Hb]].
      eapply same_outside_gradients_trans;
        [eapply set_emb_to_noise_update_frame
        |eapply do_delayed_noise_update_frame]; eassumption.
    - inversion H4; subst. apply same_outside_gradients_refl. }
  eapply same_outside_gradients_trans; [exact H34|].
  destruct (is_debugging cfg).
  - apply scale_grad_frame; assumption.
  - inversion H; subst. apply same_outside_gradients_refl.
Qed.

Lemma pre_step_cases cfg backward losses o r :
  pre_step cfg backward losses o = Ok r ->
  exists o1 o5,
    clip_and_accumulate cfg backward losses o = Ok o1 /\
    same_outside_gradients o1 o5 /\
    fst r = negb (hd false (step_skip_queue o1)) /\
    snd r = set_is_last_step_skipped (hd false (step_skip_queue o1))
              (set_step_skip_queue (tl (step_skip_queue o1)) o5).
Proof.
  unfold pre_step. intro H.
  apply bind_Ok in H. destruct H as [o1 [H1 H]].
  exists o1. unfold _check_skip_next_step in H.
  destruct (step_skip_queue o1) as [|b q] eqn:Eq.
  - apply bind_Ok in H. destruct H as [o3 [H3 H]].
    apply bind_Ok in H. destruct H as [o4 [H4 H]].
    apply bind_Ok in H. destruct H as [o5 [H5 H]].
    inversion H; subst. exists o5. split; [exact H1|].
    assert (Hf : same_outside_gradients o1 o5).
    { apply (noise_pipeline_frame cfg). rewrite H3. simpl. rewrite H4. simpl.
      destruct (is_debugging cfg); exact H5. }
    split; [exact Hf|]. split; [reflexivity|]. simpl.
    destruct Hf as (_ & Hq & _). rewrite Eq in Hq.
    destruct o5; simpl in *; subst; reflexivity.
  - destruct b.
    + inversion H; subst. exists o1.
      split; [exact H1|]. split; [apply same_outside_gradients_refl|].
      split; reflexivity.
    + apply bind_Ok in H. destruct H as [o3 [H3 H]].
      apply bind_Ok in H. destruct H as [o4 [H4 H]].
      apply bind_Ok in H. destruct H as [o5 [H5 H]].
      inversion H; subst.
      exists (set_step_skip_queue (false :: q) o5). split; [exact H1|].
      assert (Hf : same_outside_gradients (set_step_skip_queue q o1) o5).
      { apply (noise_pipeline_frame cfg). rewrite H3. simpl. rewrite H4. simpl.
        destruct (is_debugging cfg); exact H5. }
      split.
      { revert Hf. unfold same_outside_gradients, same_settings. simpl.
        intros ((?&?&?&?&?&?&?&?&?)&?&?&?). repeat split; congruence. }
      split; [reflexivity|]. simpl.
      destruct Hf as (_ & Hq & _). simpl in Hq.
      destruct o5; simpl in *; subst; reflexivity.
Qed.

(** X4. Every call of [pre_step] that returns takes exactly one flag off
    the queue of skip signals (none when the queue is empty).  It returns
    [True] exactly when that flag is not [True], and records the flag in
    [_is_last_step_skipped].  When the step is skipped, nothing but
    [clip_and_accumulate] has run: parameters, generator and noise
    deviations are as [clip_and_accumulate] left them. *)
Theorem pre_step_consumes_one_signal cfg backward losses o r :
  pre_step cfg backward losses o = Ok r ->
  fst r = negb (hd false (step_skip_queue o)) /\
  is_last_step_skipped (snd r) = hd false (step_skip_queue o) /\
  step_skip_queue (snd r) = tl (step_skip_queue o) /\
  (hd false (step_skip_queue o) = true ->
   exists o1,
     clip_and_accumulate cfg backward losses o = Ok o1 /\
     params (snd r) = params o1 /\ generator (snd r) = generator o1 /\
     stds_for_delayed_noise (snd r) = stds_for_delayed_noise o1).
Proof.
  intro H. destruct (pre_step_cases _ _ _ _ _ H) as (o1 & o5 & H1 & Hf & Hr & Hs).
  pose proof (clip_and_accumulate_frame _ _ _ _ _ H1) as (_ & Hq & _).
  rewrite Hq in Hr, Hs. split; [exact Hr|].
  split; [rewrite Hs; reflexivity|]. split; [rewrite Hs; reflexivity|].
  intro Hskip. exists o1. split; [exact H1|]. clear Hs Hr Hf.
  unfold pre_step in H. rewrite H1 in H. simpl in H.
  unfold _check_skip_next_step in H. rewrite Hq in H.
  destruct (step_skip_queue o) as [|b q]; [discriminate Hskip|].
  simpl in Hskip. subst b. inversion H; subst. simpl.
  repeat split; reflexivity.
Qed.

Lemma pre_step_consumes_one_signal_witness :
  exists r,
    pre_step materialized_config no_backward None
             (signal_skip_steps [true; false] materialized_opt) = Ok r /\
    fst r = false /\
    is_last_step_skipped (snd r) = true /\
    step_skip_queue (snd r) = [false].
Proof.
  destruct (pre_step materialized_config no_backward None
                     (signal_skip_steps [true; false] materialized_opt))
    as [r|e] eqn:E; [|cbn in E; discriminate E].
  destruct (pre_step_consumes_one_signal _ _ _ _ _ E) as (H1 & H2 & H3 & _).
  exists r. split; [reflexivity|]. split; [exact H1|]. split; [exact H2|exact H3].
Defined.

(** X5. A [step] that returns has changed neither the settings of the
    optimizer (noise multiplier, clipping bound, loss reduction, expected
    batch size, secure mode), nor the embedding tables it knows, the row ids
    announced for the next batch, the iteration counter or the history
    tables, and the optimizer has as many parameters as before. *)
Theorem step_keeps_settings cfg backward losses o o' :
  step cfg backward losses o = Ok o' ->
  same_settings o o' /\ length (params o') = length (params o).
Proof.
  unfold step. intro H. apply bind_Ok in H. destruct H as [r [Hr H]].
  inversion H; subst. clear H.
  destruct (pre_step_cases _ _ _ _ _ Hr) as (o1 & o5 & H1 & Hf & _ & Hs).
  apply clip_and_accumulate_frame in H1.
  pose proof (same_outside_gradients_trans _ _ _ H1 Hf) as (Hset & _ & _ & Hlen).
  rewrite Hs. split; [|exact Hlen].
  revert Hset. unfold same_settings. simpl. tauto.
Qed.

Lemma step_keeps_settings_witness :
  exists o',
    step rebackward_config second_backward (Some [1%R]) rebackward_opt = Ok o' /\
    same_settings rebackward_opt o' /\
    length (params o') = length (params rebackward_opt).
Proof.
  destruct (step rebackward_config second_backward (Some [1%R]) rebackward_opt)
    as [o'|e] eqn:E.
  - exists o'. split; [reflexivity|].
    exact (step_keeps_settings _ _ _ _ _ E).
  - exfalso. revert E. unfold step, pre_step. cbn.
    unfold add_noise. cbn. unfold add_noise_param. cbn. unfold _generate_noise.
    destruct (Req_dec_T (1 * 1) 0) as [H|_]; [lra|]. discriminate.
Defined.

(* ------------------------------------------------------------------ *)
(** ** Processed flags *)

(** X6. Marking and then checking is a round trip of the double-use guard:
    [_check_processed_flag] raises the "gradients haven't been cleared"
    [ValueError] on what [_mark_as_processed] returns exactly when the
    object is a tensor or a list with at least one tensor; on [None], an
    empty list, any other object or a missing attribute the guard stays
    silent.  On an unmarked tensor, or a list of unmarked tensors, the check
    passes. *)
Theorem mark_then_check_raises (obj : Attr GradSample) (t : option Tensor) :
  _check_processed_flag (_mark_as_processed obj)
  = match obj with
    | Has (GS_Tensor _) | Has (GS_List (_ :: _)) =>
        Raise (ValueError gradients_not_cleared)
    | _ => Ok tt
    end /\
  _check_processed_flag_grad (_mark_as_processed_grad t)
  = match t with
    | Some _ => Raise (ValueError gradients_not_cleared)
    | None => Ok tt
    end /\
  (forall l, Forall (fun g => gs_processed g = false) l ->
             _check_processed_flag (Has (GS_List l)) = Ok tt).
Proof.
  split; [|split].
  - destruct obj as [| |[g|[|g l]|]]; reflexivity.
  - destruct t; reflexivity.
  - intros l Hl. simpl. induction Hl as [|g l Hg Hl IH]; [reflexivity|].
    simpl. rewrite Hg. simpl. exact IH.
Qed.

(* ------------------------------------------------------------------ *)
(** ** [add_noise] *)

Lemma add_noise_param_marks cfg o p g p' g' :
  add_noise_param cfg o p g = Ok (p', g') ->
  p_device p' = p_device p /\
  match summed_grad p with
  | Some _ => exists sg', summed_grad p' = Some sg' /\ t_processed sg' = true
  | None =>
      summed_grad p' = None /\ g' = g /\
      Device_eqb (p_device p) Cpu
      && (Mode_eqb (dpsgd_mode cfg) MODE_LAZYDP || Mode_eqb (dpsgd_mode cfg) MODE_EANA)
      = true /\
      Mode_eqb (dpsgd_mode cfg) MODE_EANA = false
  end.
Proof.
  unfold add_noise_param. intro H.
  apply bind_Ok in H. destruct H as [u [_ H]].
  destruct (Device_eqb (p_device p) Cpu
            && (Mode_eqb (dpsgd_mode cfg) MODE_LAZYDP
                || Mode_eqb (dpsgd_mode cfg) MODE_EANA)) eqn:Eb.
  - destruct (Mode_eqb (dpsgd_mode cfg) MODE_EANA) eqn:Ee.
    + destruct (summed_grad p) as [sg|]; [|discriminate].
      apply bind_Ok in H. destruct H as [s [_ H]].
      apply bind_Ok in H. destruct H as [[[k noise] g1] [_ H]].
      inversion H; subst. split; [reflexivity|]. eexists. split; reflexivity.
    + inversion H; subst. split; [reflexivity|].
      destruct (summed_grad p) as [sg|] eqn:Es; simpl.
      * eexists. split; reflexivity.
      * repeat split; reflexivity.
  - destruct (summed_grad p) as [sg|].
    + destruct (tensor_shape sg) as [rows cols].
      apply bind_Ok in H. destruct H as [[[k noise] g1] [_ H]].
      apply bind_Ok in H. destruct H as [new_grad [_ H]].
      inversion H; subst. split; [reflexivity|]. eexists. split; reflexivity.
    + apply bind_Ok in H. destruct H as [r [_ H]]. discriminate.
Qed.

Lemma add_noise_loop_twice cfg o (ps : list Param) :
  forall g r, add_noise_loop cfg o ps g = Ok r ->
  Exists (fun p => summed_grad p <> None) ps ->
  forall o2 g2, add_noise_loop cfg o2 (fst r) g2
                = Raise (ValueError gradients_not_cleared).
Proof.
  induction ps as [|p tl IH]; intros g r H Hex o2 g2; [inversion Hex|].
  simpl in H. apply bind_Ok in H. destruct H as [[p' g1] [Hp H]].
  apply bind_Ok in H. destruct H as [r' [Htl H]]. inversion H; subst. clear H.
  simpl in *. destruct (add_noise_param_marks _ _ _ _ _ _ Hp) as [Hdev Hsg].
  destruct (summed_grad p) as [sg|] eqn:Es.
  - destruct Hsg as [sg' [Hs' Hm]].
    unfold add_noise_param. rewrite Hs'. simpl. rewrite Hm. reflexivity.
  - destruct Hsg as (Hs' & _ & Hb & He).
    assert (Htl' : Exists (fun q => summed_grad q <> None) tl).
    { inversion Hex; subst; [congruence|assumption]. }
    unfold add_noise_param. rewrite Hs', Hdev, Hb, He. simpl.
    rewrite (IH _ _ Htl Htl'). reflexivity.
Qed.

(** X7. [add_noise] is guarded against a second use of the same summed
    gradients.  After [add_noise] has returned, and when some parameter
    carries a summed gradient, a second [add_noise] with no [zero_grad] in
    between raises the "gradients haven't been cleared" [ValueError], in
    every training mode. *)
Theorem add_noise_twice_raises cfg o o' :
  add_noise cfg o = Ok o' ->
  Exists (fun p => summed_grad p <> None) (params o) ->
  add_noise cfg o' = Raise (ValueError gradients_not_cleared).
Proof.
  unfold add_noise. intros H Hex.
  apply bind_Ok in H. destruct H as [r [Hr H]]. inversion H; subst. simpl.
  rewrite (add_noise_loop_twice _ _ _ _ _ Hr Hex). reflexivity.
Qed.

Lemma add_noise_twice_raises_witness :
  exists o',
    add_noise merge_config merge_opt = Ok o' /\
    add_noise merge_config o' = Raise (ValueError gradients_not_cleared).
Proof.
  destruct (add_noise merge_config merge_opt) as [o'|e] eqn:E;
    [|cbn in E; discriminate E].
  exists o'. split; [reflexivity|].
  apply (add_noise_twice_raises merge_config merge_opt o' E).
  apply Exists_cons_hd. discriminate.
Defined.

Lemma add_noise_loop_nth cfg o (ps : list Param) :
  forall g r, add_noise_loop cfg o ps g = Ok r ->
  forall k p, nth_error ps k = Some p ->
  exists g1 p' g2,
    add_noise_param cfg o p g1 = Ok (p', g2) /\ nth_error (fst r) k = Some p'.
Proof.
  induction ps as [|q tl IH]; intros g r H k p Hk; [destruct k; discriminate|].
  simpl in H. apply bind_Ok in H. destruct H as [[q' g1] [Hq H]].
  apply bind_Ok in H. destruct H as [r' [Htl H]]. inversion H; subst. clear H.
  destruct k as [|k]; simpl in *.
  - inversion Hk; subst. exists g, q', g1. split; [assumption|reflexivity].
  - apply (IH _ _ Htl k p Hk).
Qed.

Lemma add_noise_param_bypass cfg o p g r :
  dpsgd_mode cfg = MODE_LAZYDP -> p_device p = Cpu ->
  add_noise_param cfg o p g = Ok r ->
  r = (set_grad (_mark_as_processed_grad (summed_grad p))
         (set_summed_grad (_mark_as_processed_grad (summed_grad p)) p), g).
Proof.
  intros Hm Hd. unfold add_noise_param. rewrite Hm, Hd. simpl. intro H.
  apply bind_Ok in H. destruct H as [u [_ H]]. inversion H. reflexivity.
Qed.

Lemma add_noise_loop_bypass cfg o (ps : list Param) :
  dpsgd_mode cfg = MODE_LAZYDP -> Forall (fun p => p_device p = Cpu) ps ->
  forall g r, add_noise_loop cfg o ps g = Ok r -> snd r = g.
Proof.
  intros Hm Hall. induction Hall as [|p tl Hp Htl IH]; intros g r H; simpl in H.
  - inversion H; reflexivity.
  - apply bind_Ok in H. destruct H as [r1 [Hr1 H]].
    apply bind_Ok in H. destruct H as [r2 [Hr2 H]]. inversion H; subst. simpl.
    apply (add_noise_param_bypass _ _ _ _ _ Hm Hp) in Hr1. subst r1. simpl in Hr2.
    apply IH in Hr2. exact Hr2.
Qed.

(** X8. In LazyDP mode [add_noise] adds no noise to a parameter kept in
    host memory (an embedding table): [p.grad] becomes [p.summed_grad]
    itself, marked as processed, with the data of the clipped sum
    unchanged.  When all parameters are in host memory the generator is not
    used at all. *)
Theorem add_noise_bypasses_host_tables cfg o o' :
  add_noise cfg o = Ok o' -> dpsgd_mode cfg = MODE_LAZYDP ->
  (forall k p, nth_error (params o) k = Some p -> p_device p = Cpu ->
     exists p',
       nth_error (params o') k = Some p' /\
       grad p' = summed_grad p' /\
       summed_grad p' = _mark_as_processed_grad (summed_grad p) /\
       option_map t_data (grad p') = option_map t_data (summed_grad p)) /\
  (Forall (fun p => p_device p = Cpu) (params o) -> generator o' = generator o).
Proof.
  unfold add_noise. intros H Hm.
  apply bind_Ok in H. destruct H as [r [Hr H]]. inversion H; subst. simpl. split.
  - intros k p Hk Hd.
    destruct (add_noise_loop_nth _ _ _ _ _ Hr k p Hk) as (g1 & p' & g2 & Hp & Hn).
    apply (add_noise_param_bypass _ _ _ _ _ Hm Hd) in Hp. inversion Hp; subst.
    eexists. split; [exact Hn|]. simpl. split; [reflexivity|].
    split; [reflexivity|]. destruct (summed_grad p); reflexivity.
  - intro Hall. apply (add_noise_loop_bypass _ _ _ Hm Hall _ _ Hr).
Qed.

Lemma add_noise_bypasses_host_tables_witness :
  exists o',
    add_noise merge_config merge_opt = Ok o' /\
    (exists p',
       nth_error (params o') 0 = Some p' /\
       grad p' = summed_grad p' /\
       summed_grad p' = _mark_as_processed_grad (summed_grad merge_param) /\
       option_map t_data (grad p') = option_map t_data (summed_grad merge_param)) /\
    generator o' = generator merge_opt.
Proof.
  destruct (add_noise merge_config merge_opt) as [o'|e] eqn:E;
    [|cbn in E; discriminate E].
  destruct (add_noise_bypasses_host_tables merge_config merge_opt o' E eq_refl)
    as [Hp Hg].
  exists o'. split; [reflexivity|]. split.
  - apply (Hp 0%nat merge_param); reflexivity.
  - apply Hg. repeat constructor.
Defined.

Lemma normal_row_length std cols g : length (normal_row std cols g) = cols.
Proof. unfold normal_row. rewrite length_map, length_seq. reflexivity. Qed.

Lemma torch_normal_shape std cols (rows : nat) :
  forall g, length (fst (torch_normal std rows cols g)) = rows /\
            Forall (fun r => length r = cols) (fst (torch_normal std rows cols g)).
Proof.
  induction rows as [|n IH]; intro g; simpl.
  - split; [reflexivity|constructor].
  - specialize (IH (advance cols g)).
    destruct (torch_normal std n cols (advance cols g)) as [rest g'].
    simpl in *. destruct IH as [IH1 IH2]. split; [f_equal; exact IH1|].
    constructor; [apply normal_row_length|exact IH2].
Qed.

Lemma constant_matrix_shape (c : R) (rows cols : nat) :
  length (repeat (repeat c cols) rows) = rows /\
  Forall (fun r => length r = cols) (repeat (repeat c cols) rows).
Proof.
  split; [apply repeat_length|].
  apply Forall_forall. intros r Hr. apply repeat_spec in Hr. subst.
  apply repeat_length.
Qed.

Lemma generate_noise_Ok_shape cfg std rows cols dev g secure kind m g' :
  _generate_noise cfg std rows cols dev g secure = Ok (kind, m, g') ->
  length m = rows /\ Forall (fun r => length r = cols) m /\
  secure = false /\ (is_debugging cfg = true -> g' = g).
Proof.
  unfold _generate_noise. intro H.
  destruct (Req_dec_T std 0); [discriminate|].
  destruct secure; [discriminate|].
  destruct (is_debugging cfg) eqn:Ed; cbn [andb] in H.
  - destruct (str_in (debugging_type cfg) ["without_noise"; "without_noise_clipping"]).
    + inversion H; subst.
      destruct (constant_matrix_shape 0 rows cols).
      split; [assumption|]. split; [assumption|]. split; reflexivity.
    + destruct (debugging_type cfg =? "one_as_noise")%string; [|discriminate].
      inversion H; subst.
      destruct (constant_matrix_shape 1 rows cols).
      split; [assumption|]. split; [assumption|]. split; reflexivity.
  - assert (Hn : forall k, (let '(m0, g0) := torch_normal std rows cols g in
                            Ok (k, m0, g0)) = Ok (kind, m, g') ->
                 length m = rows /\ Forall (fun r => length r = cols) m).
    { intros k Hk. pose proof (torch_normal_shape std cols rows g) as Hs.
      destruct (torch_normal std rows cols g) as [m0 g0]. inversion Hk; subst.
      exact Hs. }
    destruct (Device_eqb dev Cpu && negb (noise_base_optimize cfg =? "baseline")%string).
    + destruct (noise_base_optimize cfg =? "multi_thread")%string; [|discriminate].
      unfold normal_multi_thread in H. destruct (Hn _ H).
      split; [assumption|]. split; [assumption|]. split; [reflexivity|discriminate].
    + destruct (Hn _ H).
      split; [assumption|]. split; [assumption|]. split; [reflexivity|discriminate].
Qed.

(** X9. Whenever [_generate_noise] returns, the tensor it returns has the
    shape of the reference, in every branch (zeros, ones, the multi-threaded
    kernel, [torch.normal]); it never returns in secure mode; and in a
    debugging configuration it leaves the generator unused. *)
Theorem generate_noise_has_reference_shape cfg std rows cols dev g secure kind m g' :
  _generate_noise cfg std rows cols dev g secure = Ok (kind, m, g') ->
  length m = rows /\ Forall (fun r => length r = cols) m /\
  secure = false /\ (is_debugging cfg = true -> g' = g).
Proof. apply generate_noise_Ok_shape. Qed.

Lemma generate_noise_has_reference_shape_witness :
  length (ones 2 3) = 2%nat /\ Forall (fun r => length r = 3%nat) (ones 2 3) /\
  false = false /\ (is_debugging eana_config = true -> (fun _ : nat => 1%R) = (fun _ => 1%R)).
Proof.
  apply (generate_noise_has_reference_shape eana_config 1 2 3 Cpu (fun _ => 1%R)
           false NoiseOnes (ones 2 3) (fun _ => 1%R)).
  unfold _generate_noise. destruct (Req_dec_T 1 0) as [H|_]; [lra|]. reflexivity.
Defined.

Lemma madd_length (a b : Mat) :
  length a = length b -> length (madd a b) = length a.
Proof.
  revert b. induction a as [|x a IH]; intros [|y b] H; simpl in *;
    try reflexivity; try discriminate.
  f_equal. apply IH. congruence.
Qed.

Lemma row_set_length (m : Mat) : forall k v, length (row_set m k v) = length m.
Proof.
  induction m as [|row tl IH]; intros [|k] v; simpl; try reflexivity.
  f_equal. apply IH.
Qed.

Lemma index_add_assign_length (noise : Mat) (s : SparseCOO) :
  length (index_add_assign noise s) = length noise.
Proof.
  unfold index_add_assign.
  generalize (combine (sp_indices s) (sp_values s)) as l.
  assert (H : forall (l : list (Z * Vec)) (acc : Mat),
             length (fold_left (fun acc kv =>
                       row_set acc (Z.to_nat (fst kv))
                               (vadd (nth (Z.to_nat (fst kv)) noise []) (snd kv)))
                       l acc) = length acc).
  { induction l as [|kv l IH]; intro acc; simpl; [reflexivity|].
    rewrite IH. apply row_set_length. }
  intro l. apply H.
Qed.

Lemma coalesced_data_Ok t s :
  coalesced_data t = Ok s -> t_data t = Sparse s /\ sp_coalesced s = true.
Proof.
  unfold coalesced_data. destruct (t_data t) as [m|s0]; [discriminate|].
  destruct (sp_coalesced s0) eqn:E; [|discriminate].
  intro H; inversion H; subst. split; [reflexivity|exact E].
Qed.

Lemma add_noise_loop_prefix cfg o (ps : list Param) :
  forall g r, add_noise_loop cfg o ps g = Ok r ->
  forall k p, nth_error ps k = Some p ->
  exists r1 p' g2,
    add_noise_loop cfg o (firstn k ps) g = Ok r1 /\
    add_noise_param cfg o p (snd r1) = Ok (p', g2) /\
    nth_error (fst r) k = Some p'.
Proof.
  induction ps as [|q tl IH]; intros g r H k p Hk; [destruct k; discriminate|].
  simpl in H. apply bind_Ok in H. destruct H as [[q' g1] [Hq H]].
  apply bind_Ok in H. destruct H as [r' [Htl H]]. inversion H; subst. clear H.
  destruct k as [|k]; simpl in *.
  - inversion Hk; subst. exists ([], g), q', g1.
    split; [reflexivity|]. split; [assumption|reflexivity].
  - destruct (IH _ _ Htl k p Hk) as (r1 & p' & g2 & Hpre & Hp & Hn).
    exists (q' :: fst r1, snd r1), p', g2. rewrite Hq. simpl. rewrite Hpre. simpl.
    split; [reflexivity|]. split; assumption.
Qed.

(** X10. In EANA mode [add_noise] adds noise to a host-memory table only on
    the rows that its summed gradient holds: the gradient must be a
    coalesced sparse tensor; one noise matrix is generated with the shape of
    its values (one row per stored row), from the generator as the
    parameters before it left it, and added to the values in place.
    Afterwards [p.grad] is [p.summed_grad], a sparse tensor with the same
    row indices and the same shape whose values are the old values plus the
    noise, marked as processed. *)
Theorem eana_noise_on_accessed_rows_only cfg o o' k p :
  add_noise cfg o = Ok o' -> dpsgd_mode cfg = MODE_EANA ->
  nth_error (params o) k = Some p -> p_device p = Cpu ->
  exists sg s p' s' before kind noise g2,
    summed_grad p = Some sg /\ t_data sg = Sparse s /\ sp_coalesced s = true /\
    nth_error (params o') k = Some p' /\
    grad p' = Some (mkTensor (Sparse s') true) /\ summed_grad p' = grad p' /\
    sp_indices s' = sp_indices s /\
    length (sp_values s') = length (sp_values s) /\
    sp_nrows s' = sp_nrows s /\ sp_dim s' = sp_dim s /\
    sp_coalesced s' = true /\
    add_noise_loop cfg o (firstn k (params o)) (generator o) = Ok before /\
    _generate_noise cfg (noise_multiplier o * max_grad_norm o)
                    (length (sp_values s)) (Z.to_nat (sp_dim s)) Cpu
                    (snd before) (secure_mode o) = Ok (kind, noise, g2) /\
    length noise = length (sp_values s) /\
    sp_values s' = madd (sp_values s) noise.
Proof.
  unfold add_noise. intros H Hm Hk Hd.
  apply bind_Ok in H. destruct H as [r [Hr H]]. inversion H; subst. simpl.
  destruct (add_noise_loop_prefix _ _ _ _ _ Hr k p Hk)
    as (before & p' & g2 & Hpre & Hp & Hn).
  unfold add_noise_param in Hp. rewrite Hm, Hd in Hp. simpl in Hp.
  apply bind_Ok in Hp. destruct Hp as [u [_ Hp]].
  destruct (summed_grad p) as [sg|]; [|discriminate].
  apply bind_Ok in Hp. destruct Hp as [s [Hs Hp]].
  apply bind_Ok in Hp. destruct Hp as [[[kind noise] g3] [Hnoise Hp]].
  inversion Hp; subst. clear Hp.
  destruct (coalesced_data_Ok _ _ Hs) as [Hdata Hco].
  destruct (generate_noise_Ok_shape _ _ _ _ _ _ _ _ _ _ Hnoise) as (Hlen & _).
  exists sg, s. eexists. eexists. exists before, kind, noise, g2.
  split; [reflexivity|]. split; [exact Hdata|]. split; [exact Hco|].
  split; [exact Hn|]. simpl. split; [reflexivity|]. split; [reflexivity|].
  split; [reflexivity|].
  split; [apply madd_length; symmetry; exact Hlen|].
  split; [reflexivity|]. split; [reflexivity|]. split; [exact Hco|].
  split; [exact Hpre|]. split; [exact Hnoise|]. split; [exact Hlen|reflexivity].
Qed.

Lemma eana_noise_on_accessed_rows_only_witness :
  exists o' p' s',
    add_noise eana_config touched_opt = Ok o' /\
    nth_error (params o') 0 = Some p' /\
    grad p' = Some (mkTensor (Sparse s') true) /\
    summed_grad p' = grad p' /\
    sp_indices s' = [1; 3] /\
    sp_values s' = [[1 + 1; 1 + 1]; [2 + 1; 2 + 1]]%R.
Proof.
  destruct (add_noise eana_config touched_opt) as [o'|e] eqn:E.
  - destruct (eana_noise_on_accessed_rows_only eana_config touched_opt o' 0
                touched_param E eq_refl eq_refl eq_refl)
      as (sg & s & p' & s' & before & kind & noise & g2 & H1 & H2 & _ & H4 & H5
          & H6 & H7 & _ & _ & _ & _ & _ & H13 & _ & H15).
    inversion H1; subst sg. inversion H2; subst s. clear H1 H2.
    exists o', p', s'. split; [reflexivity|]. split; [exact H4|].
    split; [exact H5|]. split; [exact H6|]. split; [exact H7|].
    rewrite H15. revert H13. unfold _generate_noise.
    destruct (Req_dec_T (noise_multiplier touched_opt * max_grad_norm touched_opt) 0)
      as [H|_]; [simpl in H; lra|].
    cbn. intro H13. inversion H13. reflexivity.
  - exfalso. revert E. unfold add_noise. cbn. unfold add_noise_param. cbn.
    unfold _generate_noise.
    destruct (Req_dec_T (2 * 1) 0) as [H|_]; [lra|]. discriminate.
Defined.

Lemma row_set_nth (m : Mat) : forall k v j,
  nth j (row_set m k v) [] =
  if (j =? k)%nat && (k <? length m)%nat then v else nth j m [].
Proof.
  induction m as [|row tl IH]; intros k v j; simpl.
  - destruct j; rewrite andb_false_r; reflexivity.
  - destruct k as [|k]; destruct j as [|j]; simpl; try reflexivity.
    rewrite IH. reflexivity.
Qed.

(** Rows that no index names keep the content of [noise]. *)
Lemma index_add_rows_other (noise : Mat) (idx : list Z) :
  forall (vals : Mat) acc j,
  (forall i, In i idx -> Z.to_nat i <> j) ->
  nth j (fold_left
           (fun acc kv =>
              row_set acc (Z.to_nat (fst kv))
                      (vadd (nth (Z.to_nat (fst kv)) noise []) (snd kv)))
           (combine idx vals) acc) [] = nth j acc [].
Proof.
  induction idx as [|i tl IH]; intros vals acc j Hj; [reflexivity|].
  destruct vals as [|v vals]; [reflexivity|]. simpl.
  rewrite IH by (intros i' Hi'; apply Hj; right; exact Hi').
  rewrite row_set_nth.
  destruct (j =? Z.to_nat i)%nat eqn:E; [|reflexivity].
  apply Nat.eqb_eq in E. exfalso. apply (Hj i); [left; reflexivity|].
  symmetry. exact E.
Qed.

(** A row that exactly one index names holds the noise of the row plus
    the value stored for it. *)
Lemma index_add_rows_at (noise : Mat) (idx : list Z) :
  forall (vals : Mat) acc q i v,
  NoDup (map Z.to_nat idx) ->
  nth_error idx q = Some i -> nth_error vals q = Some v ->
  (Z.to_nat i < length acc)%nat ->
  nth (Z.to_nat i)
      (fold_left
         (fun acc kv =>
            row_set acc (Z.to_nat (fst kv))
                    (vadd (nth (Z.to_nat (fst kv)) noise []) (snd kv)))
         (combine idx vals) acc) [] = vadd (nth (Z.to_nat i) noise []) v.
Proof.
  induction idx as [|i0 tl IH]; intros vals acc q i v Hnd Hi Hv Hlt;
    [destruct q; discriminate|].
  destruct vals as [|v0 vals]; [destruct q; discriminate|].
  simpl in Hnd. inversion Hnd as [|? ? Hnotin Hnd']; subst. simpl.
  destruct q as [|q]; simpl in Hi, Hv.
  - inversion Hi; inversion Hv; subst.
    rewrite index_add_rows_other.
    + rewrite row_set_nth, Nat.eqb_refl.
      apply Nat.ltb_lt in Hlt. rewrite Hlt. reflexivity.
    + intros i' Hi' Heq. apply Hnotin. rewrite <- Heq.
      apply in_map. exact Hi'.
  - apply (IH vals _ q i v Hnd' Hi Hv). rewrite row_set_length. exact Hlt.
Qed.

(** X11. In the modes [MODE_DPSGD_B], [MODE_DPSGD_R] and [MODE_DPSGD_F]
    [add_noise] draws noise for every row of a host-memory table: the summed
    gradient must be a coalesced sparse tensor; one noise matrix is
    generated with the shape of the whole table, from the generator as the
    parameters before it left it, and the values of the gradient are added
    to it at the rows that the gradient names.  Afterwards [p.grad] is a new
    dense tensor with one row per row of the table: a row that the gradient
    does not name holds its noise alone, and a row that it names (once, and
    within the table) holds its noise plus the value of the gradient.
    [p.summed_grad] keeps its sparse data and is marked as processed. *)
Theorem eager_noise_on_every_row cfg o o' k p :
  add_noise cfg o = Ok o' ->
  dpsgd_mode cfg = MODE_DPSGD_B \/ dpsgd_mode cfg = MODE_DPSGD_R
  \/ dpsgd_mode cfg = MODE_DPSGD_F ->
  nth_error (params o) k = Some p -> p_device p = Cpu ->
  exists sg s p' m' before kind noise g2,
    summed_grad p = Some sg /\ t_data sg = Sparse s /\ sp_coalesced s = true /\
    nth_error (params o') k = Some p' /\
    grad p' = Some (fresh (Dense m')) /\
    length m' = Z.to_nat (sp_nrows s) /\
    summed_grad p' = Some (mkTensor (Sparse s) true) /\
    add_noise_loop cfg o (firstn k (params o)) (generator o) = Ok before /\
    _generate_noise cfg (noise_multiplier o * max_grad_norm o)
                    (Z.to_nat (sp_nrows s)) (Z.to_nat (sp_dim s)) Cpu
                    (snd before) (secure_mode o) = Ok (kind, noise, g2) /\
    length noise = Z.to_nat (sp_nrows s) /\
    m' = index_add_assign noise s /\
    (forall j, (forall i, In i (sp_indices s) -> Z.to_nat i <> j) ->
               nth j m' [] = nth j noise []) /\
    (NoDup (map Z.to_nat (sp_indices s)) ->
     forall q i v,
       nth_error (sp_indices s) q = Some i ->
       nth_error (sp_values s) q = Some v ->
       (Z.to_nat i < Z.to_nat (sp_nrows s))%nat ->
       nth (Z.to_nat i) m' [] = vadd (nth (Z.to_nat i) noise []) v).
Proof.
  unfold add_noise. intros H Hm Hk Hd.
  apply bind_Ok in H. destruct H as [r [Hr H]]. inversion H; subst. simpl.
  destruct (add_noise_loop_prefix _ _ _ _ _ Hr k p Hk)
    as (before & p' & g2 & Hpre & Hp & Hn).
  unfold add_noise_param in Hp. rewrite Hd in Hp.
  apply bind_Ok in Hp. destruct Hp as [u [_ Hp]].
  assert (Hb : Device_eqb Cpu Cpu
               && (Mode_eqb (dpsgd_mode cfg) MODE_LAZYDP
                   || Mode_eqb (dpsgd_mode cfg) MODE_EANA) = false).
  { destruct Hm as [-> | [-> | ->]]; reflexivity. }
  assert (Hc : Device_eqb Cpu Cpu
               && (Mode_eqb (dpsgd_mode cfg) MODE_DPSGD_B
                   || Mode_eqb (dpsgd_mode cfg) MODE_DPSGD_R
                   || Mode_eqb (dpsgd_mode cfg) MODE_DPSGD_F) = true).
  { destruct Hm as [-> | [-> | ->]]; reflexivity. }
  rewrite Hb in Hp.
  destruct (summed_grad p) as [sg|];
    [|apply bind_Ok in Hp; destruct Hp as [? [_ Hp]]; discriminate].
  destruct (tensor_shape sg) as [rows cols] eqn:Eshape.
  apply bind_Ok in Hp. destruct Hp as [[[kind noise] g3] [Hnoise Hp]].
  rewrite Hc in Hp.
  apply bind_Ok in Hp. destruct Hp as [new_grad [Hnew Hp]].
  apply bind_Ok in Hnew. destruct Hnew as [s [Hs Hnew]].
  inversion Hnew; subst. inversion Hp; subst. clear Hp Hnew.
  destruct (coalesced_data_Ok _ _ Hs) as [Hdata Hco].
  unfold tensor_shape in Eshape. rewrite Hdata in Eshape.
  injection Eshape as Hrows Hcols. rewrite <- Hrows, <- Hcols in Hnoise.
  clear Hrows Hcols rows cols.
  destruct (generate_noise_Ok_shape _ _ _ _ _ _ _ _ _ _ Hnoise) as (Hlen & _).
  exists sg, s. eexists. eexists. exists before, kind, noise, g2.
  split; [reflexivity|]. split; [exact Hdata|]. split; [exact Hco|].
  split; [exact Hn|]. simpl. split; [reflexivity|].
  split; [rewrite index_add_assign_length; exact Hlen|].
  split; [rewrite <- Hdata; reflexivity|].
  split; [exact Hpre|]. split; [exact Hnoise|]. split; [exact Hlen|].
  split; [reflexivity|]. split.
  - intros j Hj. unfold index_add_assign. apply index_add_rows_other. exact Hj.
  - intros Hnd q i v Hi Hv Hlt. unfold index_add_assign.
    apply (index_add_rows_at noise (sp_indices s) (sp_values s) noise q i v Hnd Hi Hv).
    rewrite Hlen. exact Hlt.
Qed.

Lemma eager_noise_on_every_row_witness :
  exists o' p',
    add_noise eager_config touched_opt = Ok o' /\
    nth_error (params o') 0 = Some p' /\
    grad p' = Some (fresh (Dense [[1; 1]; [1 + 1; 1 + 1];
                                  [1; 1]; [1 + 2; 1 + 2]]%R)) /\
    summed_grad p' = Some (mkTensor (t_data touched_grad) true).
Proof.
  destruct (add_noise eager_config touched_opt) as [o'|e] eqn:E.
  - destruct (eager_noise_on_every_row eager_config touched_opt o' 0
                touched_param E (or_intror (or_intror eq_refl)) eq_refl eq_refl)
      as (sg & s & p' & m' & before & kind & noise & g2 & H1 & H2 & _ & H4 & H5
          & _ & H7 & _ & H9 & _ & H11 & _).
    inversion H1; subst sg. inversion H2; subst s. clear H1 H2.
    exists o', p'. split; [reflexivity|]. split; [exact H4|].
    split; [|exact H7].
    rewrite H5, H11. revert H9. unfold _generate_noise.
    destruct (Req_dec_T (noise_multiplier touched_opt * max_grad_norm touched_opt) 0)
      as [H|_]; [simpl in H; lra|].
    cbn. intro H9. inversion H9. reflexivity.
  - exfalso. revert E. unfold add_noise. cbn. unfold add_noise_param. cbn.
    unfold _generate_noise.
    destruct (Req_dec_T (2 * 1) 0) as [H|_]; [lra|]. discriminate.
Defined.

(* ------------------------------------------------------------------ *)
(** ** The delayed-noise schedule over an iteration *)

Lemma gather_Forall (P : Z -> Prop) (t : list Z) :
  forall idx h, gather t idx = Ok h -> Forall P t ->
                Forall P h /\ length h = length idx.
Proof.
  induction idx as [|k tl IH]; intros h H Ht; simpl in H.
  - inversion H; subst. split; [constructor|reflexivity].
  - apply bind_Ok in H. destruct H as [pos [_ H]].
    apply bind_Ok in H. destruct H as [x [Hx H]].
    apply bind_Ok in H. destruct H as [rest [Hrest H]].
    inversion H; subst. destruct (IH _ Hrest Ht) as [IH1 IH2].
    apply py_index_Ok in Hx. apply nth_error_In in Hx.
    rewrite Forall_forall in Ht. split; [constructor; auto|simpl; congruence].
Qed.

Lemma map_constant {A B : Type} (f : A -> B) (a : A) (l : list A) :
  Forall (eq a) l -> map f l = repeat (f a) (length l).
Proof.
  induction 1 as [|x l Hx _ IH]; simpl; [reflexivity|]. subst. f_equal. exact IH.
Qed.

Lemma delayed_std_no_delay (nm mgn : R) (cnt : Z) :
  delayed_std nm mgn cnt cnt = 0%R.
Proof.
  unfold delayed_std. rewrite Z.sub_diag.
  replace (wrap32 0) with 0 by reflexivity. rewrite sqrt_0. ring.
Qed.

(** X12. The first access costs no noise.  In the state that the
    constructor leaves (iteration counter 0, history tables all zero),
    [set_emb_to_noise_update] assigns the deviation 0 to every announced
    row of every table: one entry per announced row id, all of them 0. *)
Theorem first_access_has_no_delay o o' lS :
  is_initial o -> lS_i_nxt o = Some lS ->
  set_emb_to_noise_update o = Ok o' ->
  forall i idx, nth_error lS i = Some idx ->
    nth_error (stds_for_delayed_noise o') i = Some (repeat 0%R (length idx)).
Proof.
  intros [Hc Hht] HlS Hset i idx Hi.
  unfold set_emb_to_noise_update in Hset. rewrite HlS in Hset.
  destruct (set_emb_to_noise_update_loop_spec _ _ _ _ Hset i idx Hi)
    as [tbl [hs [Ht [Hg Hs]]]]. simpl in Ht, Hs.
  assert (Hz : Forall (eq 0) tbl).
  { apply nth_error_In in Ht. rewrite Hht in Ht. unfold initial_HT in Ht.
    apply in_map_iff in Ht. destruct Ht as [shape [<- _]].
    apply Forall_forall. intros x Hx. apply repeat_spec in Hx. congruence. }
  destruct (gather_Forall _ _ _ _ Hg Hz) as [Hhs Hlen].
  rewrite Hs, (map_constant _ 0 hs Hhs), Hc, delayed_std_no_delay, Hlen.
  reflexivity.
Qed.

Lemma first_access_has_no_delay_witness :
  exists o',
    set_emb_to_noise_update opt_iter0 = Ok o' /\
    nth_error (stds_for_delayed_noise o') 0 = Some (repeat 0%R (length [1; 3])).
Proof.
  destruct (set_emb_to_noise_update opt_iter0) as [o'|e] eqn:E;
    [|cbn in E; discriminate E].
  exists o'. split; [reflexivity|].
  apply (first_access_has_no_delay opt_iter0 o' [[1; 3]]);
    [split; reflexivity | reflexivity | exact E | reflexivity].
Defined.

(** X13. The noise of an iteration is accounted for by the history table.
    Let [set_emb_to_noise_update] and then [set_HT_increase_cnt_iter] run
    with the same announced rows, in a state whose history entries are
    between 0 and the iteration counter.  Then for every row of every
    table: if the row is announced, its history entry becomes the iteration
    counter and the variance of the noise scheduled for it is
    [(noise_multiplier * max_grad_norm)^2] times the increase of its
    history entry; if the row is not announced, its history entry stays.
    So the variance scheduled for a row over successive iterations adds up
    to [(noise_multiplier * max_grad_norm)^2] times its history entry. *)
Theorem noise_charged_matches_history o o1 o2 lS :
  history_bounded o -> cnt_iter o <= INT32_MAX ->
  lS_i_nxt o = Some lS -> row_ids lS ->
  set_emb_to_noise_update o = Ok o1 ->
  set_HT_increase_cnt_iter o1 = Ok o2 ->
  cnt_iter o2 = cnt_iter o + 1 /\
  forall i tbl r h,
    nth_error (HT o) i = Some tbl -> nth_error tbl r = Some h ->
    exists tbl2 h2,
      nth_error (HT o2) i = Some tbl2 /\ nth_error tbl2 r = Some h2 /\
      (forall idx k,
          nth_error lS i = Some idx -> nth_error idx k = Some (Z.of_nat r) ->
          h2 = cnt_iter o /\
          exists stds std,
            nth_error (stds_for_delayed_noise o1) i = Some stds /\
            nth_error stds k = Some std /\
            (std ^ 2 = (noise_multiplier o * max_grad_norm o) ^ 2 * IZR (h2 - h))%R) /\
      ((forall idx, nth_error lS i = Some idx -> ~ In (Z.of_nat r) idx) -> h2 = h).
Proof.
  intros [Hc Hb] Hmax HlS Hids Hemb Hset.
  unfold set_emb_to_noise_update in Hemb. rewrite HlS in Hemb.
  destruct (set_emb_to_noise_update_loop_frame _ _ _ _ Hemb)
    as (Hht1 & Hc1 & _ & _ & HlS1 & _).
  destruct (set_HT_increase_cnt_iter_Ok _ _ Hset) as (lS' & ht & HlS' & Hloop & ->).
  rewrite HlS1, HlS in HlS'. inversion HlS'; subst lS'. clear HlS'.
  rewrite Hc1, Hht1 in Hloop. simpl. split; [rewrite Hc1; reflexivity|].
  intros i tbl r h Ht Hh.
  destruct (set_HT_loop_spec _ _ _ _ _ Hloop Hids i tbl r h Ht Hh)
    as (tbl2 & h2 & Ht2 & Hh2 & Hin & Hout).
  exists tbl2, h2. split; [exact Ht2|]. split; [exact Hh2|]. split.
  - intros idx k Hi Hk.
    assert (Hl : listed lS 0 i r).
    { exists idx. split; [lia|]. rewrite Nat.sub_0_r. split; [exact Hi|].
      eapply nth_error_In; eassumption. }
    specialize (Hin Hl). split; [exact Hin|].
    destruct (set_emb_to_noise_update_loop_spec _ _ _ _ Hemb i idx Hi)
      as [tbl' [hs [Ht' [Hg Hs]]]]. simpl in Ht', Hs.
    rewrite Ht in Ht'. inversion Ht'; subst tbl'. clear Ht'.
    assert (Hidx : Forall (fun k => 0 <= k) idx).
    { unfold row_ids in Hids. rewrite Forall_forall in Hids.
      apply Hids. eapply nth_error_In; eassumption. }
    destruct (gather_nth _ _ _ Hg Hidx) as [_ Hnth].
    destruct (Hnth _ _ Hk) as [x [Hx Hhs]].
    rewrite Nat2Z.id, Hh in Hx. inversion Hx; subst x. clear Hx.
    eexists. eexists. split; [exact Hs|].
    split; [rewrite nth_error_map, Hhs; reflexivity|].
    assert (Hbound : 0 <= h <= cnt_iter o).
    { rewrite Forall_forall in Hb.
      specialize (Hb tbl (nth_error_In _ _ Ht)). rewrite Forall_forall in Hb.
      apply Hb. eapply nth_error_In; eassumption. }
    unfold delayed_std. rewrite wrap32_small by lia. rewrite Hin.
    assert (Hpos : (0 <= IZR (cnt_iter o - h))%R) by (apply IZR_le; lia).
    pose proof (sqrt_sqrt _ Hpos) as Hsq.
    set (s := sqrt (IZR (cnt_iter o - h))) in *.
    rewrite <- Hsq. simpl. ring.
  - intro Hnot. apply Hout. intros (idx & _ & Hi & Hin').
    rewrite Nat.sub_0_r in Hi. exact (Hnot idx Hi Hin').
Qed.

Lemma noise_charged_matches_history_witness :
  exists o1 o2,
    set_emb_to_noise_update opt_iter2_next = Ok o1 /\
    set_HT_increase_cnt_iter o1 = Ok o2 /\
    cnt_iter o2 = cnt_iter opt_iter2_next + 1 /\
    exists tbl2 h2,
      nth_error (HT o2) 0 = Some tbl2 /\ nth_error tbl2 0 = Some h2 /\
      h2 = cnt_iter opt_iter2_next /\
      exists stds std,
        nth_error (stds_for_delayed_noise o1) 0 = Some stds /\
        nth_error stds 0 = Some std /\
        (std ^ 2 = (2 * 1) ^ 2 * IZR (h2 - 0))%R.
Proof.
  destruct (set_emb_to_noise_update opt_iter2_next) as [o1|e] eqn:E1;
    [|cbn in E1; discriminate E1].
  destruct (set_HT_increase_cnt_iter o1) as [o2|e] eqn:E2.
  - assert (Hb : history_bounded opt_iter2_next).
    { split; [simpl; lia|]. repeat constructor; simpl; lia. }
    assert (Hmax : cnt_iter opt_iter2_next <= INT32_MAX)
      by (unfold INT32_MAX; simpl; lia).
    assert (Hids : row_ids [[0; 1]]) by (repeat constructor; lia).
    destruct (noise_charged_matches_history opt_iter2_next o1 o2 [[0; 1]]
                Hb Hmax eq_refl Hids E1 E2) as [Hcnt Hrows].
    destruct (Hrows 0%nat [0; 1; 0; 1] 0%nat 0 eq_refl eq_refl)
      as (tbl2 & h2 & Ht2 & Hh2 & Hin & _).
    destruct (Hin [0; 1] 0%nat eq_refl eq_refl) as [Hh (stds & std & Hs & Hk & Hv)].
    exists o1, o2. split; [reflexivity|]. split; [exact E2|].
    split; [exact Hcnt|]. exists tbl2, h2.
    split; [exact Ht2|]. split; [exact Hh2|]. split; [exact Hh|].
    exists stds, std. split; [exact Hs|]. split; [exact Hk|exact Hv].
  - exfalso. cbn in E1. inversion E1; subst o1. cbn in E2. discriminate E2.
Defined.

(* ------------------------------------------------------------------ *)
(** ** The debugging types of [do_delayed_noise_update] *)

(** X14. The deviation that [set_emb_to_noise_update] stores encodes the
    number of iterations a row has waited, and the debugging type
    ["one_as_noise"] of [do_delayed_noise_update] decodes it exactly: for a
    deviation computed from the counter [cnt] and the history entry [h],
    the noise row holds [1 * (cnt - h)] in every column.  The rows reserved
    for the real gradient are zero, and the generator is not used. *)
Theorem one_as_noise_counts_delay cfg o std dim n v g' :
  is_debugging cfg = true -> debugging_type cfg = "one_as_noise" ->
  noise_multiplier o <> 0%R -> max_grad_norm o <> 0%R ->
  delayed_noise_rows cfg o std dim (Ok n) = Ok (v, g') ->
  g' = generator o /\ length v = (length std + n)%nat /\
  (forall k cnt h,
      0 <= h <= cnt -> cnt <= INT32_MAX ->
      nth_error std k = Some (delayed_std (noise_multiplier o) (max_grad_norm o) cnt h) ->
      nth_error v k = Some (repeat (1 * IZR (cnt - h))%R dim)) /\
  (forall k, (length std <= k < length std + n)%nat ->
             nth_error v k = Some (repeat 0%R dim)).
Proof.
  intros Hd Ht Hnm Hmgn H. unfold delayed_noise_rows in H.
  rewrite Hd, Ht in H. cbn in H. inversion H; subst. clear H.
  split; [reflexivity|].
  split; [rewrite length_app, !length_map; unfold zeros; rewrite repeat_length;
          reflexivity|].
  split.
  - intros k cnt h Hb Hmax Hk.
    rewrite nth_error_app1
      by (rewrite !length_map; apply nth_error_Some; rewrite Hk; discriminate).
    rewrite !nth_error_map, Hk. simpl. f_equal.
    rewrite map_repeat. f_equal. unfold delayed_std.
    rewrite wrap32_small by lia.
    assert (Hpos : (0 <= IZR (cnt - h))%R) by (apply IZR_le; lia).
    pose proof (sqrt_sqrt _ Hpos) as Hsq.
    set (s := sqrt (IZR (cnt - h))) in *. rewrite <- Hsq. field. tauto.
  - intros k Hk.
    rewrite nth_error_app2 by (rewrite !length_map; lia).
    rewrite !length_map. unfold zeros.
    rewrite nth_error_repeat by lia. reflexivity.
Qed.

Lemma one_as_noise_counts_delay_witness :
  exists v,
    delayed_noise_rows one_as_noise_config opt_iter2_next [delayed_std 2 1 2 0] 2 (Ok 1%nat)
    = Ok (v, generator opt_iter2_next) /\
    nth_error v 0 = Some (repeat (1 * IZR (2 - 0))%R 2) /\
    nth_error v 1 = Some (repeat 0%R 2).
Proof.
  destruct (delayed_noise_rows one_as_noise_config opt_iter2_next
              [delayed_std 2 1 2 0] 2 (Ok 1%nat)) as [[v g']|e] eqn:E;
    [|cbn in E; discriminate E].
  assert (H2 : noise_multiplier opt_iter2_next <> 0%R) by (simpl; lra).
  assert (H1 : max_grad_norm opt_iter2_next <> 0%R) by (simpl; lra).
  destruct (one_as_noise_counts_delay one_as_noise_config opt_iter2_next
              [delayed_std 2 1 2 0] 2 1 v g' eq_refl eq_refl H2 H1 E)
    as (Hg & _ & Hrows & Hzero).
  exists v. subst g'. split; [reflexivity|]. split.
  - apply (Hrows 0%nat 2 0); [lia | unfold INT32_MAX; lia | reflexivity].
  - apply Hzero. simpl. lia.
Defined.

(** X15. LazyDP cannot take a step in the debugging type
    ["without_noise_clipping"].  [do_delayed_noise_update] compares the
    type with ["without_nosie_clipping"], so with rows announced, a table
    and its deviations present, it reaches [assert False] at the first
    table.  [_generate_noise], which spells the type as the configuration
    does, returns zeros in the same configuration. *)
Theorem lazydp_rejects_without_noise_clipping cfg o lS shape0 rest std0 :
  is_debugging cfg = true -> debugging_type cfg = "without_noise_clipping" ->
  lS_i_nxt o = Some lS -> emb_l o = shape0 :: rest ->
  nth_error (stds_for_delayed_noise o) 0 = Some std0 ->
  do_delayed_noise_update cfg o = Raise (AssertionError "") /\
  forall std rows cols dev g,
    std <> 0%R ->
    _generate_noise cfg std rows cols dev g false = Ok (NoiseZeros, zeros rows cols, g).
Proof.
  intros Hd Ht HlS Hemb Hstd. split.
  - unfold do_delayed_noise_update. rewrite Hemb. simpl.
    unfold delayed_noise_table. rewrite HlS.
    apply py_index_Ok in Hstd. rewrite Hstd. simpl.
    unfold delayed_noise_rows. rewrite Hd, Ht. reflexivity.
  - intros std rows cols dev g Hne. unfold _generate_noise.
    destruct (Req_dec_T std 0) as [H|_]; [contradiction|].
    rewrite Hd, Ht. reflexivity.
Qed.

Lemma lazydp_rejects_without_noise_clipping_witness :
  do_delayed_noise_update without_noise_clipping_config merge_opt
  = Raise (AssertionError "") /\
  forall std rows cols dev g,
    std <> 0%R ->
    _generate_noise without_noise_clipping_config std rows cols dev g false
    = Ok (NoiseZeros, zeros rows cols, g).
Proof.
  exact (lazydp_rejects_without_noise_clipping without_noise_clipping_config
           merge_opt [[7]] (10, 2) [] [2%R] eq_refl eq_refl eq_refl eq_refl eq_refl).
Defined.

(* ------------------------------------------------------------------ *)
(** ** Where the delayed noise lands *)

Lemma total_step_skip (r : Z) (l : list (Z * Vec)) :
  ~ In r (map fst l) -> forall acc, fold_left (total_step r) l acc = acc.
Proof.
  induction l as [|[k v] l IH]; intros Hn acc; simpl; [reflexivity|].
  simpl in Hn. unfold total_step at 2. simpl.
  destruct (k =? r) eqn:E; [apply Z.eqb_eq in E; tauto|].
  apply IH. tauto.
Qed.

Lemma row_total_absent (r : Z) (keys : list Z) (vals : Mat) :
  ~ In r keys -> row_total r (combine keys vals) = None.
Proof.
  intro Hn. unfold row_total. apply total_step_skip.
  intro Hin. apply Hn. apply in_map_iff in Hin.
  destruct Hin as [[k v] [Hk Hkv]]. simpl in Hk. subst k.
  eapply in_combine_l; eassumption.
Qed.

(** X16. [do_delayed_noise_update] adds delayed noise to announced rows
    only.  Under the conditions of the merge (rows announced, one deviation
    per announced row of table [i], a sparse real gradient), a row of the
    new gradient of table [i] that is not announced holds exactly the sum
    of its real-gradient entries, and a row that is neither announced nor
    touched by the real gradient has no entry at all. *)
Theorem delayed_noise_only_on_announced_rows cfg o o' lS i next std p t s :
  do_delayed_noise_update cfg o = Ok o' ->
  lS_i_nxt o = Some lS -> (i < length (emb_l o))%nat ->
  nth_error lS i = Some next ->
  nth_error (stds_for_delayed_noise o) i = Some std ->
  length next = length std ->
  nth_error (params o) i = Some p -> grad p = Some t -> t_data t = Sparse s ->
  length (sp_values s) = length (sp_indices s) ->
  exists t' s',
    nth_error (params o') i = Some (set_grad (Some t') p) /\
    t_data t' = Sparse s' /\
    forall r, ~ In r next ->
      sparse_row r s' = row_total r (combine (sp_indices s) (sp_values s)) /\
      (~ In r (sp_indices s) -> sparse_row r s' = None).
Proof.
  intros H HlS Hi Hnext Hstd Hlen Hp Hg Ht Hwf.
  destruct (do_delayed_noise_update_at _ _ _ _ H Hi)
    as (shape0 & o1 & o2 & H0 & H1 & Hs & Hp1 & H2 & Hp2).
  destruct Hs as (S1 & S2 & _).
  rewrite <- S1 in HlS. rewrite <- S2 in Hstd. rewrite <- Hp1 in Hp.
  destruct (delayed_noise_table_merge _ _ _ _ _ _ _ _ _ _ _
              H2 HlS Hnext Hstd Hlen Hp Hg Ht Hwf)
    as (v & g' & t' & s' & Hrows & Hp' & _ & Ht' & Hsorted & Hrow).
  exists t', s'. split; [congruence|]. split; [exact Ht'|].
  intros r Hr.
  assert (Hsum : sparse_row r s'
                 = row_total r (combine (sp_indices s) (sp_values s))).
  { rewrite Hrow, row_total_app, (row_total_absent r next _ Hr). reflexivity. }
  split; [exact Hsum|].
  intro Hr'. rewrite Hsum. apply row_total_absent. exact Hr'.
Qed.

Lemma delayed_noise_only_on_announced_rows_witness :
  exists o' t' s',
    do_delayed_noise_update merge_config merge_opt = Ok o' /\
    nth_error (params o') 0 = Some (set_grad (Some t') merge_param) /\
    t_data t' = Sparse s' /\
    sparse_row 3 s' = None.
Proof.
  destruct (do_delayed_noise_update merge_config merge_opt) as [o'|e] eqn:E;
    [|vm_compute in E; discriminate E].
  destruct (delayed_noise_only_on_announced_rows merge_config merge_opt o' [[7]] 0
              [7] [2%R] merge_param merge_grad
              (mkSparse [7] [[1%R; 1%R]] 10 2 false) E)
    as (t' & s' & Hp & Ht & Hrows);
    try reflexivity; [simpl; lia|].
  exists o', t', s'. split; [reflexivity|]. split; [exact Hp|]. split; [exact Ht|].
  destruct (Hrows 3) as [_ Hnone].
  - simpl. intros [H|[]]. discriminate H.
  - apply Hnone. simpl. intros [H|[]]. discriminate H.
Defined.

Lemma delayed_noise_table_coalesced cfg dim i o o' :
  delayed_noise_table cfg dim i o = Ok o' ->
  exists p' t' s',
    nth_error (params o') i = Some p' /\ grad p' = Some t' /\
    t_data t' = Sparse s' /\ sp_coalesced s' = true.
Proof.
  unfold delayed_noise_table. intro H.
  apply bind_Ok in H. destruct H as [[[noisy p] g] [_ H]].
  apply bind_Ok in H. destruct H as [t' [Hco H]].
  apply bind_Ok in H. destruct H as [ps [Hps H]].
  inversion H; subst o'. clear H.
  apply coalesce_by_config_Ok in Hco. destruct Hco as [t0 [_ Hco]].
  destruct (coalesce_cases _ _ Hco) as (s & Hs & Hkeep & Hnew).
  exists (set_grad (Some t') p), t'.
  assert (Hn : nth_error (params (set_generator g (set_params ps o))) i
               = Some (set_grad (Some t') p)).
  { simpl. rewrite (py_setitem_nth _ _ _ _ Hps), Nat.eqb_refl. reflexivity. }
  destruct (sp_coalesced s) eqn:Ec.
  - exists s. split; [exact Hn|]. split; [reflexivity|].
    rewrite (Hkeep eq_refl). split; assumption.
  - exists (coalesce_sparse s). split; [exact Hn|]. split; [reflexivity|].
    rewrite (Hnew eq_refl). split; reflexivity.
Qed.

(** X17. When [do_delayed_noise_update] returns, the gradient of every
    embedding table is a coalesced sparse tensor, whether rows were
    announced or not, and the other parameters are untouched; it returns
    only for a model with at least one embedding table. *)
Theorem delayed_noise_update_leaves_coalesced cfg o o' :
  do_delayed_noise_update cfg o = Ok o' ->
  emb_l o <> [] /\
  (forall i, (i < length (emb_l o))%nat ->
     exists p' t' s',
       nth_error (params o') i = Some p' /\ grad p' = Some t' /\
       t_data t' = Sparse s' /\ sp_coalesced s' = true) /\
  (forall i, (length (emb_l o) <= i)%nat ->
     nth_error (params o') i = nth_error (params o) i).
Proof.
  intro H. split; [|split].
  - unfold do_delayed_noise_update in H. destruct (emb_l o); [discriminate|].
    discriminate.
  - intros i Hi.
    destruct (do_delayed_noise_update_at _ _ _ _ H Hi)
      as (shape0 & o1 & o2 & _ & _ & _ & _ & H2 & Hp2).
    destruct (delayed_noise_table_coalesced _ _ _ _ _ H2)
      as (p' & t' & s' & Hp & Hrest).
    exists p', t', s'. split; [congruence|exact Hrest].
  - intros i Hi. unfold do_delayed_noise_update in H.
    apply bind_Ok in H. destruct H as [shape0 [_ H]].
    destruct (delayed_noise_tables_frame _ _ _ _ _ H) as [_ Hp].
    apply Hp. rewrite in_seq. lia.
Qed.

Lemma delayed_noise_update_leaves_coalesced_witness :
  exists o' p' t' s',
    do_delayed_noise_update lazydp_config no_next_opt = Ok o' /\
    nth_error (params o') 0 = Some p' /\ grad p' = Some t' /\
    t_data t' = Sparse s' /\ sp_coalesced s' = true.
Proof.
  destruct (do_delayed_noise_update lazydp_config no_next_opt) as [o'|e] eqn:E;
    [|vm_compute in E; discriminate E].
  destruct (delayed_noise_update_leaves_coalesced lazydp_config no_next_opt o' E)
    as (_ & Hemb & _).
  destruct (Hemb 0%nat) as (p' & t' & s' & H); [simpl; lia|].
  exists o', p', t', s'. split; [reflexivity|exact H].
Defined.

(* ------------------------------------------------------------------ *)
(** ** [clip_and_accumulate]: modes, arguments and results *)

(** X18. [clip_and_accumulate] returns only when mode and argument agree:
    never in [MODE_SGD]; in [MODE_DPSGD_B] only without [losses], in the
    re-backward modes only with [losses]; and never for an optimizer
    without parameters. *)
Theorem clip_and_accumulate_mode_and_losses cfg backward losses o o' :
  clip_and_accumulate cfg backward losses o = Ok o' ->
  dpsgd_mode cfg <> MODE_SGD /\
  (dpsgd_mode cfg = MODE_DPSGD_B <-> losses = None) /\
  params o <> [].
Proof.
  unfold clip_and_accumulate. intro H.
  assert (Hre : clip_and_accumulate_rebackward cfg backward losses o = Ok o' ->
                losses <> None /\ params o <> []).
  { clear H. unfold clip_and_accumulate_rebackward. intro H.
    destruct losses as [ls|]; [|discriminate]. split; [discriminate|].
    apply bind_Ok in H. destruct H as [cols [Hcols H]].
    apply bind_Ok in H. destruct H as [norms [Hnorms _]].
    intro Hnil. rewrite Hnil in Hcols. inversion Hcols; subst. discriminate. }
  destruct (dpsgd_mode cfg) eqn:Em; try discriminate;
    try (destruct (Hre H) as [Hl Hp]; split; [discriminate|];
         split; [split; [discriminate|intro; contradiction]|exact Hp]).
  split; [discriminate|].
  destruct (clip_and_accumulate_materialized_needs_cleared _ _ _ _ H)
    as (_ & Hp & _). split; [|exact Hp].
  split; [|reflexivity]. intros _.
  unfold clip_and_accumulate_materialized in H.
  destruct losses; [discriminate|reflexivity].
Qed.

Lemma clip_and_accumulate_mode_and_losses_witness :
  exists o',
    clip_and_accumulate materialized_config no_backward None materialized_opt = Ok o' /\
    dpsgd_mode materialized_config <> MODE_SGD /\
    (dpsgd_mode materialized_config = MODE_DPSGD_B <-> @None Vec = None) /\
    params materialized_opt <> [].
Proof.
  destruct (clip_and_accumulate materialized_config no_backward None materialized_opt)
    as [o'|e] eqn:E; [|cbn in E; discriminate E].
  exists o'. split; [reflexivity|].
  exact (clip_and_accumulate_mode_and_losses _ _ _ _ _ E).
Defined.

(** X19. In [MODE_DPSGD_B], [zero_grad] clears the per-sample gradients, so
    a [clip_and_accumulate] that follows it with no backward pass in
    between raises the [ValueError] "Per sample gradient is not
    initialized" (for an optimizer with at least one parameter). *)
Theorem clip_after_zero_grad_needs_backward cfg backward set_to_none o :
  dpsgd_mode cfg = MODE_DPSGD_B -> params o <> [] ->
  clip_and_accumulate cfg backward None (zero_grad cfg set_to_none o)
  = Raise (ValueError
             "Per sample gradient is not initialized. Not updated in backward pass?").
Proof.
  intros Hm Hp. unfold clip_and_accumulate. rewrite Hm.
  unfold clip_and_accumulate_materialized, grad_samples, zero_grad.
  rewrite Hm. simpl.
  destruct (params o) as [|p tl]; [contradiction|]. simpl.
  assert (Hgs : forall q, grad_sample (original_optimizer_zero_grad true q)
                          = grad_sample q).
  { intro q. unfold original_optimizer_zero_grad. destruct (grad q); reflexivity. }
  unfold _get_flat_grad_sample at 1. rewrite Hgs.
  destruct (negb (is_last_step_skipped o)); reflexivity.
Qed.

Lemma clip_after_zero_grad_needs_backward_witness :
  clip_and_accumulate materialized_config no_backward None
    (zero_grad materialized_config false materialized_opt)
  = Raise (ValueError
             "Per sample gradient is not initialized. Not updated in backward pass?").
Proof.
  apply (clip_after_zero_grad_needs_backward materialized_config no_backward false
           materialized_opt eq_refl).
  discriminate.
Defined.

Lemma coalesce_Ok_coalesced (t t' : Tensor) :
  coalesce t = Ok t' -> exists s, t_data t' = Sparse s /\ sp_coalesced s = true.
Proof.
  intro H. destruct (coalesce_cases _ _ H) as (s & Hs & Hkeep & Hnew).
  destruct (sp_coalesced s) eqn:Ec.
  - exists s. rewrite (Hkeep eq_refl). split; assumption.
  - exists (coalesce_sparse s). rewrite (Hnew eq_refl). split; reflexivity.
Qed.

(** X20. In the re-backward modes a [clip_and_accumulate] that returns has
    moved every gradient of the second backward pass from [p.grad] to
    [p.summed_grad]: every [p.grad] is [None] afterwards.  In LazyDP mode,
    and in any mode when [config.coalesce_optimize] names none of the three
    strategies, the summed gradients are exactly what the backward pass
    left, not coalesced and without an error. *)
Theorem rebackward_moves_grad_to_summed_grad cfg backward losses o o' :
  dpsgd_mode cfg <> MODE_DPSGD_B ->
  clip_and_accumulate cfg backward losses o = Ok o' ->
  Forall (fun p => grad p = None) (params o') /\
  exists ls norms ps1,
    losses = Some ls /\
    loss_backward (params o)
      (backward (per_sample_clip_factor cfg (max_grad_norm o) norms)) = Ok ps1 /\
    (dpsgd_mode cfg = MODE_LAZYDP \/ known_coalesce_strategy cfg = false ->
     map summed_grad (params o') = map grad ps1).
Proof.
  intros Hm H. apply clip_and_accumulate_not_materialized in H; [|exact Hm].
  destruct (clip_and_accumulate_rebackward_Ok _ _ _ _ _ H)
    as (ls & norms & ps1 & ps2 & Hl & H1 & H2 & Hp).
  split.
  - rewrite Hp. apply Forall_forall. intros p Hin.
    apply in_map_iff in Hin. destruct Hin as [q [<- _]]. reflexivity.
  - exists ls, norms, ps1. split; [exact Hl|]. split; [exact H1|].
    intro Hraw. assert (ps2 = ps1) as ->.
    { destruct Hraw as [Hlazy|Hunk].
      - rewrite Hlazy in H2. simpl in H2. inversion H2; reflexivity.
      - destruct (negb (Mode_eqb (dpsgd_mode cfg) MODE_LAZYDP));
          [|inversion H2; reflexivity].
        unfold known_coalesce_strategy, str_in in Hunk. simpl in Hunk.
        destruct (coalesce_optimize cfg =? "baseline")%string; [discriminate|].
        destruct (coalesce_optimize cfg =? "multi_thread_openmp")%string;
          [discriminate|].
        destruct (coalesce_optimize cfg =? "multi_thread_embeddingbag")%string;
          [discriminate|].
        inversion H2; reflexivity. }
    rewrite Hp, map_map. reflexivity.
Qed.

Lemma rebackward_moves_grad_to_summed_grad_witness :
  exists o' ps1,
    clip_and_accumulate lazydp_config sparse_backward (Some [1%R]) eager_table_opt
    = Ok o' /\
    Forall (fun p => grad p = None) (params o') /\
    map summed_grad (params o') = map grad ps1.
Proof.
  destruct (clip_and_accumulate lazydp_config sparse_backward (Some [1%R])
              eager_table_opt) as [o'|e] eqn:E; [|cbn in E; discriminate E].
  assert (Hm : dpsgd_mode lazydp_config <> MODE_DPSGD_B) by discriminate.
  destruct (rebackward_moves_grad_to_summed_grad _ _ _ _ _ Hm E)
    as (Hnone & ls & norms & ps1 & _ & _ & Hraw).
  exists o', ps1. split; [reflexivity|]. split; [exact Hnone|].
  apply Hraw. left. reflexivity.
Defined.

(** X21. In the modes [MODE_DPSGD_R], [MODE_DPSGD_F] and [MODE_EANA], with
    one of the three coalescing strategies configured, a
    [clip_and_accumulate] that returns leaves a coalesced sparse tensor in
    [p.summed_grad] of every embedding table, so that the [values()] and
    [indices()] that [add_noise] reads from it are defined. *)
Theorem rebackward_coalesces_embedding_gradients cfg backward losses o o' k :
  dpsgd_mode cfg = MODE_DPSGD_R \/ dpsgd_mode cfg = MODE_DPSGD_F
  \/ dpsgd_mode cfg = MODE_EANA ->
  known_coalesce_strategy cfg = true ->
  clip_and_accumulate cfg backward losses o = Ok o' ->
  (k < length (emb_l o))%nat -> (k < length (params o))%nat ->
  exists p' t s,
    nth_error (params o') k = Some p' /\ summed_grad p' = Some t /\
    coalesced_data t = Ok s.
Proof.
  intros Hm Hk H Hemb Hlen.
  assert (Hnb : dpsgd_mode cfg <> MODE_DPSGD_B)
    by (destruct Hm as [-> | [-> | ->]]; discriminate).
  apply clip_and_accumulate_not_materialized in H; [|exact Hnb].
  destruct (clip_and_accumulate_rebackward_Ok _ _ _ _ _ H)
    as (ls & norms & ps1 & ps2 & _ & H1 & H2 & Hp).
  assert (Hl : negb (Mode_eqb (dpsgd_mode cfg) MODE_LAZYDP) = true)
    by (destruct Hm as [-> | [-> | ->]]; reflexivity).
  rewrite Hl in H2.
  assert (Hf : exists f,
             coalesce_emb_grads f (length (emb_l o)) ps1 = Ok ps2 /\
             forall x t', f x = Ok t' -> exists t0, x = Some t0 /\ coalesce t0 = Ok t').
  { unfold known_coalesce_strategy, str_in in Hk. simpl in Hk.
    destruct (coalesce_optimize cfg =? "baseline")%string.
    - exists coalesce_method. split; [exact H2|].
      intros [t0|] t' Hx; [eauto|discriminate].
    - destruct (coalesce_optimize cfg =? "multi_thread_openmp")%string.
      + exists coalesce_multi_thread_openmp. split; [exact H2|].
        intros [t0|] t' Hx; [eauto|discriminate].
      + destruct (coalesce_optimize cfg =? "multi_thread_embeddingbag")%string;
          [|discriminate].
        exists coalesce_multi_thread_embeddingbag. split; [exact H2|].
        intros [t0|] t' Hx; [eauto|discriminate]. }
  destruct Hf as (f & Hco & Hfspec).
  apply loss_backward_length in H1.
  destruct (nth_error ps1 k) as [p|] eqn:Ep;
    [|apply nth_error_None in Ep; lia].
  destruct (coalesce_emb_grads_nth _ _ _ _ Hco) as [Hin _].
  destruct (Hin k p Hemb Ep) as (t' & Ht' & Hn).
  destruct (Hfspec _ _ Ht') as (t0 & _ & Hc).
  destruct (coalesce_Ok_coalesced _ _ Hc) as (s & Hs & Hflag).
  exists (set_grad None (set_summed_grad (Some t') p)), t', s.
  split; [rewrite Hp, nth_error_map, Hn; reflexivity|].
  split; [reflexivity|].
  unfold coalesced_data. rewrite Hs, Hflag. reflexivity.
Qed.

Lemma rebackward_coalesces_embedding_gradients_witness :
  exists o' p' t s,
    clip_and_accumulate rebackward_config sparse_backward (Some [1%R]) eager_table_opt
    = Ok o' /\
    nth_error (params o') 0 = Some p' /\ summed_grad p' = Some t /\
    coalesced_data t = Ok s.
Proof.
  destruct (clip_and_accumulate rebackward_config sparse_backward (Some [1%R])
              eager_table_opt) as [o'|e] eqn:E; [|cbn in E; discriminate E].
  destruct (rebackward_coalesces_embedding_gradients rebackward_config
              sparse_backward (Some [1%R]) eager_table_opt o' 0
              (or_introl eq_refl) eq_refl E) as (p' & t & s & H);
    [simpl; lia | simpl; lia |].
  exists o', p', t, s. split; [reflexivity|exact H].
Defined.

(* ------------------------------------------------------------------ *)
(** ** Sensitivity of the clipped sum *)

Lemma sum_squares_app (a b : Vec) :
  sum_squares (a ++ b) = (sum_squares a + sum_squares b)%R.
Proof.
  unfold sum_squares. induction a as [|x a IH]; simpl; [ring|].
  rewrite IH. ring.
Qed.

Lemma norm2_sqr (v : Vec) : (norm2 v * norm2 v = sum_squares v)%R.
Proof. unfold norm2. apply sqrt_sqrt, sum_squares_nonneg. Qed.

(** Minkowski's inequality for two summands, in the form the inductions
    on vectors and on rows of matrices need. *)
Lemma triangle_core (d2 g2 x y a b : R) :
  (0 <= d2 -> 0 <= g2 -> d2 <= (x + y) * (x + y) -> g2 <= (a + b) * (a + b) ->
   0 <= a -> 0 <= b ->
   sqrt (d2 + g2) <= sqrt (x * x + a * a) + sqrt (y * y + b * b))%R.
Proof.
  intros Hd Hg Hdx Hga Ha Hb.
  assert (HxP : (0 <= x * x + a * a)%R) by nra.
  assert (HyQ : (0 <= y * y + b * b)%R) by nra.
  pose proof (sqrt_sqrt _ HxP) as HP. pose proof (sqrt_sqrt _ HyQ) as HQ.
  pose proof (sqrt_pos (x * x + a * a)) as HP0.
  pose proof (sqrt_pos (y * y + b * b)) as HQ0.
  set (P := sqrt (x * x + a * a)) in *. set (Q := sqrt (y * y + b * b)) in *.
  assert (Hcs : (x * y + a * b <= P * Q)%R).
  { destruct (Rle_lt_dec (x * y + a * b) (P * Q)) as [H|H]; [exact H|].
    exfalso.
    assert (Hsq : ((P * Q) * (P * Q) < (x * y + a * b) * (x * y + a * b))%R)
      by (assert (0 <= P * Q)%R by nra; nra).
    assert (Heq : ((P * Q) * (P * Q) = (x * x + a * a) * (y * y + b * b))%R)
      by (rewrite <- HP, <- HQ; ring).
    pose proof (Rle_0_sqr (x * b - y * a)) as Hs. unfold Rsqr in Hs. nra. }
  rewrite <- (sqrt_square (P + Q)) by lra.
  apply sqrt_le_1_alt. nra.
Qed.

Lemma norm2_vadd (a : Vec) : forall b, (norm2 (vadd a b) <= norm2 a + norm2 b)%R.
Proof.
  induction a as [|x a IH]; intro b.
  - simpl. rewrite norm2_nil. pose proof (norm2_nonneg b). lra.
  - destruct b as [|y b].
    { simpl. rewrite norm2_nil. pose proof (norm2_nonneg (x :: a)). lra. }
    simpl vadd.
    unfold norm2 at 1 2 3. simpl sum_squares.
    rewrite <- (norm2_sqr a), <- (norm2_sqr b).
    apply triangle_core.
    + pose proof (Rle_0_sqr (x + y)) as H. unfold Rsqr in H. exact H.
    + apply sum_squares_nonneg.
    + lra.
    + rewrite <- norm2_sqr. specialize (IH b).
      pose proof (norm2_nonneg (vadd a b)). nra.
    + apply norm2_nonneg.
    + apply norm2_nonneg.
Qed.

Lemma norm2_flatten_madd (a : Mat) :
  forall b, (norm2 (flatten (madd a b))
             <= norm2 (flatten a) + norm2 (flatten b))%R.
Proof.
  induction a as [|r a IH]; intro b.
  - simpl. change (flatten []) with (@nil R). rewrite norm2_nil.
    pose proof (norm2_nonneg (flatten b)). lra.
  - destruct b as [|s b].
    { simpl. change (flatten []) with (@nil R). rewrite norm2_nil.
      pose proof (norm2_nonneg (r ++ flatten a)). lra. }
    simpl madd.
    change (flatten (vadd r s :: madd a b))
      with (vadd r s ++ flatten (madd a b)).
    change (flatten (r :: a)) with (r ++ flatten a).
    change (flatten (s :: b)) with (s ++ flatten b).
    unfold norm2 at 1 2 3. rewrite !sum_squares_app.
    rewrite <- (norm2_sqr r), <- (norm2_sqr s).
    rewrite <- (norm2_sqr (flatten a)), <- (norm2_sqr (flatten b)).
    apply triangle_core.
    + apply sum_squares_nonneg.
    + apply sum_squares_nonneg.
    + rewrite <- norm2_sqr. pose proof (norm2_vadd r s).
      pose proof (norm2_nonneg (vadd r s)). nra.
    + rewrite <- norm2_sqr. specialize (IH b).
      pose proof (norm2_nonneg (flatten (madd a b))). nra.
    + apply norm2_nonneg.
    + apply norm2_nonneg.
Qed.

Lemma norm2_fold_madd (c : R) (ms : list Mat) :
  Forall (fun x => (norm2 (flatten x) <= c)%R) ms ->
  forall m, (norm2 (flatten (fold_left madd ms m))
             <= norm2 (flatten m) + INR (length ms) * c)%R.
Proof.
  induction 1 as [|x ms Hx _ IH]; intro m.
  - simpl. lra.
  - simpl fold_left. specialize (IH (madd m x)).
    pose proof (norm2_flatten_madd m x) as Ht.
    change (length (x :: ms)) with (S (length ms)). rewrite S_INR. lra.
Qed.

Lemma In_le_norm2 (x : R) (v : Vec) : In x v -> (0 <= x)%R -> (x <= norm2 v)%R.
Proof.
  intros Hin Hx.
  assert (Hsq : (x * x <= sum_squares v)%R).
  { induction v as [|y v IH]; [contradiction|]. simpl.
    pose proof (sum_squares_nonneg v). destruct Hin as [->|Hin].
    - lra.
    - specialize (IH Hin). pose proof (Rle_0_sqr y) as Hy. unfold Rsqr in Hy. lra. }
  rewrite <- (sqrt_square x) by exact Hx.
  unfold norm2. apply sqrt_le_1_alt. exact Hsq.
Qed.

Lemma contract_bound (c : R) (factor : Vec) (gs : list Mat) (t : Tensor) :
  contract factor gs = Ok t -> (0 <= c)%R ->
  (forall i, (i < length gs)%nat ->
             (0 <= nth i factor 0)%R /\
             (nth i factor 0 * norm2 (flatten (nth i gs [])) <= c)%R) ->
  length factor = length gs /\
  exists m, t = fresh (Dense m) /\
            (norm2 (flatten m) <= INR (length gs) * c)%R.
Proof.
  unfold contract. intros H Hc Hall.
  destruct (length factor =? length gs)%nat eqn:El; [|discriminate].
  apply Nat.eqb_eq in El. simpl in H. split; [exact El|].
  set (l := map (fun fm : R * Mat => mscale (fst fm) (snd fm)) (combine factor gs)) in *.
  assert (Hlen : length l = length gs).
  { unfold l. rewrite length_map, length_combine. lia. }
  assert (Hl : Forall (fun x => (norm2 (flatten x) <= c)%R) l).
  { apply Forall_forall. intros x Hx. unfold l in Hx.
    apply in_map_iff in Hx. destruct Hx as [fm [<- Hfm]].
    destruct (In_nth _ _ (0%R, @nil Vec) Hfm) as (i & Hi & Hnth).
    rewrite combine_nth in Hnth by exact El. subst fm. simpl.
    rewrite length_combine in Hi.
    destruct (Hall i) as [Hf Hb]; [lia|].
    rewrite flatten_mscale, norm2_scale by exact Hf. exact Hb. }
  destruct l as [|m ms].
  - inversion H; subst. exists []. split; [reflexivity|].
    change (flatten []) with (@nil R). rewrite norm2_nil.
    apply Rmult_le_pos; [apply pos_INR|exact Hc].
  - inversion H; subst. eexists. split; [reflexivity|].
    inversion Hl; subst.
    pose proof (norm2_fold_madd c ms H3 m) as Hsum.
    rewrite <- Hlen. change (length (m :: ms)) with (S (length ms)).
    rewrite S_INR. lra.
Qed.

(** X22. Sensitivity of the clipped sum.  In [MODE_DPSGD_B], unless
    clipping is switched off for debugging and with [max_grad_norm] not
    negative: when [clip_and_accumulate] returns, the summed gradient of a
    dense parameter (one without [inputs]) is a dense tensor whose L2 norm
    is at most the number of samples of the batch times [max_grad_norm]. *)
Theorem clipped_sum_sensitivity cfg backward losses o o' k p :
  clip_and_accumulate cfg backward losses o = Ok o' ->
  dpsgd_mode cfg = MODE_DPSGD_B ->
  is_debugging cfg && (debugging_type cfg =? "without_noise_clipping")%string = false ->
  (0 <= max_grad_norm o)%R ->
  nth_error (params o) k = Some p -> inputs p = None ->
  exists gs p' m,
    _get_flat_grad_sample p = Ok gs /\
    nth_error (params o') k = Some p' /\
    summed_grad p' = Some (fresh (Dense m)) /\
    (norm2 (flatten m) <= INR (length gs) * max_grad_norm o)%R.
Proof.
  intros H Hm Hdbg Hmgn Hk Hin. unfold clip_and_accumulate in H. rewrite Hm in H.
  unfold clip_and_accumulate_materialized in H.
  apply bind_Ok in H. destruct H as [_ [_ H]].
  apply bind_Ok in H. destruct H as [gss [Hgss H]].
  apply bind_Ok in H. destruct H as [g0 [_ H]].
  apply bind_Ok in H. destruct H as [norms [Hnorms H]].
  destruct (length g0 =? 0)%nat; [discriminate|].
  apply bind_Ok in H. destruct H as [ps [Hps H]].
  inversion H; subst o'; clear H. simpl params.
  rewrite per_sample_clip_factor_clipping in Hps by assumption.
  pose proof (clip_factor_Forall2 _ _ Hmgn (per_sample_norms_nonneg _ _ Hnorms))
    as Hall.
  set (factor := map (fun n => Rmin 1 (max_grad_norm o / (n + 1e-6))) norms) in *.
  destruct (map_result_nth _ _ _ Hps) as [_ Hnth].
  destruct (Hnth k p Hk) as (p' & Hp' & Hk').
  unfold grad_samples in Hgss.
  destruct (map_result_nth _ _ _ Hgss) as [_ Hgnth].
  destruct (Hgnth k p Hk) as (gs & Hgs & Hkgs).
  unfold clip_and_reduce_param in Hp'. rewrite Hin, Hgs in Hp'.
  apply bind_Ok in Hp'. destruct Hp' as [_ [_ Hp']]. cbn [bind] in Hp'.
  apply bind_Ok in Hp'. destruct Hp' as [g [Hg Hp']].
  destruct (summed_grad p) as [sg|];
    [apply bind_Ok in Hp'; destruct Hp' as [? [_ Hp']]; discriminate|].
  inversion Hp'; subst p'; clear Hp'.
  destruct (per_sample_norms_of_Ok _ _ Hnorms) as (c & cs & Hcols & Hlen & Hn).
  destruct (contract_bound (max_grad_norm o) factor gs g Hg Hmgn)
    as (Hfl & m & -> & Hbound).
  - intros i Hi.
    assert (Hlf : length factor = length gs).
    { unfold contract in Hg.
      destruct (length factor =? length gs)%nat eqn:El; [|discriminate].
      apply Nat.eqb_eq in El. exact El. }
    assert (Hin' : (i < length norms)%nat)
      by (unfold factor in Hlf; rewrite length_map in Hlf; lia).
    pose proof (Forall2_nth_default _ _ _ Hall i 0%R 0%R Hin') as [[Hf _] Hb].
    split; [exact Hf|].
    assert (Hni : nth i norms 0%R
                  = norm2 (map (fun col => nth i col 0%R) (per_param_norms_of gss))).
    { rewrite Hn.
      set (F := fun i => norm2 (map (fun col : list R => nth i col 0%R)
                                    (per_param_norms_of gss))).
      rewrite nth_indep with (d' := F (length c))
        by (rewrite length_map, length_seq; lia).
      rewrite map_nth, seq_nth by lia. reflexivity. }
    assert (Hle : (norm2 (flatten (nth i gs [])) <= nth i norms 0)%R).
    { rewrite Hni. apply In_le_norm2; [|apply norm2_nonneg].
      apply in_map_iff.
      exists (map (fun sample => norm2 (flatten sample)) gs). split.
      - rewrite nth_indep with (d' := (fun sample => norm2 (flatten sample)) [])
          by (rewrite length_map; exact Hi).
        exact (map_nth (fun sample => norm2 (flatten sample)) gs [] i).
      - unfold per_param_norms_of. apply in_map.
        eapply nth_error_In; eassumption. }
    fold factor in Hb. nra.
  - exists gs. eexists. exists m. split; [exact Hgs|].
    split; [exact Hk'|]. split; [reflexivity|exact Hbound].
Qed.

Lemma clipped_sum_sensitivity_witness :
  exists o' gs p' m,
    clip_and_accumulate materialized_config no_backward None materialized_opt = Ok o' /\
    _get_flat_grad_sample dense_param = Ok gs /\
    nth_error (params o') 0 = Some p' /\
    summed_grad p' = Some (fresh (Dense m)) /\
    (norm2 (flatten m) <= INR (length gs) * max_grad_norm materialized_opt)%R.
Proof.
  destruct (clip_and_accumulate materialized_config no_backward None materialized_opt)
    as [o'|e] eqn:E; [|cbn in E; discriminate E].
  assert (Hmgn : (0 <= max_grad_norm materialized_opt)%R) by (simpl; lra).
  destruct (clipped_sum_sensitivity materialized_config no_backward None
              materialized_opt o' 0 dense_param E eq_refl eq_refl Hmgn
              eq_refl eq_refl) as (gs & p' & m & H).
  exists o', gs, p', m. split; [reflexivity|exact H].
Defined.

(* ------------------------------------------------------------------ *)
(** ** Embedding tables in the materialized mode *)

(** X23. In [MODE_DPSGD_B], for a parameter with [inputs] (an embedding
    table), [clip_and_accumulate] leaves in [p.summed_grad] a coalesced
    sparse tensor of the shape of the table, with strictly increasing row
    indices, in which row [r] is the sum of the clipped per-sample gradient
    rows gathered at row id [r]; the per-sample factors and the row ids
    have as many entries as there are samples and gathered rows. *)
Theorem materialized_embedding_sum cfg backward losses o o' k p index :
  clip_and_accumulate cfg backward losses o = Ok o' ->
  dpsgd_mode cfg = MODE_DPSGD_B ->
  nth_error (params o) k = Some p -> inputs p = Some index ->
  exists gss norms gs p' s,
    let factor := per_sample_clip_factor cfg (max_grad_norm o) norms in
    let clipped := map (fun fm => mscale (fst fm) (snd fm)) (combine factor gs) in
    grad_samples o = Ok gss /\
    per_sample_norms_of (per_param_norms_of gss) = Ok norms /\
    _get_flat_grad_sample p = Ok gs /\ length factor = length gs /\
    length index = length (concat clipped) /\
    nth_error (params o') k = Some p' /\
    summed_grad p' = Some (fresh (Sparse s)) /\
    sp_coalesced s = true /\ sp_nrows s = p_rows p /\ sp_dim s = p_cols p /\
    StronglySorted Z.lt (sp_indices s) /\
    forall r, sparse_row r s = row_total r (combine index (concat clipped)).
Proof.
  intros H Hm Hk Hin. unfold clip_and_accumulate in H. rewrite Hm in H.
  unfold clip_and_accumulate_materialized in H.
  apply bind_Ok in H. destruct H as [_ [_ H]].
  apply bind_Ok in H. destruct H as [gss [Hgss H]].
  apply bind_Ok in H. destruct H as [g0 [_ H]].
  apply bind_Ok in H. destruct H as [norms [Hnorms H]].
  destruct (length g0 =? 0)%nat; [discriminate|].
  apply bind_Ok in H. destruct H as [ps [Hps H]].
  inversion H; subst o'; clear H. simpl params.
  destruct (map_result_nth _ _ _ Hps) as [_ Hnth].
  destruct (Hnth k p Hk) as (p' & Hp' & Hk').
  unfold clip_and_reduce_param in Hp'. rewrite Hin in Hp'.
  apply bind_Ok in Hp'. destruct Hp' as [_ [_ Hp']].
  apply bind_Ok in Hp'. destruct Hp' as [gs [Hgs Hp']].
  apply bind_Ok in Hp'. destruct Hp' as [g [Hg Hp']].
  apply bind_Ok in Hg. destruct Hg as [scaled [Hscaled Hg]].
  apply bind_Ok in Hg. destruct Hg as [t [Ht Hg]].
  unfold einsum_scale in Hscaled.
  destruct (length (per_sample_clip_factor cfg (max_grad_norm o) norms)
            =? length gs)%nat eqn:El; [|discriminate].
  apply Nat.eqb_eq in El. simpl in Hscaled. inversion Hscaled; subst scaled.
  clear Hscaled.
  assert (Hnnz : length index
                 = length (concat (map (fun fm : R * Mat => mscale (fst fm) (snd fm))
                              (combine (per_sample_clip_factor cfg (max_grad_norm o) norms)
                                       gs)))).
  { unfold sparse_coo_tensor in Ht.
    match type of Ht with
    | (if negb (?a =? ?b)%nat then _ else _) = _ =>
        destruct (a =? b)%nat eqn:En; [|discriminate]
    end.
    apply Nat.eqb_eq in En. exact En. }
  apply sparse_coo_tensor_Ok in Ht. subst t.
  apply coalesce_by_config_Ok in Hg. destruct Hg as (t0 & Ht0 & Hco).
  inversion Ht0; subst t0; clear Ht0.
  unfold coalesce in Hco. simpl in Hco. inversion Hco; subst g; clear Hco.
  destruct (summed_grad p) as [sg|];
    [apply bind_Ok in Hp'; destruct Hp' as [? [_ Hp']]; discriminate|].
  inversion Hp'; subst p'; clear Hp'.
  match goal with
  | _ : context [coalesce_sparse ?s0] |- _ =>
      destruct (coalesce_sparse_spec s0) as [Hsorted Hrow]
  end.
  exists gss, norms, gs. eexists. eexists. cbv zeta.
  split; [exact Hgss|]. split; [exact Hnorms|].
  split; [exact Hgs|]. split; [exact El|]. split; [exact Hnnz|].
  split; [exact Hk'|]. split; [reflexivity|].
  split; [reflexivity|]. split; [reflexivity|]. split; [reflexivity|].
  split; [exact Hsorted|exact Hrow].
Qed.

Lemma materialized_embedding_sum_witness :
  exists o' norms p' s,
    clip_and_accumulate materialized_config no_backward None bag_opt = Ok o' /\
    nth_error (params o') 0 = Some p' /\
    summed_grad p' = Some (fresh (Sparse s)) /\
    StronglySorted Z.lt (sp_indices s) /\
    sparse_row 2 s
    = row_total 2
        (combine [3; 1; 3; 3]
           (concat (map (fun fm => mscale (fst fm) (snd fm))
                        (combine (per_sample_clip_factor materialized_config 1 norms)
                                 [[[1%R; 0%R]; [1%R; 0%R]]; [[0%R; 2%R]; [0%R; 2%R]]])))).
Proof.
  destruct (clip_and_accumulate materialized_config no_backward None bag_opt)
    as [o'|e] eqn:E; [|cbn in E; discriminate E].
  destruct (materialized_embedding_sum materialized_config no_backward None
              bag_opt o' 0 bag_param [3; 1; 3; 3] E eq_refl eq_refl eq_refl)
    as (gss & norms & gs & p' & s & _ & _ & Hgs & _ & _ & Hk & Hsum & _ & _ & _
        & Hsorted & Hrow).
  inversion Hgs; subst gs.
  exists o', norms, p', s. split; [reflexivity|]. split; [exact Hk|].
  split; [exact Hsum|]. split; [exact Hsorted|]. apply Hrow.
Defined.

Lemma sum_squares_repeat (bp : Vec) (n : nat) :
  sum_squares (flatten (repeat bp n)) = (INR n * sum_squares bp)%R.
Proof.
  induction n as [|n IH].
  - simpl. ring.
  - change (flatten (repeat bp (S n))) with (bp ++ flatten (repeat bp n)).
    rewrite sum_squares_app, IH, S_INR. ring.
Qed.

(** X24. The grad sampler of [nn.EmbeddingBag] gives every sample, as its
    per-sample gradient, as many copies of the sample's backprop row as the
    first bag has gathers ([offset[1] - offset[0]]), whatever row ids the
    sample gathered; so the norm of the per-sample gradient is the square
    root of the number of gathers times the norm of the backprop row.  The
    weight gets the index tensor attached.  The sampler needs two offsets,
    a non-negative number of gathers, and a batch and a dimension that are
    not zero. *)
Theorem embeddingbag_sampler_copies_backprops weight index offset backprops gsm w' :
  compute_embeddingbag_gradsampler weight index offset backprops = Ok (gsm, w') ->
  exists o0 o1,
    nth_error offset 0 = Some o0 /\ nth_error offset 1 = Some o1 /\ 0 <= o1 - o0 /\
    backprops <> [] /\
    inputs w' = Some index /\ length gsm = length backprops /\
    forall b bp, nth_error backprops b = Some bp ->
      nth_error gsm b = Some (repeat bp (Z.to_nat (o1 - o0))) /\
      norm2 (flatten (repeat bp (Z.to_nat (o1 - o0))))
      = (sqrt (IZR (o1 - o0)) * norm2 bp)%R.
Proof.
  unfold compute_embeddingbag_gradsampler. intro H.
  apply bind_Ok in H. destruct H as [o1 [H1 H]].
  apply bind_Ok in H. destruct H as [o0 [H0 H]].
  apply py_index_Ok in H0, H1.
  destruct (o1 - o0 <? 0) eqn:En; [discriminate|]. apply Z.ltb_ge in En.
  destruct ((fst (mat_shape backprops) =? 0)%nat
            || (snd (mat_shape backprops) =? 0)%nat) eqn:Es; [discriminate|].
  inversion H; subst. clear H. exists o0, o1.
  split; [exact H0|]. split; [exact H1|]. split; [exact En|].
  split; [intro Hnil; subst; discriminate Es|].
  split; [reflexivity|]. split; [apply length_map|].
  intros b bp Hb. split; [rewrite nth_error_map, Hb; reflexivity|].
  unfold norm2. rewrite sum_squares_repeat.
  rewrite INR_IZR_INZ, Z2Nat.id by exact En.
  apply sqrt_mult; [apply IZR_le; exact En|apply sum_squares_nonneg].
Qed.

Lemma embeddingbag_sampler_copies_backprops_witness :
  exists gsm w',
    compute_embeddingbag_gradsampler table_param [3; 1; 3; 3] [0; 2]
      [[1%R; 0%R]; [0%R; 2%R]] = Ok (gsm, w') /\
    inputs w' = Some [3; 1; 3; 3] /\
    nth_error gsm 1 = Some (repeat [0%R; 2%R] (Z.to_nat (2 - 0))) /\
    norm2 (flatten (repeat [0%R; 2%R] (Z.to_nat (2 - 0))))
    = (sqrt (IZR (2 - 0)) * norm2 [0%R; 2%R])%R.
Proof.
  destruct (compute_embeddingbag_gradsampler table_param [3; 1; 3; 3] [0; 2]
              [[1%R; 0%R]; [0%R; 2%R]]) as [[gsm w']|e] eqn:E;
    [|cbn in E; discriminate E].
  destruct (embeddingbag_sampler_copies_backprops _ _ _ _ _ _ E)
    as (o0 & o1 & H0 & H1 & _ & _ & Hin & _ & Hrows).
  inversion H0; subst o0. inversion H1; subst o1.
  exists gsm, w'. split; [reflexivity|]. split; [exact Hin|].
  apply (Hrows 1%nat [0%R; 2%R]). reflexivity.
Defined.

(* ------------------------------------------------------------------ *)
(** ** The latency meter *)

Lemma meter_index_first (column : string) (l : list string) :
  forall idx, LatencyMeter.index column l = Ok idx ->
  nth_error l idx = Some column /\
  forall j, (j < idx)%nat -> nth_error l j <> Some column.
Proof.
  induction l as [|c tl IH]; intros idx H; simpl in H; [discriminate|].
  destruct (c =? column)%string eqn:E.
  - apply String.eqb_eq in E. inversion H; subst. split; [reflexivity|].
    intros j Hj. lia.
  - apply bind_Ok in H. destruct H as [i [Hi H]]. inversion H; subst.
    destruct (IH _ Hi) as [IH1 IH2]. split; [exact IH1|].
    intros [|j] Hj; simpl.
    + intro Hc. inversion Hc; subst. rewrite String.eqb_refl in E. discriminate.
    + apply IH2. lia.
Qed.

Lemma meter_start_Ok column now m m1 :
  LatencyMeter.start column now m = Ok m1 ->
  LatencyMeter.start_time m = None /\ LatencyMeter.current_column m = None /\
  m1 = LatencyMeter.set_level1 (Some now) (Some column) m.
Proof.
  unfold LatencyMeter.start. intro H.
  destruct (LatencyMeter.start_time m); [discriminate|].
  destruct (LatencyMeter.current_column m); [discriminate|].
  inversion H. repeat split.
Qed.

Lemma meter_start_l2_Ok column now m m1 :
  LatencyMeter.start_l2 column now m = Ok m1 ->
  LatencyMeter.start_time_l2 m = None /\ LatencyMeter.current_column_l2 m = None /\
  m1 = LatencyMeter.set_level2 (Some now) (Some column) m.
Proof.
  unfold LatencyMeter.start_l2. intro H.
  destruct (LatencyMeter.start_time_l2 m); [discriminate|].
  destruct (LatencyMeter.current_column_l2 m); [discriminate|].
  inversion H. repeat split.
Qed.

(** Reading the entry of [column] after its row, at position [idx], got
    the value [v] at the current iteration. *)
Lemma meter_recorded_after_write column m idx row row' recs v :
  LatencyMeter.index column (LatencyMeter.columns m) = Ok idx ->
  py_setitem row (LatencyMeter.cur_iter m) v = Ok row' ->
  py_setitem (LatencyMeter.records m) idx row' = Ok recs ->
  forall m', LatencyMeter.columns m' = LatencyMeter.columns m ->
             LatencyMeter.cur_iter m' = LatencyMeter.cur_iter m ->
             LatencyMeter.records m' = recs ->
             LatencyMeter.recorded column m' = Ok v.
Proof.
  intros Hidx Hrow Hrecs m' Hc Hi Hr.
  unfold LatencyMeter.recorded, LatencyMeter.record_row. rewrite Hc, Hidx, Hr, Hi.
  simpl. unfold py_index.
  rewrite (py_setitem_nth _ _ _ _ Hrecs), Nat.eqb_refl. simpl.
  rewrite (py_setitem_nth _ _ _ _ Hrow), Nat.eqb_refl. reflexivity.
Qed.

(** X25. A matched [start]/[end] pair of the latency meter records the
    elapsed time: after [start(column)] at clock reading [t0] and
    [end(column)] at [t1], the entry of [column] for the current iteration
    is [t1 - t0], whatever it held before; the entry is that of the first
    column with this name; the other rows of the records are untouched; the
    level-1 timer is idle again and the level-2 timer, the iteration and
    the columns are as before. *)
Theorem meter_records_interval column t0 t1 m m1 m2 :
  LatencyMeter.start column t0 m = Ok m1 ->
  LatencyMeter.end_ column t1 m1 = Ok m2 ->
  LatencyMeter.recorded column m2 = Ok (t1 - t0)%R /\
  (exists idx,
      LatencyMeter.index column (LatencyMeter.columns m) = Ok idx /\
      nth_error (LatencyMeter.columns m) idx = Some column /\
      (forall j, (j < idx)%nat -> nth_error (LatencyMeter.columns m) j <> Some column) /\
      forall i, i <> idx ->
        nth_error (LatencyMeter.records m2) i = nth_error (LatencyMeter.records m) i) /\
  LatencyMeter.start_time m2 = None /\ LatencyMeter.current_column m2 = None /\
  LatencyMeter.start_time_l2 m2 = LatencyMeter.start_time_l2 m /\
  LatencyMeter.current_column_l2 m2 = LatencyMeter.current_column_l2 m /\
  LatencyMeter.cur_iter m2 = LatencyMeter.cur_iter m /\
  LatencyMeter.columns m2 = LatencyMeter.columns m.
Proof.
  intros Hs He. destruct (meter_start_Ok _ _ _ _ Hs) as (_ & _ & ->).
  unfold LatencyMeter.end_ in He. simpl in He.
  apply bind_Ok in He. destruct He as [u [_ He]].
  apply bind_Ok in He. destruct He as [[idx row] [Hir He]].
  apply bind_Ok in He. destruct He as [row' [Hrow He]].
  apply bind_Ok in He. destruct He as [recs [Hrecs He]].
  inversion He; subst m2; clear He. simpl in *.
  unfold LatencyMeter.record_row in Hir. simpl in Hir.
  apply bind_Ok in Hir. destruct Hir as [idx' [Hidx Hir]].
  apply bind_Ok in Hir. destruct Hir as [row0 [Hrow0 Hir]].
  inversion Hir; subst idx' row0; clear Hir.
  destruct (meter_index_first _ _ _ Hidx) as [Hn Hfirst].
  split; [|split; [|repeat split]].
  - eapply meter_recorded_after_write with (m := m); try eassumption; reflexivity.
  - exists idx. split; [exact Hidx|]. split; [exact Hn|]. split; [exact Hfirst|].
    intros i Hi. rewrite (py_setitem_nth _ _ _ _ Hrecs).
    destruct (Nat.eqb_spec i idx); [contradiction|reflexivity].
Qed.

Lemma meter_records_interval_witness :
  exists m1 m2,
    LatencyMeter.start "Update_noise" 1 lazydp_meter = Ok m1 /\
    LatencyMeter.end_ "Update_noise" 3 m1 = Ok m2 /\
    LatencyMeter.recorded "Update_noise" m2 = Ok (3 - 1)%R /\
    LatencyMeter.start_time m2 = None.
Proof.
  destruct (LatencyMeter.start "Update_noise" 1 lazydp_meter) as [m1|e] eqn:E1;
    [|vm_compute in E1; discriminate E1].
  destruct (LatencyMeter.end_ "Update_noise" 3 m1) as [m2|e] eqn:E2.
  - destruct (meter_records_interval _ _ _ _ _ _ E1 E2) as (Hrec & _ & Hidle & _).
    exists m1, m2. split; [reflexivity|]. split; [exact E2|].
    split; [exact Hrec|exact Hidle].
  - exfalso. vm_compute in E1. inversion E1; subst m1.
    vm_compute in E2. discriminate E2.
Defined.

(** X26. Calls of the latency meter that do not pair up are rejected.  On
    an idle meter [end] raises a [TypeError] (the elapsed time is computed
    before the assertions are reached); while a column is being timed, a
    second [start] raises the [AssertionError] "invalid start-end pair
    (start)", and an [end] for another column raises "invalid start-end
    pair (end)". *)
Theorem meter_rejects_unmatched_calls column t0 m m1 other now :
  LatencyMeter.start column t0 m = Ok m1 ->
  LatencyMeter.end_ other now m = Raise TypeError /\
  LatencyMeter.start other now m1
  = Raise (AssertionError "invalid start-end pair (start)") /\
  (other <> column ->
   LatencyMeter.end_ other now m1
   = Raise (AssertionError "invalid start-end pair (end)")).
Proof.
  intro Hs. destruct (meter_start_Ok _ _ _ _ Hs) as (Ht & Hc & ->).
  split; [|split].
  - unfold LatencyMeter.end_. rewrite Ht. reflexivity.
  - reflexivity.
  - intro Hne. unfold LatencyMeter.end_. simpl.
    destruct (column =? other)%string eqn:E; [|reflexivity].
    apply String.eqb_eq in E. congruence.
Qed.

Lemma meter_rejects_unmatched_calls_witness :
  exists m1,
    LatencyMeter.start "Update_noise" 1 lazydp_meter = Ok m1 /\
    LatencyMeter.end_ "bypass_emb" 2 lazydp_meter = Raise TypeError /\
    LatencyMeter.start "bypass_emb" 2 m1
    = Raise (AssertionError "invalid start-end pair (start)") /\
    LatencyMeter.end_ "bypass_emb" 2 m1
    = Raise (AssertionError "invalid start-end pair (end)").
Proof.
  destruct (LatencyMeter.start "Update_noise" 1 lazydp_meter) as [m1|e] eqn:E1;
    [|vm_compute in E1; discriminate E1].
  destruct (meter_rejects_unmatched_calls "Update_noise" 1 lazydp_meter m1
              "bypass_emb" 2 E1) as (H1 & H2 & H3).
  exists m1. split; [reflexivity|]. split; [exact H1|]. split; [exact H2|].
  apply H3. discriminate.
Defined.

Lemma meter_level2_interval column t0 t1 m m1 m2 :
  LatencyMeter.start_l2 column t0 m = Ok m1 ->
  LatencyMeter.end_l2 column t1 m1 = Ok m2 ->
  exists old,
    LatencyMeter.recorded column m = Ok old /\
    LatencyMeter.recorded column m2 = Ok (old + (t1 - t0))%R /\
    LatencyMeter.start_time_l2 m2 = None /\
    LatencyMeter.current_column_l2 m2 = None /\
    LatencyMeter.start_time m2 = LatencyMeter.start_time m /\
    LatencyMeter.current_column m2 = LatencyMeter.current_column m /\
    LatencyMeter.cur_iter m2 = LatencyMeter.cur_iter m /\
    LatencyMeter.columns m2 = LatencyMeter.columns m.
Proof.
  intros Hs He. destruct (meter_start_l2_Ok _ _ _ _ Hs) as (_ & _ & ->).
  unfold LatencyMeter.end_l2 in He. simpl in He.
  apply bind_Ok in He. destruct He as [u [_ He]].
  apply bind_Ok in He. destruct He as [[idx row] [Hir He]].
  apply bind_Ok in He. destruct He as [old [Hold He]].
  apply bind_Ok in He. destruct He as [row' [Hrow He]].
  apply bind_Ok in He. destruct He as [recs [Hrecs He]].
  inversion He; subst m2; clear He. simpl in *.
  exists old. split.
  { unfold LatencyMeter.recorded.
    unfold LatencyMeter.record_row in *. simpl in Hir.
    apply bind_Ok in Hir. destruct Hir as [idx' [Hidx Hir]].
    apply bind_Ok in Hir. destruct Hir as [row0 [Hrow0 Hir]].
    inversion Hir; subst idx' row0. rewrite Hidx. simpl. rewrite Hrow0. simpl.
    exact Hold. }
  split; [|repeat split].
  unfold LatencyMeter.record_row in Hir. simpl in Hir.
  apply bind_Ok in Hir. destruct Hir as [idx' [Hidx Hir]].
  apply bind_Ok in Hir. destruct Hir as [row0 [Hrow0 Hir]].
  inversion Hir; subst idx' row0; clear Hir.
  eapply meter_recorded_after_write with (m := m); try eassumption; reflexivity.
Qed.

(** X27. The level-2 timer accumulates.  Two [start_l2]/[end_l2] pairs on
    the same column within one iteration leave, in the entry of the column,
    what it held before plus both elapsed times (level 1, by contrast,
    overwrites the entry). *)
Theorem meter_level2_accumulates column a0 a1 b0 b1 m m1 m2 m3 m4 :
  LatencyMeter.start_l2 column a0 m = Ok m1 ->
  LatencyMeter.end_l2 column a1 m1 = Ok m2 ->
  LatencyMeter.start_l2 column b0 m2 = Ok m3 ->
  LatencyMeter.end_l2 column b1 m3 = Ok m4 ->
  exists old,
    LatencyMeter.recorded column m = Ok old /\
    LatencyMeter.recorded column m4 = Ok (old + (a1 - a0) + (b1 - b0))%R.
Proof.
  intros H1 H2 H3 H4.
  destruct (meter_level2_interval _ _ _ _ _ _ H1 H2) as (old & Hold & Hmid & _).
  destruct (meter_level2_interval _ _ _ _ _ _ H3 H4) as (old' & Hold' & Hend & _).
  rewrite Hmid in Hold'. inversion Hold'; subst old'.
  exists old. split; [exact Hold|exact Hend].
Qed.

Lemma meter_level2_accumulates_witness :
  exists m1 m2 m3 m4,
    LatencyMeter.start_l2 "coalesce" 1 lazydp_meter = Ok m1 /\
    LatencyMeter.end_l2 "coalesce" 2 m1 = Ok m2 /\
    LatencyMeter.start_l2 "coalesce" 5 m2 = Ok m3 /\
    LatencyMeter.end_l2 "coalesce" 8 m3 = Ok m4 /\
    exists old,
      LatencyMeter.recorded "coalesce" lazydp_meter = Ok old /\
      LatencyMeter.recorded "coalesce" m4 = Ok (old + (2 - 1) + (8 - 5))%R.
Proof.
  destruct (LatencyMeter.start_l2 "coalesce" 1 lazydp_meter) as [m1|e] eqn:E1;
    [|vm_compute in E1; discriminate E1].
  destruct (LatencyMeter.end_l2 "coalesce" 2 m1) as [m2|e] eqn:E2;
    [|exfalso; vm_compute in E1; inversion E1; subst m1;
      vm_compute in E2; discriminate E2].
  destruct (LatencyMeter.start_l2 "coalesce" 5 m2) as [m3|e] eqn:E3;
    [|exfalso; vm_compute in E1; inversion E1; subst m1;
      vm_compute in E2; inversion E2; subst m2;
      vm_compute in E3; discriminate E3].
  destruct (LatencyMeter.end_l2 "coalesce" 8 m3) as [m4|e] eqn:E4;
    [|exfalso; vm_compute in E1; inversion E1; subst m1;
      vm_compute in E2; inversion E2; subst m2;
      vm_compute in E3; inversion E3; subst m3;
      vm_compute in E4; discriminate E4].
  exists m1, m2, m3, m4. split; [reflexivity|]. split; [exact E2|].
  split; [exact E3|]. split; [exact E4|].
  exact (meter_level2_accumulates _ _ _ _ _ _ _ _ _ _ E1 E2 E3 E4).
Defined.

Lemma meter_index_total (column : string) (l : list string) :
  In column l -> exists idx, LatencyMeter.index column l = Ok idx /\ (idx < length l)%nat.
Proof.
  induction l as [|c tl IH]; intro Hin; [contradiction|]. simpl.
  destruct (c =? column)%string eqn:E.
  - exists 0%nat. split; [reflexivity|simpl; lia].
  - destruct Hin as [Hc|Hin].
    + subst. rewrite String.eqb_refl in E. discriminate.
    + destruct (IH Hin) as (idx & Hidx & Hlt). exists (S idx).
      rewrite Hidx. split; [reflexivity|simpl; lia].
Qed.

Lemma py_setitem_Forall_kept {A : Type} (P : A -> Prop) (l : list A) :
  forall i v l', Forall P l -> P v -> py_setitem l i v = Ok l' -> Forall P l'.
Proof.
  induction l as [|x l IH]; intros [|i] v l' Hl Hv H; simpl in H;
    try discriminate.
  - inversion H; subst. inversion Hl; subst. constructor; assumption.
  - apply bind_Ok in H. destruct H as [tl' [Htl H]]. inversion H; subst.
    inversion Hl; subst. constructor; [assumption|].
    apply (IH i v tl'); assumption.
Qed.

(** Writing the entry of [column] leaves the entries of the other columns. *)
Lemma meter_recorded_other column other m idx row' recs :
  other <> column ->
  LatencyMeter.index column (LatencyMeter.columns m) = Ok idx ->
  py_setitem (LatencyMeter.records m) idx row' = Ok recs ->
  forall m', LatencyMeter.columns m' = LatencyMeter.columns m ->
             LatencyMeter.cur_iter m' = LatencyMeter.cur_iter m ->
             LatencyMeter.records m' = recs ->
             LatencyMeter.recorded other m' = LatencyMeter.recorded other m.
Proof.
  intros Hne Hidx Hrecs m' Hc Hi Hr.
  unfold LatencyMeter.recorded, LatencyMeter.record_row. rewrite Hc, Hr, Hi.
  destruct (LatencyMeter.index other (LatencyMeter.columns m)) as [idx2|e] eqn:E2;
    [|reflexivity].
  simpl. unfold py_index at 1 3. rewrite (py_setitem_nth _ _ _ _ Hrecs).
  destruct (Nat.eqb_spec idx2 idx) as [->|_]; [|reflexivity].
  destruct (meter_index_first _ _ _ Hidx) as [H1 _].
  destruct (meter_index_first _ _ _ E2) as [H2 _]. congruence.
Qed.

(** The row of a column of a ready meter. *)
Lemma meter_row_total column m :
  meter_ready m -> In column (LatencyMeter.columns m) ->
  exists idx row old,
    LatencyMeter.index column (LatencyMeter.columns m) = Ok idx /\
    nth_error (LatencyMeter.records m) idx = Some row /\
    nth_error row (LatencyMeter.cur_iter m) = Some old.
Proof.
  intros [Hlen Hrows] Hin.
  destruct (meter_index_total _ _ Hin) as (idx & Hidx & Hlt).
  destruct (nth_error (LatencyMeter.records m) idx) as [row|] eqn:Er;
    [|apply nth_error_None in Er; lia].
  rewrite Forall_forall in Hrows. specialize (Hrows row (nth_error_In _ _ Er)).
  destruct (nth_error row (LatencyMeter.cur_iter m)) as [old|] eqn:Eo;
    [|apply nth_error_None in Eo; lia].
  exists idx, row, old. repeat split; assumption.
Qed.

Lemma meter_write_total column m (v : R) :
  meter_ready m -> In column (LatencyMeter.columns m) ->
  exists idx row old row' recs,
    LatencyMeter.record_row column m = Ok (idx, row) /\
    LatencyMeter.index column (LatencyMeter.columns m) = Ok idx /\
    nth_error (LatencyMeter.records m) idx = Some row /\
    py_index row (LatencyMeter.cur_iter m) = Ok old /\
    py_setitem row (LatencyMeter.cur_iter m) v = Ok row' /\
    py_setitem (LatencyMeter.records m) idx row' = Ok recs /\
    meter_ready (LatencyMeter.set_records recs m).
Proof.
  intros Hready Hin.
  destruct (meter_row_total _ _ Hready Hin) as (idx & row & old & Hidx & Hrow & Hold).
  destruct (py_setitem_total row (LatencyMeter.cur_iter m) v) as [row' Hrow'].
  { apply nth_error_Some. rewrite Hold. discriminate. }
  destruct (py_setitem_total (LatencyMeter.records m) idx row') as [recs Hrecs].
  { apply nth_error_Some. rewrite Hrow. discriminate. }
  exists idx, row, old, row', recs.
  split; [unfold LatencyMeter.record_row, py_index; rewrite Hidx; simpl;
          rewrite Hrow; reflexivity|].
  split; [exact Hidx|]. split; [exact Hrow|].
  split; [apply py_index_Ok; exact Hold|].
  split; [exact Hrow'|]. split; [exact Hrecs|].
  destruct Hready as [Hlen Hrows]. split; simpl.
  - rewrite (py_setitem_length _ _ _ _ Hrecs). exact Hlen.
  - eapply py_setitem_Forall_kept; [exact Hrows| |exact Hrecs].
    rewrite (py_setitem_length _ _ _ _ Hrow').
    apply nth_error_Some. rewrite Hold. discriminate.
Qed.

Lemma meter_init_Ok mode iters m :
  LatencyMeter.init mode iters = Ok m ->
  0 <= iters /\ LatencyMeter.cur_iter m = 0%nat /\
  LatencyMeter.start_time m = None /\ LatencyMeter.current_column m = None /\
  LatencyMeter.start_time_l2 m = None /\ LatencyMeter.current_column_l2 m = None /\
  LatencyMeter.records m
  = zeros (length (LatencyMeter.columns m)) (Z.to_nat iters).
Proof.
  unfold LatencyMeter.init. intro H.
  apply bind_Ok in H. destruct H as [u [_ H]].
  apply bind_Ok in H. destruct H as [cols [_ H]].
  destruct (iters <? 0) eqn:E; [discriminate|]. apply Z.ltb_ge in E.
  inversion H; subst. simpl. repeat split; assumption.
Qed.

Lemma meter_end_Ok column now m m' :
  LatencyMeter.end_ column now m = Ok m' ->
  exists t0,
    LatencyMeter.start_time m = Some t0 /\
    LatencyMeter.recorded column m' = Ok (now - t0)%R /\
    (forall other, other <> column ->
       LatencyMeter.recorded other m' = LatencyMeter.recorded other m) /\
    LatencyMeter.start_time m' = None /\ LatencyMeter.current_column m' = None /\
    LatencyMeter.start_time_l2 m' = LatencyMeter.start_time_l2 m /\
    LatencyMeter.current_column_l2 m' = LatencyMeter.current_column_l2 m.
Proof.
  unfold LatencyMeter.end_. intro He.
  destruct (LatencyMeter.start_time m) as [t0|] eqn:Et; [|discriminate].
  simpl in He.
  apply bind_Ok in He. destruct He as [u [_ He]].
  apply bind_Ok in He. destruct He as [[idx row] [Hir He]].
  apply bind_Ok in He. destruct He as [row' [Hrow He]].
  apply bind_Ok in He. destruct He as [recs [Hrecs He]].
  inversion He; subst m'; clear He. simpl in Hrow, Hrecs.
  unfold LatencyMeter.record_row in Hir.
  apply bind_Ok in Hir. destruct Hir as [idx' [Hidx Hir]].
  apply bind_Ok in Hir. destruct Hir as [row0 [Hrow0 Hir]].
  inversion Hir; subst idx' row0; clear Hir.
  exists t0. split; [reflexivity|]. split.
  { eapply meter_recorded_after_write with (m := m); try eassumption; reflexivity. }
  split; [|repeat split].
  intros other Hne.
  eapply meter_recorded_other with (m := m); try eassumption; reflexivity.
Qed.

Lemma meter_end_total column now t0 m :
  meter_ready m -> LatencyMeter.start_time m = Some t0 ->
  LatencyMeter.current_column m = Some column ->
  In column (LatencyMeter.columns m) ->
  exists m', LatencyMeter.end_ column now m = Ok m'.
Proof.
  intros Hready Ht Hc Hin.
  destruct (meter_write_total column m (now - t0)%R Hready Hin)
    as (idx & row & old & row' & recs & Hir & _ & _ & _ & Hrow' & Hrecs & _).
  unfold LatencyMeter.end_. rewrite Ht, Hc. simpl.
  rewrite String.eqb_refl. simpl. rewrite Hir. simpl.
  rewrite Hrow'. simpl. rewrite Hrecs. simpl. eexists. reflexivity.
Qed.

Lemma meter_end_l2_total column now t0 m :
  meter_ready m -> LatencyMeter.start_time_l2 m = Some t0 ->
  LatencyMeter.current_column_l2 m = Some column ->
  In column (LatencyMeter.columns m) ->
  exists m', LatencyMeter.end_l2 column now m = Ok m' /\ meter_ready m'.
Proof.
  intros Hready Ht Hc Hin.
  destruct (meter_write_total column m
              (match LatencyMeter.recorded column m with
               | Ok old => old + (now - t0)
               | Raise _ => 0
               end)%R Hready Hin)
    as (idx & row & old & row' & recs & Hir & _ & _ & Hold & Hrow' & Hrecs & Hready').
  assert (Hrec : LatencyMeter.recorded column m = Ok old).
  { unfold LatencyMeter.recorded. rewrite Hir. simpl. exact Hold. }
  rewrite Hrec in Hrow'.
  unfold LatencyMeter.end_l2. rewrite Ht, Hc. simpl.
  rewrite String.eqb_refl. simpl. rewrite Hir. simpl. rewrite Hold. simpl.
  rewrite Hrow'. simpl. rewrite Hrecs. simpl. eexists. split; [reflexivity|].
  exact Hready'.
Qed.

Lemma meter_init_recorded mode iters m column :
  LatencyMeter.init mode iters = Ok m -> 0 < iters ->
  In column (LatencyMeter.columns m) ->
  meter_ready m /\ LatencyMeter.recorded column m = Ok 0%R.
Proof.
  intros Hinit Hpos Hin.
  destruct (meter_init_Ok _ _ _ Hinit) as (_ & Hcur & _ & _ & _ & _ & Hrec).
  assert (Hready : meter_ready m).
  { split; rewrite Hrec; unfold zeros.
    - apply repeat_length.
    - apply Forall_forall. intros row Hrow. apply repeat_spec in Hrow. subst row.
      rewrite repeat_length, Hcur. lia. }
  split; [exact Hready|].
  destruct (meter_row_total _ _ Hready Hin) as (idx & row & old & Hidx & Hrow & Hold).
  unfold LatencyMeter.recorded, LatencyMeter.record_row, py_index.
  rewrite Hidx. simpl. rewrite Hrow. simpl. rewrite Hold. f_equal.
  apply nth_error_In in Hrow. rewrite Hrec in Hrow. unfold zeros in Hrow.
  apply repeat_spec in Hrow. subst row.
  apply nth_error_In in Hold. apply repeat_spec in Hold. exact Hold.
Qed.

(** X28. The two levels of the latency meter nest as the optimizer uses
    them.  On the meter that the constructor returns for at least one
    iteration, for two different columns of it: [start(outer)],
    [start_l2(inner)], [end_l2(inner)], [end(outer)] all return, and leave
    the elapsed time of each pair in the entry of its column (the inner
    one added to the initial 0), with both timers idle. *)
Theorem meter_nested_levels mode iters m outer inner t0 t1 t2 t3 :
  LatencyMeter.init mode iters = Ok m -> 0 < iters ->
  In outer (LatencyMeter.columns m) -> In inner (LatencyMeter.columns m) ->
  outer <> inner ->
  exists m1 m2 m3 m4,
    LatencyMeter.start outer t0 m = Ok m1 /\
    LatencyMeter.start_l2 inner t1 m1 = Ok m2 /\
    LatencyMeter.end_l2 inner t2 m2 = Ok m3 /\
    LatencyMeter.end_ outer t3 m3 = Ok m4 /\
    LatencyMeter.recorded outer m4 = Ok (t3 - t0)%R /\
    LatencyMeter.recorded inner m4 = Ok (0 + (t2 - t1))%R /\
    LatencyMeter.start_time m4 = None /\ LatencyMeter.start_time_l2 m4 = None.
Proof.
  intros Hinit Hpos Hout Hinn Hne.
  destruct (meter_init_Ok _ _ _ Hinit) as (_ & _ & Hs1 & Hc1 & Hs2 & Hc2 & _).
  destruct (meter_init_recorded _ _ _ inner Hinit Hpos Hinn) as [Hready Hzero].
  assert (H1 : LatencyMeter.start outer t0 m
               = Ok (LatencyMeter.set_level1 (Some t0) (Some outer) m))
    by (unfold LatencyMeter.start; rewrite Hs1, Hc1; reflexivity).
  assert (H2 : LatencyMeter.start_l2 inner t1
                 (LatencyMeter.set_level1 (Some t0) (Some outer) m)
               = Ok (LatencyMeter.set_level2 (Some t1) (Some inner)
                       (LatencyMeter.set_level1 (Some t0) (Some outer) m)))
    by (unfold LatencyMeter.start_l2; simpl; rewrite Hs2, Hc2; reflexivity).
  destruct (meter_end_l2_total inner t2 t1
              (LatencyMeter.set_level2 (Some t1) (Some inner)
                 (LatencyMeter.set_level1 (Some t0) (Some outer) m)))
    as (m3 & H3 & Hready3); [exact Hready|reflexivity|reflexivity|exact Hinn|].
  destruct (meter_level2_interval _ _ _ _ _ _ H2 H3)
    as (old & Hold & Hrec3 & Hidle3 & _ & Ht3 & Hc3 & _ & Hcols3).
  change (LatencyMeter.recorded inner m = Ok old) in Hold.
  rewrite Hzero in Hold. inversion Hold; subst old. clear Hold.
  destruct (meter_end_total outer t3 t0 m3 Hready3 Ht3 Hc3) as [m4 H4];
    [rewrite Hcols3; exact Hout|].
  destruct (meter_end_Ok _ _ _ _ H4)
    as (t0' & Ht0' & Hrec4 & Hother & Hidle4 & _ & Hl2 & _).
  rewrite Ht3 in Ht0'. inversion Ht0'; subst t0'.
  eexists. eexists. exists m3, m4.
  split; [exact H1|]. split; [exact H2|]. split; [exact H3|]. split; [exact H4|].
  split; [exact Hrec4|].
  split; [rewrite (Hother inner (fun H => Hne (eq_sym H))); exact Hrec3|].
  split; [exact Hidle4|]. rewrite Hl2. exact Hidle3.
Qed.

Lemma meter_nested_levels_witness :
  exists m m1 m2 m3 m4,
    LatencyMeter.init "lazydp" 3 = Ok m /\
    LatencyMeter.start "Update_noise" 1 m = Ok m1 /\
    LatencyMeter.start_l2 "bypass_emb" 2 m1 = Ok m2 /\
    LatencyMeter.end_l2 "bypass_emb" 4 m2 = Ok m3 /\
    LatencyMeter.end_ "Update_noise" 7 m3 = Ok m4 /\
    LatencyMeter.recorded "Update_noise" m4 = Ok (7 - 1)%R /\
    LatencyMeter.recorded "bypass_emb" m4 = Ok (0 + (4 - 2))%R.
Proof.
  assert (Hinit : LatencyMeter.init "lazydp" 3 = Ok lazydp_meter)
    by (vm_compute; reflexivity).
  destruct (meter_nested_levels "lazydp" 3 lazydp_meter "Update_noise" "bypass_emb"
              1 2 4 7 Hinit) as (m1 & m2 & m3 & m4 & H1 & H2 & H3 & H4 & H5 & H6 & _).
  - lia.
  - vm_compute. tauto.
  - vm_compute. tauto.
  - discriminate.
  - exists lazydp_meter, m1, m2, m3, m4. repeat split; assumption.
Defined.

(* ------------------------------------------------------------------ *)
(** ** [scale_grad] *)

Lemma grad_is_summed_grad_spec p t :
  grad_is_summed_grad p t = true <->
  summed_grad p = Some t /\ t_processed t = true.
Proof.
  unfold grad_is_summed_grad. destruct (summed_grad p) as [sg|].
  - destruct (t_processed t).
    + destruct (Tensor_eq_dec t sg) as [->|Hne].
      * split; [intros _; split; reflexivity|reflexivity].
      * split; [discriminate|]. intros [H _]. inversion H. congruence.
    + split; [discriminate|]. intros [_ H]. discriminate.
  - split; [discriminate|]. intros [H _]. discriminate.
Qed.

(** X29. [scale_grad] does nothing unless [loss_reduction] is ["mean"].
    With ["mean"] it returns (for an optimizer with parameters) only when
    [expected_batch_size] is set and every parameter has a gradient, and
    then the tensor of every [p.grad] is divided in place by
    [expected_batch_size], the number of accumulated iterations being 1.
    Where [p.grad] is [p.summed_grad] (one marked object under both names,
    as [add_noise] leaves them in EANA and LazyDP mode), [p.summed_grad] is
    therefore divided as well; otherwise [p.summed_grad] keeps its value.
    Nothing else of the parameter changes. *)
Theorem scale_grad_divides_by_batch_size o o' :
  scale_grad o = Ok o' ->
  (loss_reduction o <> "mean" -> o' = o) /\
  (loss_reduction o = "mean" -> params o <> [] ->
   exists b,
     expected_batch_size o = Some b /\
     forall k p, nth_error (params o) k = Some p ->
       exists t, grad p = Some t /\
         (summed_grad p = Some t /\ t_processed t = true ->
          nth_error (params o') k
          = Some (set_grad (Some (tensor_div t (IZR b)))
                    (set_summed_grad (Some (tensor_div t (IZR b))) p))) /\
         (~ (summed_grad p = Some t /\ t_processed t = true) ->
          nth_error (params o') k
          = Some (set_grad (Some (tensor_div t (IZR b))) p))).
Proof.
  unfold scale_grad. intro H. split.
  - intro Hne. destruct (loss_reduction o =? "mean")%string eqn:E.
    + apply String.eqb_eq in E. contradiction.
    + inversion H. reflexivity.
  - intros Hmean Hp. rewrite Hmean in H. simpl in H.
    apply bind_Ok in H. destruct H as [ps [Hps H]]. inversion H; subst o'.
    destruct (map_result_nth _ _ _ Hps) as [_ Hnth].
    destruct (expected_batch_size o) as [b|] eqn:Eb.
    + exists b. split; [reflexivity|]. intros k p Hk.
      destruct (Hnth k p Hk) as (p' & Hp' & Hk').
      unfold accumulated_iterations in Hp'. simpl in Hp'.
      destruct (grad p) as [t|]; [|discriminate].
      exists t. split; [reflexivity|]. simpl. rewrite Hk'.
      rewrite Z.mul_1_r in Hp'. inversion Hp' as [Hp'']. clear Hp' Hp''.
      pose proof (grad_is_summed_grad_spec p t) as Hs.
      destruct (grad_is_summed_grad p t).
      * split; [reflexivity|]. intro Hn. exfalso. apply Hn, Hs. reflexivity.
      * split; [|reflexivity]. intro Ha. apply Hs in Ha. discriminate.
    + destruct (params o) as [|p tl]; [contradiction|].
      destruct (Hnth 0%nat p eq_refl) as (p' & Hp' & _). discriminate.
Qed.

Lemma scale_grad_divides_by_batch_size_witness :
  add_noise merge_config merge_opt = Ok noised_opt /\
  exists o',
    scale_grad noised_opt = Ok o' /\
    nth_error (params o') 0
    = Some (set_grad (Some (tensor_div noised_grad (IZR 1)))
              (set_summed_grad (Some (tensor_div noised_grad (IZR 1)))
                 noised_param)).
Proof.
  split; [reflexivity|].
  destruct (scale_grad noised_opt) as [o'|e] eqn:E; [|cbn in E; discriminate E].
  destruct (scale_grad_divides_by_batch_size noised_opt o' E) as [_ Hmean].
  destruct (Hmean eq_refl) as (b & Hb & Hrows); [discriminate|].
  inversion Hb; subst b.
  destruct (Hrows 0%nat noised_param eq_refl) as (t & Ht & Halias & _).
  inversion Ht; subst t.
  exists o'. split; [reflexivity|]. apply Halias. split; reflexivity.
Defined.

(** X30. Outside a debugging configuration a step does not apply the loss
    reduction: with [config.is_debugging] off, in a mode other than LazyDP
    and with no skip signalled, the state after [pre_step] is the one that
    [add_noise] returned, with only [_is_last_step_skipped] reset, so
    [p.grad] is the noised sum and is not divided by the batch size even
    when [loss_reduction] is ["mean"]. *)
Theorem step_without_debugging_does_not_scale cfg backward losses o r :
  is_debugging cfg = false -> dpsgd_mode cfg <> MODE_LAZYDP ->
  step_skip_queue o = [] ->
  pre_step cfg backward losses o = Ok r ->
  exists o1 o3,
    clip_and_accumulate cfg backward losses o = Ok o1 /\
    add_noise cfg o1 = Ok o3 /\
    r = (true, set_is_last_step_skipped false o3).
Proof.
  intros Hd Hm Hq H. unfold pre_step in H.
  apply bind_Ok in H. destruct H as [o1 [H1 H]].
  pose proof (clip_and_accumulate_frame _ _ _ _ _ H1) as (_ & Hq1 & _).
  unfold _check_skip_next_step in H. rewrite Hq1, Hq in H.
  apply bind_Ok in H. destruct H as [o3 [H3 H]].
  assert (Hl : Mode_eqb (dpsgd_mode cfg) MODE_LAZYDP = false)
    by (destruct (dpsgd_mode cfg); try reflexivity; contradiction).
  rewrite Hl, Hd in H. simpl in H. inversion H; subst r.
  exists o1, o3. repeat split; assumption.
Qed.

Lemma step_without_debugging_does_not_scale_witness :
  exists r o1 o3,
    pre_step rebackward_config second_backward (Some [1%R]) rebackward_opt = Ok r /\
    clip_and_accumulate rebackward_config second_backward (Some [1%R]) rebackward_opt
    = Ok o1 /\
    add_noise rebackward_config o1 = Ok o3 /\
    r = (true, set_is_last_step_skipped false o3).
Proof.
  destruct (pre_step rebackward_config second_backward (Some [1%R]) rebackward_opt)
    as [r|e] eqn:E.
  - assert (Hm : dpsgd_mode rebackward_config <> MODE_LAZYDP) by discriminate.
    destruct (step_without_debugging_does_not_scale rebackward_config second_backward
                (Some [1%R]) rebackward_opt r eq_refl Hm eq_refl E)
      as (o1 & o3 & H1 & H3 & Hr).
    exists r, o1, o3. split; [reflexivity|]. repeat split; assumption.
  - exfalso. revert E. unfold pre_step. cbn.
    unfold add_noise. cbn. unfold add_noise_param. cbn. unfold _generate_noise.
    destruct (Req_dec_T (1 * 1) 0) as [H|_]; [lra|]. discriminate.
Defined.
